(** * Label alignment and split consolidation of hear-eval-kit

    A shallow embedding of [get_labels_for_timestamps] and
    [memmap_embeddings] from [heareval/embeddings/task_embeddings.py],
    together with the properties of the alignment policies and of the
    two-pass consolidation.

    Numbers.  Timestamps, onsets, event bounds and regression values are
    Python and numpy floats in the source, that is IEEE 754 binary64 numbers;
    they are embedded as Rocq's primitive [float], whose operations and
    comparisons are those of binary64: sums, products and quotients are
    rounded to nearest, a quotient can be infinite or NaN, and NaN compares
    false with everything.  A [float32] timestamp is a binary64 number, and
    numpy carries out its arithmetic with a [float64] in binary64. *)

From Stdlib Require Import String List Bool Arith ZArith Lia Floats Permutation SetoidList SetoidPermutation Sorted.
Import ListNotations.

#[local] Set Warnings "-inexact-float".

Local Open Scope string_scope.
Local Open Scope list_scope.
Local Open Scope nat_scope.

(** ** Exceptions *)

Module Py.

(** The exception classes the embedded code can raise. *)
Inductive exn : Set :=
| AssertionError
| KeyError
| ValueError
| IndexError
| UnboundLocalError
| TypeError
| FileNotFoundError.

Inductive result (A : Type) : Type :=
| Ok (a : A)
| Raise (e : exn).

Arguments Ok {A} a.
Arguments Raise {A} e.

Definition bind {A B : Type} (m : result A) (k : A -> result B) : result B :=
  match m with
  | Ok a => k a
  | Raise e => Raise e
  end.

(** [assert c] *)
Definition assert (c : bool) : result unit :=
  if c then Ok tt else Raise AssertionError.

(** [d[key]] on a dict whose entry for [key] may be missing. *)
Definition getitem {A : Type} (field : option A) : result A :=
  match field with
  | Some a => Ok a
  | None => Raise KeyError
  end.

(** [l[i]] on a list or on the first axis of an array. *)
Definition index {A : Type} (l : list A) (i : nat) : result A :=
  match nth_error l i with
  | Some a => Ok a
  | None => Raise IndexError
  end.

(** A [for] loop that builds a list and stops at the first exception. *)
Fixpoint for_each {A B : Type} (body : A -> result B) (l : list A)
  : result (list B) :=
  match l with
  | [] => Ok []
  | a :: l' =>
      bind (body a) (fun b =>
      bind (for_each body l') (fun bs => Ok (b :: bs)))
  end.

End Py.

Import Py.

Notation "x <- m ;; k" := (bind m (fun x => k))
  (at level 61, m at next level, right associativity).
Notation "m ;;; k" := (bind m (fun _ => k))
  (at level 61, right associativity).

(** ** Values *)

(** A label as Python sees it: [None] or a string. *)
Inductive pyval : Set :=
| PyNone
| PyStr (s : string).

Definition pyval_eqb (a b : pyval) : bool :=
  match a, b with
  | PyNone, PyNone => true
  | PyStr s, PyStr s' => String.eqb s s'
  | _, _ => false
  end.

Definition is_not_None (v : pyval) : bool :=
  match v with PyNone => false | PyStr _ => true end.

(** One entry of a split's label JSON: a dict in which each of the keys
    ["start"], ["end"], ["label"] and ["values"] may or may not be present. *)
Record Event : Type := mkEvent {
  ev_start : option float;
  ev_end : option float;
  ev_label : option string;
  ev_values : option (list float)
}.

(** One element of a clip's per-timestamp output: the list of active labels
    (default policy) or an interpolated vector (smoothed and continuous). *)
Inductive entry : Type :=
| Labels (l : list pyval)
| Vector (v : list float).

(** ** The interval tree of the default policy *)

Module IntervalTree.

(** [Interval(begin, end, data)]; [data] is the event's label. *)
Record Interval : Type := mkInterval {
  ibegin : float;
  iend : float;
  idata : string
}.

(** [a == b] on intervals: the three fields are compared with [==], so a
    NaN bound makes an interval different from every interval. *)
Definition interval_eqb (a b : Interval) : bool :=
  (ibegin a =? ibegin b)%float && (iend a =? iend b)%float
  && String.eqb (idata a) (idata b).

(** The tree is a set of intervals: no two equal members.  The search of
    the tree compares the point with the begins of its members; it finds
    every member that contains the point when those begins are numbers. *)
Definition t : Type := list Interval.

Definition empty : t := [].

(** [Interval.is_null]: [begin >= end]. *)
Definition is_null (iv : Interval) : bool := (iend iv <=? ibegin iv)%float.

(** [tree.addi(begin, end, data)]: a member is not added twice, a null
    interval is refused with [ValueError]. *)
Definition addi (b e : float) (d : string) (tree : t) : result t :=
  let iv := mkInterval b e d in
  if existsb (interval_eqb iv) tree then Ok tree
  else if is_null iv then Raise ValueError
  else Ok (tree ++ [iv]).

(** [Interval.contains_point]: [begin <= p < end]. *)
Definition contains_point (p : float) (iv : Interval) : bool :=
  (ibegin iv <=? p)%float && (p <? iend iv)%float.

End IntervalTree.

Import IntervalTree.

(** [0.0001], the widening of an event's end: the binary64 number nearest
    to one ten-thousandth. *)
Definition epsilon : float := 0.0001.

(** ** Arrays of the interpolating policies *)

Module Np.

(** The order numpy sorts and searches floats in: [a < b], with NaN after
    every number. *)
Definition less (a b : float) : bool :=
  (a <? b)%float || (negb (b =? b)%float && (a =? a)%float).

(** [np.searchsorted(a, v)] with the default [side='left']: the bisection
    loop [while lo < hi: mid = lo + (hi - lo) // 2; if a[mid] < v: lo = mid
    + 1 else: hi = mid].  The interval halves at each round, so [hi - lo]
    rounds are enough. *)
Fixpoint bisect_left (rounds : nat) (a : list float) (v : float) (lo hi : nat)
  : nat :=
  match rounds with
  | 0 => lo
  | S rounds' =>
      if lo <? hi then
        let mid := lo + (hi - lo) / 2 in
        if less (nth mid a 0%float) v
        then bisect_left rounds' a v (S mid) hi
        else bisect_left rounds' a v lo mid
      else lo
  end.

Definition searchsorted (a : list float) (v : float) : nat :=
  bisect_left (length a) a v 0 (length a).

(** [np.asarray(rows).astype(float)] on a list of number lists: a
    two-dimensional array when all rows have one length, [ValueError] on
    ragged rows.  An empty list gives the empty array. *)
Definition asarray (rows : list (list float)) : result (list (list float)) :=
  match rows with
  | [] => Ok []
  | r :: rows' =>
      if forallb (fun r' => length r' =? length r) rows'
      then Ok rows
      else Raise ValueError
  end.

(** [c * row] *)
Definition scale (c : float) (row : list float) : list float :=
  map (fun x => (c * x)%float) row.

(** [row + row'], for rows of one length. *)
Fixpoint add (row row' : list float) : list float :=
  match row, row' with
  | x :: r, y :: r' => (x + y)%float :: add r r'
  | _, _ => []
  end.

(** [np.memmap(filename, dtype, mode="w+", shape=shape)]: the file is created
    with room for the numbers of the shape and mapped into memory; a file of
    no bytes cannot be mapped, which is a [ValueError]. *)
Definition memmap (shape : nat * nat) : result unit :=
  if fst shape * snd shape =? 0 then Raise ValueError else Ok tt.

(** [values[-1]] *)
Definition last_row (values : list (list float)) : result (list float) :=
  match values with
  | [] => Raise IndexError
  | _ => index values (length values - 1)
  end.

End Np.

(** [sorted(values, key=lambda v: v[0])]: a stable sort by the first
    component, which compares keys with [<] only; an element goes behind
    the elements whose key is less than its own, and elements of equal key
    keep their order.  This is the order [sorted] gives when the keys are
    numbers. *)
Fixpoint insert_by_key {A : Type} (x : float * A) (l : list (float * A))
  : list (float * A) :=
  match l with
  | [] => [x]
  | y :: l' =>
      if (fst y <? fst x)%float then y :: insert_by_key x l'
      else x :: y :: l'
  end.

Fixpoint sorted_by_key {A : Type} (l : list (float * A)) : list (float * A) :=
  match l with
  | [] => []
  | x :: l' => insert_by_key x (sorted_by_key l')
  end.

(** ** The label aligner: [get_labels_for_timestamps] *)

Section LabelAligner.

(** [tree[t]] is a Python [set]; the order in which the list comprehension
    walks it is not fixed by the language.  [set_iter] is that order. *)
Variable set_iter : list Interval -> list Interval.

(** [tree[t]]: the members that contain the point. *)
Definition tree_at (tree : IntervalTree.t) (p : float) : list Interval :=
  set_iter (filter (contains_point p) tree).

(** [for event in label: tree.addi(event["start"], event["end"] + 0.0001,
    event["label"])] *)
Fixpoint add_events (label : list Event) (tree : IntervalTree.t)
  : result IntervalTree.t :=
  match label with
  | [] => Ok tree
  | event :: rest =>
      b <- getitem (ev_start event) ;;
      e <- getitem (ev_end event) ;;
      d <- getitem (ev_label event) ;;
      tree' <- addi b (e + epsilon)%float d tree ;;
      add_events rest tree'
  end.

(** The body of [for j, t in enumerate(timestamps[i])] of the default
    policy, with [last_label] threaded through the iterations. *)
Definition default_step (tree : IntervalTree.t) (to_onehot : bool)
    (default_label last_label : pyval) (t : float) : list pyval * pyval :=
  let interval_labels := map (fun iv => PyStr (idata iv)) (tree_at tree t) in
  if to_onehot then
    let interval_labels :=
      if length interval_labels =? 0 then
        [if is_not_None last_label then last_label else default_label]
      else if 1 <? length interval_labels then
        if is_not_None last_label
           && existsb (pyval_eqb last_label) interval_labels
        then [last_label]
        else [default_label]
      else interval_labels in
    (interval_labels, hd PyNone interval_labels)
  else (interval_labels, last_label).

Fixpoint default_timestamps (tree : IntervalTree.t) (to_onehot : bool)
    (default_label last_label : pyval) (ts : list float)
  : list (list pyval) :=
  match ts with
  | [] => []
  | t :: ts' =>
      let (interval_labels, last_label') :=
        default_step tree to_onehot default_label last_label t in
      interval_labels
        :: default_timestamps tree to_onehot default_label last_label' ts'
  end.

(** One round of [for i, label in enumerate(labels)], default policy. *)
Definition default_clip (to_onehot : bool) (default_label : pyval)
    (clip : list Event * list float) : result (list entry) :=
  tree <- add_events (fst clip) IntervalTree.empty ;;
  Ok (map Labels
        (default_timestamps tree to_onehot default_label PyNone (snd clip))).

(** The body of [for j, t in enumerate(timestamps[i])] of the smoothed and
    continuous policies. *)
Definition interpolate (onsets : list float) (values : list (list float))
    (t : float) : result (list float) :=
  let upper_idx := Np.searchsorted onsets t in
  if upper_idx =? 0 then index values 0
  else if upper_idx =? length values then Np.last_row values
  else
    lower <- index onsets (upper_idx - 1) ;;
    upper <- index onsets upper_idx ;;
    let alpha := ((t - lower) / (upper - lower))%float in
    v_lower <- index values (upper_idx - 1) ;;
    v_upper <- index values upper_idx ;;
    Ok (Np.add (Np.scale (1 - alpha)%float v_lower) (Np.scale alpha v_upper)).

(** From [values = sorted(values, key=lambda v: v[0])] to the end of the
    round: the lines the smoothed and the continuous branch have in
    common. *)
Definition interpolate_clip (values : list (float * list float))
    (ts : list float) : result (list entry) :=
  let values := sorted_by_key values in
  let onsets := map fst values in
  values <- Np.asarray (map snd values) ;;
  for_each (fun t => v <- interpolate onsets values t ;; Ok (Vector v)) ts.

(** One round of the continuous policy. *)
Definition continuous_clip (clip : list Event * list float)
  : result (list entry) :=
  values <- for_each (fun event =>
              s <- getitem (ev_start event) ;;
              v <- getitem (ev_values event) ;;
              Ok (s, v)) (fst clip) ;;
  interpolate_clip values (snd clip).

(** Reading the local [values] before any assignment to it. *)
Definition unbound_values : result (list (float * list float)) :=
  Raise UnboundLocalError.

(** One round of the smoothed policy: the events are grouped in
    [events_per_label], then [sorted(values, ...)] reads [values], which no
    statement of this branch has assigned. *)
Definition smoothed_clip (clip : list Event * list float)
  : result (list entry) :=
  for_each (fun event =>
    l <- getitem (ev_label event) ;;
    s <- getitem (ev_start event) ;;
    Ok (l, s)) (fst clip) ;;;
  values <- unbound_values ;;
  interpolate_clip values (snd clip).

Definition get_labels_for_timestamps (labels : list (list Event))
    (timestamps : list (list float)) (mode : string) (to_onehot : bool)
    (default_label : pyval) : result (list (list entry)) :=
  assert (length labels =? length timestamps) ;;;
  timestamp_labels <-
    (if (mode =? "default")%string then
       for_each (default_clip to_onehot default_label)
                (combine labels timestamps)
     else if (mode =? "smoothed")%string then
       for_each smoothed_clip (combine labels timestamps)
     else if (mode =? "continuous")%string then
       for_each continuous_clip (combine labels timestamps)
     else Raise TypeError) ;;
  assert (length timestamp_labels =? length timestamps) ;;;
  Ok timestamp_labels.

End LabelAligner.

(** ** The split consolidator: [memmap_embeddings] *)

Module Json.

(** What [json.load] can return. *)
#[local] Unset Elimination Schemes.
Inductive json : Type :=
| JNull
| JBool (b : bool)
| JInt (n : Z)
| JFloat (x : float)
| JStr (s : string)
| JList (l : list json)
| JDict (d : list (string * json)).
#[local] Set Elimination Schemes.

(** [len(x)]: defined on strings, lists and dicts. *)
Definition len (x : json) : result nat :=
  match x with
  | JStr s => Ok (String.length s)
  | JList l => Ok (length l)
  | JDict d => Ok (length d)
  | _ => Raise TypeError
  end.

(** The items a [for] loop or [+=] takes from [x]: the characters of a
    string, the elements of a list, the keys of a dict. *)
Definition iter (x : json) : result (list json) :=
  match x with
  | JStr s => Ok (map (fun c => JStr (String c EmptyString)) (list_ascii_of_string s))
  | JList l => Ok l
  | JDict d => Ok (map (fun kv => JStr (fst kv)) d)
  | _ => Raise TypeError
  end.

(** [isinstance(x, list)] *)
Definition is_list (x : json) : bool :=
  match x with JList _ => true | _ => false end.

End Json.

Import Json.

Inductive dtype : Set := Float32 | Float64 | Int64.

Definition dtype_eqb (a b : dtype) : bool :=
  match a, b with
  | Float32, Float32 | Float64, Float64 | Int64, Int64 => true
  | _, _ => false
  end.

(** An embedding array as far as consolidation looks at it: element type and
    shape.  The elements themselves are copied, never inspected. *)
Record ndarray : Type := mkArray {
  arr_dtype : dtype;
  arr_shape : list nat
}.

(** [emb.astype(d)] *)
Definition astype (d : dtype) (emb : ndarray) : ndarray :=
  mkArray d (arr_shape emb).

(** [emb.ndim] *)
Definition arr_ndim (emb : ndarray) : nat := length (arr_shape emb).

(** The artifacts the persister left for one key of [split_data]; [None] is a
    file that is not on disk. *)
Record File : Type := mkFile {
  slug : string;
  embedding_npy : option ndarray;
  target_labels_json : option json;
  timestamps_json : option json
}.

Record Metadata : Type := mkMetadata {
  embedding_type : string;
  prediction_type : string
}.

(** What [memmap_embeddings] leaves behind for a split: the pair written to
    [<split>.embedding-dimensions.json], the number of rows of the map that
    pass 2 has filled, the list pickled to [<split>.target-labels.pkl], and
    the list written to [<split>.filename-timestamps.json] when the split is
    event or continuous. *)
Record Consolidated : Type := mkConsolidated {
  embedding_dimensions : nat * nat;
  rows_filled : nat;
  target_labels : list json;
  filename_timestamps : option (list (string * json))
}.

Definition is_event_or_continuous (metadata : Metadata) : bool :=
  (embedding_type metadata =? "event")%string
  || (embedding_type metadata =? "continuous")%string.

(** [open(path)] for reading. *)
Definition open_file {A : Type} (f : option A) : result A :=
  match f with
  | Some a => Ok a
  | None => Raise FileNotFoundError
  end.

(** Numpy's rule for assigning an array with [n] rows of [d] columns to a
    slice of [rows] rows and [D] columns: every axis fits or has extent 1. *)
Definition broadcasts (n d rows D : nat) : bool :=
  ((n =? rows) || (n =? 1)) && ((d =? D) || (d =? 1)).

Section SplitConsolidator.

(** [prng.shuffle(embedding_files)] *)
Variable shuffle : list File -> list File.

(** The body of the first loop.  The state is [nembeddings] and [ndim];
    [ndim] is declared without a value, so it is [None] until a round
    assigns it. *)
Definition sizing_step (metadata : Metadata) (st : nat * option nat)
    (embedding_file : File) : result (nat * option nat) :=
  let (nembeddings, _) := st in
  assert (match embedding_npy embedding_file with Some _ => true | None => false end) ;;;
  emb <- open_file (embedding_npy embedding_file) ;;
  let emb := astype Float32 emb in
  if (embedding_type metadata =? "scene")%string then
    assert (arr_ndim emb =? 1) ;;;
    ndim <- index (arr_shape emb) 0 ;;
    assert (dtype_eqb (arr_dtype emb) Float32) ;;;
    Ok (nembeddings + 1, Some ndim)
  else if is_event_or_continuous metadata then
    assert (arr_ndim emb =? 2) ;;;
    rows <- index (arr_shape emb) 0 ;;
    ndim <- index (arr_shape emb) 1 ;;
    assert (dtype_eqb (arr_dtype emb) Float32) ;;;
    Ok (nembeddings + rows, Some ndim)
  else Raise ValueError.

Fixpoint sizing_loop (metadata : Metadata) (st : nat * option nat)
    (embedding_files : list File) : result (nat * option nat) :=
  match embedding_files with
  | [] => Ok st
  | embedding_file :: rest =>
      st' <- sizing_step metadata st embedding_file ;;
      sizing_loop metadata st' rest
  end.

(** Pass 1, up to the write of [<split>.embedding-dimensions.json]:
    [json.dumps((nembeddings, ndim))] reads [ndim]. *)
Definition sizing_pass (metadata : Metadata) (embedding_files : list File)
  : result (nat * nat) :=
  st <- sizing_loop metadata (0, None) embedding_files ;;
  match snd st with
  | Some ndim => Ok (fst st, ndim)
  | None => Raise UnboundLocalError
  end.

(** The state of the second loop: [idx], [labels], [filename_timestamps]. *)
Definition fill_state : Type := nat * list json * list (string * json).

(** The body of the second loop, writing into a map of shape [(N, D)]. *)
Definition fill_step (metadata : Metadata) (N D : nat) (st : fill_state)
    (embedding_file : File) : result fill_state :=
  let '(idx, labels, filename_timestamps) := st in
  emb <- open_file (embedding_npy embedding_file) ;;
  lbl <- open_file (target_labels_json embedding_file) ;;
  if (embedding_type metadata =? "scene")%string then
    assert (arr_ndim emb =? 1) ;;;
    d <- index (arr_shape emb) 0 ;;
    (if idx <? N then Ok tt else Raise IndexError) ;;;
    (if (d =? D) || (d =? 1) then Ok tt else Raise ValueError) ;;;
    (if (prediction_type metadata =? "multiclass")%string then
       n <- Json.len lbl ;;
       assert (n =? 1)
     else if (prediction_type metadata =? "multilabel")%string then
       assert (Json.is_list lbl)
     else
       (* a NotImplementedError is built here and dropped: no [raise] *)
       Ok tt) ;;;
    Ok (idx + 1, labels ++ [lbl], filename_timestamps)
  else if is_event_or_continuous metadata then
    assert (arr_ndim emb =? 2) ;;;
    rows <- index (arr_shape emb) 0 ;;
    d <- index (arr_shape emb) 1 ;;
    (if broadcasts rows d (Nat.min (idx + rows) N - Nat.min idx N) D
     then Ok tt else Raise ValueError) ;;;
    n <- Json.len lbl ;;
    assert (rows =? n) ;;;
    items <- Json.iter lbl ;;
    let labels := labels ++ items in
    timestamps <- open_file (timestamps_json embedding_file) ;;
    stamps <- Json.iter timestamps ;;
    let filename_timestamps :=
      filename_timestamps
        ++ map (fun timestamp => (slug embedding_file, timestamp)) stamps in
    m <- Json.len timestamps ;;
    assert (rows =? m) ;;;
    assert (n =? m) ;;;
    Ok (idx + rows, labels, filename_timestamps)
  else Raise ValueError.

Fixpoint fill_loop (metadata : Metadata) (N D : nat) (st : fill_state)
    (embedding_files : list File) : result fill_state :=
  match embedding_files with
  | [] => Ok st
  | embedding_file :: rest =>
      st' <- fill_step metadata N D st embedding_file ;;
      fill_loop metadata N D st' rest
  end.

Definition memmap_embeddings (metadata : Metadata) (split_data : list File)
  : result Consolidated :=
  let embedding_files := shuffle split_data in
  dims <- sizing_pass metadata embedding_files ;;
  let (nembeddings, ndim) := dims in
  Np.memmap (nembeddings, ndim) ;;;
  st <- fill_loop metadata nembeddings ndim (0, [], []) embedding_files ;;
  let '(idx, labels, filename_timestamps) := st in
  if is_event_or_continuous metadata then
    assert (length labels =? length filename_timestamps) ;;;
    Ok (mkConsolidated dims idx labels (Some filename_timestamps))
  else
    Ok (mkConsolidated dims idx labels None).

End SplitConsolidator.

(** ** Vocabulary of the statements *)

(** The float is a number: not NaN. *)
Definition number (x : float) : Prop := (x =? x)%float = true.

(** A place on the line of the integers for every number, in the order of
    the numbers: the two zeros share a place, and the finite numbers lie
    between the two infinities. *)
Definition order_key (x : float) : Z :=
  match Prim2SF x with
  | S754_zero _ => 0
  | S754_infinity false => 3000 * 2 ^ 53
  | S754_infinity true => - (3000 * 2 ^ 53)
  | S754_nan => 0
  | S754_finite false m e => (e + 1075) * 2 ^ 53 + Zpos m
  | S754_finite true m e => - ((e + 1075) * 2 ^ 53 + Zpos m)
  end.

(** The float is a number other than the two infinities. *)
Definition finite (x : float) : Prop :=
  match Prim2SF x with
  | S754_zero _ | S754_finite _ _ _ => True
  | _ => False
  end.

(** The float is a number other than zero and the two infinities. *)
Definition finite_nonzero (x : float) : Prop :=
  match Prim2SF x with
  | S754_finite _ _ _ => True
  | _ => False
  end.

(** The event's span, widened at its end, contains [t]: [start <= t] and
    [t < end + 0.0001], with the sum as the code computes it. *)
Definition covers (ev : Event) (t : float) : Prop :=
  match ev_start ev, ev_end ev with
  | Some b, Some e =>
      (b <=? t)%float = true /\ (t <? e + epsilon)%float = true
  | _, _ => False
  end.

(** Two events are one interval: equal start, equal widened end, and the
    same label. *)
Definition same_interval (ev ev' : Event) : Prop :=
  match ev_start ev, ev_end ev, ev_start ev', ev_end ev' with
  | Some b, Some e, Some b', Some e' =>
      (b =? b')%float = true /\ (e + epsilon =? e' + epsilon)%float = true
      /\ ev_label ev = ev_label ev'
  | _, _, _, _ => False
  end.

(** An event the default policy can put in its tree: the three keys are there
    and the start is less than the widened end, which makes both numbers. *)
Definition interval_event (ev : Event) : Prop :=
  exists b e l,
    ev_start ev = Some b /\ ev_end ev = Some e /\ ev_label ev = Some l
    /\ (b <? e + epsilon)%float = true.

(** The three keys are there and the widened end is not at most the start:
    an interval [addi] takes. *)
Definition accepted_event (ev : Event) : Prop :=
  exists b e l,
    ev_start ev = Some b /\ ev_end ev = Some e /\ ev_label ev = Some l
    /\ (e + epsilon <=? b)%float = false.

(** The interval [addi] is called with for an event. *)
Definition event_interval (ev : Event) : option Interval :=
  match ev_start ev, ev_end ev, ev_label ev with
  | Some b, Some e, Some l => Some (mkInterval b (e + epsilon)%float l)
  | _, _, _ => None
  end.

(** [a == b] on intervals. *)
Definition ieq (a b : Interval) : Prop := interval_eqb a b = true.

(** [tree] holds the intervals of the events [evs], each one once: every
    member is the interval of an event, the interval of an event is a member
    when it equals itself, and no two members are equal. *)
Definition tree_of (evs : list Event) (tree : IntervalTree.t) : Prop :=
  (forall iv, In iv tree -> exists ev, In ev evs /\ event_interval ev = Some iv)
  /\ (forall ev iv, In ev evs -> event_interval ev = Some iv -> ieq iv iv ->
        exists iv', In iv' tree /\ ieq iv iv')
  /\ NoDupA ieq tree.

(** What the list comprehension of the default policy collects at [t]. *)
Definition raw_labels (set_iter : list Interval -> list Interval)
    (tree : IntervalTree.t) (t : float) : list pyval :=
  map (fun iv => PyStr (idata iv)) (tree_at set_iter tree t).

(** The order [sorted] puts (onset, value) pairs with numbers for onsets
    in. *)
Definition key_le {A : Type} (x y : float * A) : Prop :=
  (fst x <=? fst y)%float = true.

(** The event carries the label [p]. *)
Definition labelled (ev : Event) (p : pyval) : Prop :=
  exists l, ev_label ev = Some l /\ p = PyStr l.

(** [p] is the label of an event of the clip that covers [t]. *)
Definition among_matches (evs : list Event) (t : float) (p : pyval) : Prop :=
  exists ev, In ev evs /\ covers ev t /\ labelled ev p.

(** The label chosen at the timestamp before the [j]-th, if there is one. *)
Definition previous_choice (chosen : list pyval) (j : nat) : option pyval :=
  match j with
  | 0 => None
  | S k => nth_error chosen k
  end.

(** The stabilization rule for the label [c] chosen at [t], given the choice
    at the timestamp before. *)
Definition stabilized (evs : list Event) (default_label : pyval)
    (prev : option pyval) (t : float) (c : pyval) : Prop :=
  ((forall ev, In ev evs -> ~ covers ev t) ->
     c = match prev with Some p => p | None => default_label end)
  /\ ((exists ev ev', In ev evs /\ In ev' evs /\ covers ev t /\ covers ev' t
                      /\ ~ same_interval ev ev') ->
       (forall p, prev = Some p -> among_matches evs t p -> c = p)
       /\ (prev = None -> c = default_label)
       /\ (forall p, prev = Some p -> ~ among_matches evs t p ->
              c = default_label))
  /\ (forall ev, In ev evs -> covers ev t ->
       (forall ev', In ev' evs -> covers ev' t -> same_interval ev ev') ->
       labelled ev c).

(** An event the continuous policy can read, with a value of [d] numbers. *)
Definition onset_event (d : nat) (ev : Event) : Prop :=
  exists b v, ev_start ev = Some b /\ ev_values ev = Some v /\ length v = d.

(** The (onset, value) pairs of a clip's events, in the order of the
    events. *)
Definition extract_pairs (evs : list Event) : list (float * list float) :=
  flat_map (fun ev =>
    match ev_start ev, ev_values ev with
    | Some b, Some v => [(b, v)]
    | _, _ => []
    end) evs.

(** The same pairs in the order the continuous policy interpolates in. *)
Definition onset_pairs (evs : list Event) : list (float * list float) :=
  sorted_by_key (extract_pairs evs).

(** [(1 - alpha) * v + alpha * v'], component by component, each product
    and each sum rounded as binary64 rounds it. *)
Definition lerp (alpha : float) (v v' : list float) : list float :=
  map (fun xy => ((1 - alpha) * fst xy + alpha * snd xy)%float) (combine v v').

(** Equality of vectors as numbers: [==] on each component. *)
Definition vec_eq (v v' : list float) : Prop :=
  Forall2 (fun x y => (x =? y)%float = true) v v'.

(** The onsets are numbers that do not decrease along the list. *)
Definition ascending (a : list float) : Prop :=
  forall i j, i <= j -> j < length a ->
    (nth i a 0 <=? nth j a 0)%float = true.

(** The onsets are numbers that increase along the list. *)
Definition increasing (a : list float) : Prop :=
  StronglySorted (fun x y => (x <? y)%float = true) a.

(** What the interpolating policies give at [t] from the sorted (onset,
    value) pairs: the first value up to the first onset, the last value after
    the last onset, the weighted mean of the two neighbours in between, with
    the weight [(t - o) / (o' - o)] as binary64 computes it. *)
Definition interpolated (pairs : list (float * list float)) (t : float)
    (v : list float) : Prop :=
  (forall o v0, nth_error pairs 0 = Some (o, v0) ->
     (t <=? o)%float = true -> v = v0)
  /\ (forall o vn, nth_error pairs (length pairs - 1) = Some (o, vn) ->
        (o <? t)%float = true -> v = vn)
  /\ (forall i o v0 o' v1,
        nth_error pairs i = Some (o, v0) ->
        nth_error pairs (S i) = Some (o', v1) ->
        (o <? t)%float = true -> (t <=? o')%float = true ->
        v = lerp ((t - o) / (o' - o))%float v0 v1).

(** The rows a file contributes to its split. *)
Definition row_count (metadata : Metadata) (f : File) : nat :=
  if (embedding_type metadata =? "scene")%string then 1
  else match embedding_npy f with
       | Some emb => hd 0 (arr_shape emb)
       | None => 0
       end.

Definition total_rows (metadata : Metadata) (files : list File) : nat :=
  fold_right (fun f n => row_count metadata f + n) 0 files.

(** The artifacts of one clip of a scene split whose vectors have [D]
    numbers: the vector, and a list of labels that has one element when the
    split is multiclass. *)
Definition scene_file (metadata : Metadata) (D : nat) (f : File) : Prop :=
  exists dt labels,
    embedding_npy f = Some (mkArray dt [D])
    /\ target_labels_json f = Some (JList labels)
    /\ (prediction_type metadata = "multiclass" -> length labels = 1).

(** The artifacts of one clip of an event or continuous split whose vectors
    have [D] numbers: as many labels and as many timestamps as the embedding
    has rows. *)
Definition timestamp_file (D : nat) (f : File) : Prop :=
  exists dt rows labels stamps,
    embedding_npy f = Some (mkArray dt [rows; D])
    /\ target_labels_json f = Some (JList labels)
    /\ timestamps_json f = Some (JList stamps)
    /\ length labels = rows
    /\ length stamps = rows.

(** A split whose per-file artifacts agree with each other. *)
Definition consistent_split (metadata : Metadata) (D : nat)
    (files : list File) : Prop :=
  (embedding_type metadata = "scene"
   /\ Forall (scene_file metadata D) files)
  \/ (is_event_or_continuous metadata = true
      /\ Forall (timestamp_file D) files).

(** The rank pass 1 asks of an embedding. *)
Definition expected_rank (metadata : Metadata) : nat :=
  if (embedding_type metadata =? "scene")%string then 1 else 2.

(** The embedding file is on disk and holds an array of the expected rank. *)
Definition rank_ok (metadata : Metadata) (f : File) : bool :=
  match embedding_npy f with
  | Some emb => arr_ndim emb =? expected_rank metadata
  | None => false
  end.

(** The extent of the last axis of a file's embedding. *)
Definition columns (f : File) : nat :=
  match embedding_npy f with
  | Some emb => last (arr_shape emb) 0
  | None => 0
  end.

(** The embedding type is one of the three that consolidation knows. *)
Definition known_embedding_type (metadata : Metadata) : Prop :=
  embedding_type metadata = "scene"
  \/ is_event_or_continuous metadata = true.

(** ** Concrete inputs *)

Definition ev_interval (b e : float) (l : string) : Event :=
  mkEvent (Some b) (Some e) (Some l) None.

Definition ev_onset (b : float) (v : list float) : Event :=
  mkEvent (Some b) None None (Some v).

Definition f32 (sh : list nat) : ndarray := mkArray Float32 sh.

Definition json_list (n : nat) : json := JList (repeat JNull n).

Definition event_file (name : string) (rows cols : nat) : File :=
  mkFile name (Some (f32 [rows; cols])) (Some (json_list rows))
         (Some (json_list rows)).

Definition identity_order {A : Type} (l : list A) : list A := l.

(** ** Vocabulary of the further properties *)

(** One of the three keys the default policy reads is missing. *)
Definition lacks_interval_key (ev : Event) : Prop :=
  ev_start ev = None \/ ev_end ev = None \/ ev_label ev = None.

(** The three keys are there and the widened end is at most the start: the
    interval [addi] refuses. *)
Definition null_event (ev : Event) : Prop :=
  exists b e l,
    ev_start ev = Some b /\ ev_end ev = Some e /\ ev_label ev = Some l
    /\ (e + epsilon <=? b)%float = true.

(** The event's start, when it has one, is a number. *)
Definition numbered_start (ev : Event) : Prop :=
  forall b, ev_start ev = Some b -> number b.

(** The event has the two keys the continuous policy reads. *)
Definition has_onset_keys (ev : Event) : bool :=
  match ev_start ev, ev_values ev with
  | Some _, Some _ => true
  | _, _ => false
  end.

(** The event has the two keys the smoothed policy reads. *)
Definition has_smoothed_keys (ev : Event) : bool :=
  match ev_label ev, ev_start ev with
  | Some _, Some _ => true
  | _, _ => false
  end.

(** A clip the continuous policy can align: its events carry "start" and
    "values", the values have one length, and a clip without events has no
    timestamp either. *)
Definition continuous_clip_ok (clip : list Event * list float) : Prop :=
  (exists d, Forall (onset_event d) (fst clip))
  /\ (fst clip = [] -> snd clip = []).

(** Two (onset, value) pairs have the same onset: neither onset is less than
    the other, so that [sorted] does not tell the two pairs apart.  For
    numbers this is [==]. *)
Definition same_onset (p q : float * list float) : Prop :=
  (fst p <? fst q)%float = false /\ (fst q <? fst p)%float = false.

(** The labels a file adds to the split's label list: the label file as one
    element in a scene split, its items otherwise. *)
Definition file_labels (metadata : Metadata) (f : File) : list json :=
  match target_labels_json f with
  | None => []
  | Some lbl =>
      if (embedding_type metadata =? "scene")%string then [lbl]
      else match Json.iter lbl with
           | Ok items => items
           | Raise _ => []
           end
  end.

(** The (file, timestamp) pairs a file adds to the split's list. *)
Definition file_stamps (f : File) : list (string * json) :=
  match timestamps_json f with
  | None => []
  | Some timestamps =>
      match Json.iter timestamps with
      | Ok stamps => map (fun timestamp => (slug f, timestamp)) stamps
      | Raise _ => []
      end
  end.

(** What the two passes have checked of a file when consolidation into [D]
    columns completes. *)
Definition validated_file (metadata : Metadata) (D : nat) (f : File) : Prop :=
  exists emb lbl,
    embedding_npy f = Some emb
    /\ target_labels_json f = Some lbl
    /\ arr_ndim emb = expected_rank metadata
    /\ (columns f = D \/ columns f = 1)
    /\ if (embedding_type metadata =? "scene")%string then
         (prediction_type metadata = "multiclass" -> Json.len lbl = Ok 1)
         /\ (prediction_type metadata = "multilabel" ->
             Json.is_list lbl = true)
       else
         exists timestamps,
           timestamps_json f = Some timestamps
           /\ Json.len lbl = Ok (row_count metadata f)
           /\ Json.len timestamps = Ok (row_count metadata f).

(** A file of an event or continuous split whose embedding has [D] columns
    or a single one. *)
Definition broadcastable_file (D : nat) (f : File) : Prop :=
  timestamp_file D f \/ timestamp_file 1 f.

(** The file [last] falls back on: nothing on disk. *)
Definition no_file : File := mkFile "" None None None.

(** ** The label vocabulary of the task driver *)

Module Vocabulary.

(** The line feed. *)
Definition LF : Ascii.ascii := Ascii.ascii_of_nat 10.

(** The carriage return. *)
Definition CR : Ascii.ascii := Ascii.ascii_of_nat 13.

(** The comma. *)
Definition comma : Ascii.ascii := Ascii.ascii_of_nat 44.

(** What [fp.read()] returns for the characters of a file opened with
    [open(path, 'r')]: the text mode turns the line endings "\r\n" and "\r"
    into a line feed. *)
Fixpoint universal_newlines (s : string) : string :=
  match s with
  | EmptyString => EmptyString
  | String c s' =>
      if Ascii.eqb c CR then
        match s' with
        | EmptyString => String LF EmptyString
        | String c' s'' =>
            if Ascii.eqb c' LF then String LF (universal_newlines s'')
            else String LF (universal_newlines s')
        end
      else String c (universal_newlines s')
  end.

(** The first piece of [s.split(sep)] and the pieces after it. *)
Fixpoint split_pieces (sep : Ascii.ascii) (s : string) : string * list string :=
  match s with
  | EmptyString => (EmptyString, [])
  | String c s' =>
      let (piece, rest) := split_pieces sep s' in
      if Ascii.eqb c sep then (EmptyString, piece :: rest)
      else (String c piece, rest)
  end.

(** [s.split(sep)] for a separator of one character. *)
Definition split (sep : Ascii.ascii) (s : string) : list string :=
  let (piece, rest) := split_pieces sep s in piece :: rest.

Section Parsing.

(** [int(s)] on a string is Python's own; it returns a number or raises. *)
Variable int : string -> result Z.

(** The three assignments to [label_vocab], from the text [fp.read()]
    returned: the non-empty lines after the first, split at the commas, with
    the first field read as a number and the second kept. *)
Definition read_label_vocab (text : string) : result (list (Z * string)) :=
  let label_vocab :=
    tl (filter (fun l => negb (l =? "")%string) (split LF text)) in
  let label_vocab := map (split comma) label_vocab in
  for_each (fun l =>
    field0 <- index l 0 ;;
    number <- int field0 ;;
    field1 <- index l 1 ;;
    Ok (number, field1)) label_vocab.

(** [label_vocab[-1][1]] *)
Definition last_label (label_vocab : list (Z * string)) : result string :=
  match label_vocab with
  | [] => Raise IndexError
  | _ => Ok (snd (last label_vocab (0%Z, EmptyString)))
  end.

(** The default label the driver hands to the aligner. *)
Definition default_label_of (text : string) : result pyval :=
  label_vocab <- read_label_vocab text ;;
  label <- last_label label_vocab ;;
  Ok (PyStr label).

(** [with open(label_vocab_path, 'r') as fp:] and the three assignments, on
    the characters of the file. *)
Definition read_vocabulary_file (file : string) : result (list (Z * string)) :=
  read_label_vocab (universal_newlines file).

End Parsing.

(** [c] occurs in [s]. *)
Fixpoint occurs (c : Ascii.ascii) (s : string) : bool :=
  match s with
  | EmptyString => false
  | String c' s' => Ascii.eqb c' c || occurs c s'
  end.

(** The text begins with a line feed. *)
Definition begins_with_LF (s : string) : bool :=
  match s with
  | String c _ => Ascii.eqb c LF
  | EmptyString => false
  end.

(** The line endings a CSV writer closes its lines with: "\n", "\r\n" or
    "\r". *)
Definition line_ending (eol : string) : Prop :=
  eol = String LF EmptyString
  \/ eol = String CR (String LF EmptyString)
  \/ eol = String CR EmptyString.

(** The characters of a vocabulary file as a CSV writer leaves it: a header
    line, then one line "number,label" per row, each line closed by the line
    ending [eol]. *)
Definition csv_line (eol : string) (row : string * string) : string :=
  (fst row ++ String comma (snd row) ++ eol)%string.

Definition csv_text (eol header : string) (rows : list (string * string))
  : string :=
  (header ++ eol ++ String.concat EmptyString (map (csv_line eol) rows))%string.

(** A field a CSV line can hold as it is: no comma, no line feed and no
    carriage return. *)
Definition plain_field (s : string) : Prop :=
  occurs comma s = false /\ occurs LF s = false /\ occurs CR s = false.

End Vocabulary.

(** ** The alignment step of the task driver *)

Section DriverAlignment.

Variable set_iter : list Interval -> list Interval.
Variable int : string -> result Z.

(** ["continuous" if metadata["embedding_type"] == "continuous" else
    "default"] *)
Definition labeling_mode (metadata : Metadata) : string :=
  if (embedding_type metadata =? "continuous")%string then "continuous"
  else "default".

(** [split_data[file]]; [split_data] is a dict from file names to event
    lists. *)
Definition lookup_labels (split_data : list (string * list Event))
    (file : string) : result (list Event) :=
  match find (fun kv => (fst kv =? file)%string) split_data with
  | Some kv => Ok (snd kv)
  | None => Raise KeyError
  end.

(** The event and continuous branch of the loop over the batches, up to the
    call of [save_timestamp_embedding_and_labels]: the labels of the batch's
    files are looked up, the vocabulary file is read for the default label,
    the labels are aligned to the timestamps the model returned, and the two
    assertions on the result are made.  [vocabulary] is the text [fp.read()]
    returns for [labelvocabulary.csv], [None] when the file is not there. *)
Definition align_batch (metadata : Metadata) (vocabulary : option string)
    (split_data : list (string * list Event)) (filenames : list string)
    (timestamps : list (list float)) : result (list (list entry)) :=
  labels <- for_each (lookup_labels split_data) filenames ;;
  text <- open_file vocabulary ;;
  label_vocab <- Vocabulary.read_label_vocab int text ;;
  default_label <- Vocabulary.last_label label_vocab ;;
  labels <- get_labels_for_timestamps set_iter labels timestamps
              (labeling_mode metadata)
              (prediction_type metadata =? "multiclass")%string
              (PyStr default_label) ;;
  assert (length labels =? length filenames) ;;;
  first <- index labels 0 ;;
  first_timestamps <- index timestamps 0 ;;
  assert (length first =? length first_timestamps) ;;;
  Ok labels.

End DriverAlignment.

(** ** The per-file persister and the files pass 2 opens *)

Module Disk.

(** What a path holds: an array written by [np.save] or a value written by
    [json.dump]. *)
Inductive content : Type :=
| NpyFile (a : ndarray)
| JsonFile (j : json).

(** The disk: what each path holds, if anything. *)
Definition t : Type := string -> option content.

Definition empty : t := fun _ => None.

(** What a path holds once [c] has been written to it. *)
Definition put (path : string) (c : content) (disk : t) : t :=
  fun p => if (p =? path)%string then Some c else disk p.

(** [np.save(path, a)] and [json.dump(j, open(path, "w"))]: the path is
    opened for writing, which fails when its directory is missing or the
    path cannot be written; [cannot_open path] is the exception the opening
    raises, [None] when the path opens.  A path that opens holds the content
    afterwards, a path that does not is left as it was. *)
Definition write (cannot_open : string -> option exn) (path : string)
    (c : content) (disk : t) : t * result unit :=
  match cannot_open path with
  | Some e => (disk, Raise e)
  | None => (put path c disk, Ok tt)
  end.

(** The array [np.load] finds at a path; [None] when the path holds no
    array. *)
Definition npy_at (disk : t) (path : string) : option ndarray :=
  match disk path with
  | Some (NpyFile a) => Some a
  | _ => None
  end.

(** The value [json.load] finds at a path; [None] when the path holds no
    JSON value. *)
Definition json_at (disk : t) (path : string) : option json :=
  match disk path with
  | Some (JsonFile j) => Some j
  | _ => None
  end.

End Disk.

(** [s.replace(old, new)] for a non-empty [old]: the occurrences of [old]
    are replaced from the left, and the search goes on behind each one.
    [skip] counts the characters of an occurrence still to pass over. *)
Fixpoint replace_from (old new : string) (skip : nat) (s : string) : string :=
  match s with
  | EmptyString => EmptyString
  | String c s' =>
      match skip with
      | S k => replace_from old new k s'
      | 0 =>
          if String.prefix old s
          then (new ++ replace_from old new (String.length old - 1) s')%string
          else String c (replace_from old new 0 s')
      end
  end.

Definition replace (old new s : string) : string := replace_from old new 0 s.

(** What [json.dump] writes for one entry of the aligner's result. *)
Definition entry_json (e : entry) : json :=
  match e with
  | Labels l =>
      JList (map (fun v => match v with
                           | PyNone => JNull
                           | PyStr s => JStr s
                           end) l)
  | Vector v => JList (map JFloat v)
  end.

(** [timestamps[i].tolist()] *)
Definition tolist (ts : list float) : json := JList (map JFloat ts).

Section Persister.

(** [str(outdir.joinpath(name))] for the directory of the split. *)
Variable joinpath : string -> string.

(** The exception that opening a path for writing raises, [None] when the
    path opens. *)
Variable cannot_open : string -> option exn.

(** [save_timestamp_embedding_and_labels]: the loop over the file names,
    from position [i] on.  The rows of [timestamps] are one-dimensional by
    their type, so the assertion on their shape holds.  What was written
    before an exception stays on the disk. *)
Fixpoint save_timestamp_from (embeddings : list ndarray)
    (timestamps : list (list float)) (labels : list (list entry)) (i : nat)
    (filename : list string) (disk : Disk.t) : Disk.t * result unit :=
  match filename with
  | [] => (disk, Ok tt)
  | file :: rest =>
      let out_file := joinpath file in
      match index embeddings i with
      | Raise e => (disk, Raise e)
      | Ok emb =>
          match Disk.write cannot_open (out_file ++ ".embedding.npy")
                           (Disk.NpyFile emb) disk with
          | (disk, Raise e) => (disk, Raise e)
          | (disk, Ok _) =>
              match index timestamps i with
              | Raise e => (disk, Raise e)
              | Ok ts =>
                  match Disk.write cannot_open (out_file ++ ".timestamps.json")
                                   (Disk.JsonFile (tolist ts)) disk with
                  | (disk, Raise e) => (disk, Raise e)
                  | (disk, Ok _) =>
                      match index labels i with
                      | Raise e => (disk, Raise e)
                      | Ok row =>
                          match Disk.write cannot_open
                                  (out_file ++ ".target-labels.json")
                                  (Disk.JsonFile (JList (map entry_json row)))
                                  disk with
                          | (disk, Raise e) => (disk, Raise e)
                          | (disk, Ok _) =>
                              save_timestamp_from embeddings timestamps labels
                                                  (S i) rest disk
                          end
                      end
                  end
              end
          end
      end
  end.

Definition save_timestamp_embedding_and_labels (embeddings : list ndarray)
    (timestamps : list (list float)) (labels : list (list entry))
    (filename : list string) (disk : Disk.t) : Disk.t * result unit :=
  save_timestamp_from embeddings timestamps labels 0 filename disk.



(** What [memmap_embeddings] finds on the disk for the key [f] of
    [split_data]: the embedding file is [outdir.joinpath(f"{f}.embedding.npy")],
    the other two paths and the slug come from it by [str.replace]. *)
Definition artifacts (disk : Disk.t) (f : string) : File :=
  let embedding_file := joinpath (f ++ ".embedding.npy")%string in
  mkFile (replace ".embedding.npy" "" embedding_file)
         (Disk.npy_at disk embedding_file)
         (Disk.json_at disk
            (replace "embedding.npy" "target-labels.json" embedding_file))
         (Disk.json_at disk
            (replace "embedding.npy" "timestamps.json" embedding_file)).

End Persister.

(** The characters of [s] from position [n] on. *)
Fixpoint string_drop (n : nat) (s : string) : string :=
  match n, s with
  | 0, _ => s
  | S k, EmptyString => EmptyString
  | S k, String _ s' => string_drop k s'
  end.

(** [old] occurs in [s] at a position before [n]. *)
Definition occurs_before (old s : string) (n : nat) : Prop :=
  exists i, i < n /\ String.prefix old (string_drop i s) = true.

(** A name the two path schemes agree on: joining the name with its suffix
    is suffixing the joined name, and "embedding.npy" occurs in the
    embedding file's path at its end only. *)
Definition plain_name (joinpath : string -> string) (f : string) : Prop :=
  joinpath (f ++ ".embedding.npy")%string
  = (joinpath f ++ ".embedding.npy")%string
  /\ ~ occurs_before "embedding.npy"
         (joinpath f ++ ".embedding.npy")%string
         (S (String.length (joinpath f))).

(** ** The dataset runner and the DCASE 2016 task 2 script *)

Module Call.

(** The parameters of a [def]: each name with its default, when it has
    one. *)
Definition signature : Type := list (string * option json).

(** [d.get(k)] on the pairs of a call. *)
Fixpoint lookup (k : string) (d : list (string * json)) : option json :=
  match d with
  | [] => None
  | (k', v) :: d' => if (k =? k')%string then Some v else lookup k d'
  end.

(** A call that passes keyword arguments only: a keyword that names no
    parameter is a [TypeError], and so is a parameter without a default that
    no keyword names.  The result binds every parameter. *)
Definition bind_arguments (sig : signature) (kwargs : list (string * json))
  : result (list (string * json)) :=
  if forallb (fun kw => existsb (String.eqb (fst kw)) (map fst sig)) kwargs
  then
    for_each (fun p =>
                match lookup (fst p) kwargs with
                | Some v => Ok (fst p, v)
                | None =>
                    match snd p with
                    | Some dflt => Ok (fst p, dflt)
                    | None => Raise TypeError
                    end
                end) sig
  else Raise TypeError.

(** The value of a bound parameter. *)
Definition value (name : string) (args : list (string * json)) : json :=
  match lookup name args with
  | Some v => v
  | None => JNull
  end.

(** [if x:] *)
Definition truthy (x : json) : bool :=
  match x with
  | JNull => false
  | JBool b => b
  | JInt n => negb (n =? 0)%Z
  | JFloat x => negb (x =? 0)%float
  | JStr s => negb (s =? "")%string
  | JList l => negb (match l with [] => true | _ => false end)
  | JDict d => negb (match d with [] => true | _ => false end)
  end.

End Call.

Module Dcase.

Record Download : Type := mkDownload {
  name : string;
  url : string;
  md5 : string
}.

Record Split : Type := mkSplit {
  split_name : string;
  max_files : nat
}.

(** The value of the key "small": the keys a small run overrides. *)
Record Small : Type := mkSmall {
  small_download_urls : list Download;
  small_version : string;
  small_splits : list Split
}.

(** The module's [config] dict, a field per key; "luigi_dir" is the key
    [main] adds. *)
Record Config : Type := mkConfig {
  task_name : string;
  version : string;
  embedding_type : string;
  prediction_type : string;
  download_urls : list Download;
  sample_duration : float;
  splits : list Split;
  small : Small;
  evaluation : list string;
  luigi_dir : option json
}.

Definition config : Config :=
  mkConfig "dcase2016_task2" "hear2021" "event" "multilabel"
    [mkDownload "train"
       "https://archive.org/download/dcase2016_task2_train_dev/dcase2016_task2_train_dev.zip"
       "4e1b5e8887159193e8624dec801eb9e7";
     mkDownload "test"
       "https://archive.org/download/dcase2016_task2_test_public/dcase2016_task2_test_public.zip"
       "ac98768b39a08fc0c6c2ddd15a981dd7"]
    120
    [mkSplit "train" 10; mkSplit "test" 10; mkSplit "valid" 2]
    (mkSmall
       [mkDownload "train"
          "https://github.com/turian/hear2021-open-tasks-downsampled/raw/main/dcase2016_task2_train_dev-small.zip"
          "aa9b43c40e9d496163caab83becf972e";
        mkDownload "test"
          "https://github.com/turian/hear2021-open-tasks-downsampled/raw/main/dcase2016_task2_test_public-small.zip"
          "14539d85dec03cb7ac75eb62dd1dd21e"]
       "hear2021-small"
       [mkSplit "train" 100; mkSplit "test" 100; mkSplit "valid" 100])
    ["onset_only_event_based"; "segment_based"]
    None.

(** [config.update(dict(config["small"]))] *)
Definition update_small (c : Config) : Config :=
  mkConfig (task_name c) (small_version (small c)) (embedding_type c)
    (prediction_type c) (small_download_urls (small c)) (sample_duration c)
    (small_splits (small c)) (small c) (evaluation c) (luigi_dir c).

(** [config.update({"luigi_dir": luigi_dir})] *)
Definition update_luigi_dir (dir : json) (c : Config) : Config :=
  mkConfig (task_name c) (version c) (embedding_type c) (prediction_type c)
    (download_urls c) (sample_duration c) (splits c) (small c)
    (evaluation c) (Some dir).

(** [sound_file] of [get_split_metadata]: the path of the recording an
    annotation file belongs to. *)
Definition sound_file (annotation_file : string) : string :=
  replace ".txt" ".wav" (replace "annotation" "sound" annotation_file).

Definition main_signature : Call.signature :=
  [("num_workers", None); ("sample_rates", None); ("luigi_dir", None);
   ("tasks_dir", None); ("small", Some (JBool false))]%string.

Section Main.

(** What [main] does with [heareval.tasks.pipeline] once the configuration
    is set: it builds the tasks from the configuration and the arguments and
    runs them. *)
Variable pipeline : Config -> list (string * json) -> result json.

(** [main], called with keyword arguments, on the module's [config]. *)
Definition main (kwargs : list (string * json)) (c : Config)
  : Config * result json :=
  match Call.bind_arguments main_signature kwargs with
  | Raise e => (c, Raise e)
  | Ok args =>
      let c := if Call.truthy (Call.value "small" args)
               then update_small c else c in
      let c := update_luigi_dir (Call.value "luigi_dir" args) c in
      (c, pipeline c args ;;; Ok JNull)
  end.

End Main.

End Dcase.

Module Runner.

Inductive task_script : Set :=
| speech_commands
| nsynth_pitch
| dcase2016_task2.

Definition tasks : list (string * list task_script) :=
  [("speech_commands", [speech_commands]);
   ("nsynth_pitch", [nsynth_pitch]);
   ("dcase2016_task2", [dcase2016_task2]);
   ("all", [speech_commands; nsynth_pitch; dcase2016_task2])]%string.

(** [tasks[task]] *)
Fixpoint tasks_getitem (task : string)
    (d : list (string * list task_script)) : result (list task_script) :=
  match d with
  | [] => Raise KeyError
  | (k, v) :: d' => if (task =? k)%string then Ok v else tasks_getitem task d'
  end.

Section Run.

(** [multiprocessing.cpu_count()] *)
Variable cpu_count : Z.

(** The [main] functions of the two task scripts outside these sources. *)
Variable speech_commands_main : list (string * json) -> result json.
Variable nsynth_pitch_main : list (string * json) -> result json.

(** The pipeline behind the DCASE script, and [pipeline.run]. *)
Variable dcase_pipeline : Dcase.Config -> list (string * json) -> result json.
Variable pipeline_run : list json -> Z -> result unit.

(** [task_script.main(...)] *)
Definition call_main (script : task_script) (kwargs : list (string * json))
    (c : Dcase.Config) : Dcase.Config * result json :=
  match script with
  | speech_commands => (c, speech_commands_main kwargs)
  | nsynth_pitch => (c, nsynth_pitch_main kwargs)
  | dcase2016_task2 => Dcase.main dcase_pipeline kwargs c
  end.

(** The list comprehension of [run]. *)
Fixpoint tasks_to_run (scripts : list task_script)
    (kwargs : list (string * json)) (c : Dcase.Config)
  : Dcase.Config * result (list json) :=
  match scripts with
  | [] => (c, Ok [])
  | script :: rest =>
      match call_main script kwargs c with
      | (c, Raise e) => (c, Raise e)
      | (c, Ok t) =>
          match tasks_to_run rest kwargs c with
          | (c, Raise e) => (c, Raise e)
          | (c, Ok ts) => (c, Ok (t :: ts))
          end
      end
  end.

(** [None] or a string, as an argument. *)
Definition optional_str (s : option string) : json :=
  match s with
  | Some s => JStr s
  | None => JNull
  end.

(** [run], on the DCASE module's [config]. *)
Definition run (task : string) (num_workers sample_rate : option Z)
    (tmp_dir tasks_dir : option string) (small : bool) (c : Dcase.Config)
  : Dcase.Config * result unit :=
  let num_workers :=
    match num_workers with
    | None => cpu_count
    | Some n => n
    end in
  let sample_rates :=
    match sample_rate with
    | None => [16000; 22050; 44100; 48000]%Z
    | Some r => [r]
    end in
  match tasks_getitem task tasks with
  | Raise e => (c, Raise e)
  | Ok scripts =>
      let kwargs :=
        [("sample_rates", JList (map JInt sample_rates));
         ("tmp_dir", optional_str tmp_dir);
         ("tasks_dir", optional_str tasks_dir);
         ("small", JBool small)]%string in
      match tasks_to_run scripts kwargs c with
      | (c, Raise e) => (c, Raise e)
      | (c, Ok ts) => (c, pipeline_run ts num_workers)
      end
  end.

End Run.

End Runner.

(** The endings of the files the persister writes. *)
Definition artifact_suffixes : list string :=
  [".embedding.npy"; ".timestamps.json"; ".target-labels.json"]%string.

(** Every artifact path of the names opens for writing. *)
Definition writable (joinpath : string -> string)
    (cannot_open : string -> option exn) (names : list string) : Prop :=
  forall f s, In f names -> In s artifact_suffixes ->
    cannot_open (joinpath f ++ s)%string = None.

(** [old] occurs in [s] at position [i]. *)
Definition occurs_at (old s : string) (i : nat) : Prop :=
  String.prefix old (string_drop i s) = true.

(** The keys of the configuration other than "luigi_dir". *)
Definition forget_luigi_dir (c : Dcase.Config) : Dcase.Config :=
  Dcase.mkConfig (Dcase.task_name c) (Dcase.version c)
    (Dcase.embedding_type c) (Dcase.prediction_type c)
    (Dcase.download_urls c) (Dcase.sample_duration c) (Dcase.splits c)
    (Dcase.small c) (Dcase.evaluation c) None.

(** The module's [config] after a sequence of calls of [main], each with its
    keyword arguments. *)
Definition after_calls
    (pipeline : Dcase.Config -> list (string * json) -> result json)
    (calls : list (list (string * json))) (c : Dcase.Config) : Dcase.Config :=
  fold_left (fun c kwargs => fst (Dcase.main pipeline kwargs c)) calls c.

(** The call binds its arguments and its [small] is true. *)
Definition asks_small (kwargs : list (string * json)) : bool :=
  match Call.bind_arguments Dcase.main_signature kwargs with
  | Ok args => Call.truthy (Call.value "small" args)
  | Raise _ => false
  end.

(** ** Inputs of the further instances *)

(** [int] on strings of decimal digits. *)
Definition digit_of (c : Ascii.ascii) : option Z :=
  let n := Ascii.nat_of_ascii c in
  if (48 <=? n) && (n <=? 57) then Some (Z.of_nat (n - 48)) else None.

Fixpoint digits_from (acc : Z) (s : string) : result Z :=
  match s with
  | EmptyString => Ok acc
  | String c s' =>
      match digit_of c with
      | Some d => digits_from (10 * acc + d)%Z s'
      | None => Raise ValueError
      end
  end.

Definition int_of_digits (s : string) : result Z :=
  match s with
  | EmptyString => Raise ValueError
  | _ => digits_from 0%Z s
  end.

(** [outdir.joinpath] for the directory [embeddings/dcase/train]. *)
Definition under_train (name : string) : string :=
  ("embeddings/dcase/train/" ++ name)%string.

(** A disk on which the directory [embeddings/dcase/train] is there and has
    no subdirectory: a path opens for writing when it names a file of that
    directory, and opening any other path is a [FileNotFoundError]. *)
Definition train_directory_only (path : string) : option exn :=
  if String.prefix "embeddings/dcase/train/" path
     && negb (Vocabulary.occurs (Ascii.ascii_of_nat 47) (string_drop 23 path))
  then None else Some FileNotFoundError.

(** * Properties *)

(** ** The order of binary64 numbers *)

Lemma digits2_bound (m : positive) :
  (Zpos m < 2 ^ Zpos (SpecFloat.digits2_pos m))%Z.
Proof.
  induction m as [m IH | m IH |]; simpl SpecFloat.digits2_pos.
  - rewrite Pos2Z.inj_succ, Z.pow_succ_r by lia. lia.
  - rewrite Pos2Z.inj_succ, Z.pow_succ_r by lia. lia.
  - reflexivity.
Qed.

Lemma finite_bounds (x : float) (s : bool) (m : positive) (e : Z) :
  Prim2SF x = S754_finite s m e ->
  (- 1074 <= e <= 971 /\ Zpos m < 2 ^ 53)%Z.
Proof.
  intros Hx. pose proof (Prim2SF_valid x) as Hv. rewrite Hx in Hv.
  unfold SpecFloat.valid_binary, SpecFloat.bounded, SpecFloat.canonical_mantissa,
    SpecFloat.fexp, SpecFloat.emin in Hv.
  apply andb_true_iff in Hv. destruct Hv as [Hc He].
  apply Z.eqb_eq in Hc. apply Z.leb_le in He.
  change prec with 53%Z in *. change emax with 1024%Z in *.
  pose proof (digits2_bound m) as Hd.
  assert (Hle : (Zpos (SpecFloat.digits2_pos m) <= 53)%Z) by lia.
  split; [lia|].
  eapply Z.lt_le_trans; [exact Hd|].
  apply Z.pow_le_mono_r; lia.
Qed.

Lemma number_spec (x : float) : number x <-> Prim2SF x <> S754_nan.
Proof.
  unfold number. rewrite eqb_spec. unfold SFeqb.
  destruct (Prim2SF x) as [s | s | | s m e] eqn:Hx.
  - split; [discriminate | reflexivity].
  - destruct s; (split; [discriminate | reflexivity]).
  - split; [discriminate | congruence].
  - assert (H : SFcompare (S754_finite s m e) (S754_finite s m e) = Some Eq).
    { simpl. rewrite Z.compare_refl.
      assert (Hm : Pos.compare_cont Eq m m = Eq) by apply Pos.compare_refl.
      destruct s; rewrite ?Hm; reflexivity. }
    rewrite H. split; [discriminate | reflexivity].
Qed.

Ltac zcmp :=
  f_equal; symmetry;
  first [ apply Z.compare_gt_iff; nia | apply Z.compare_lt_iff; nia ].

Lemma compare_order_key (x y : float) :
  number x -> number y ->
  SFcompare (Prim2SF x) (Prim2SF y) = Some (order_key x ?= order_key y)%Z.
Proof.
  rewrite !number_spec. unfold order_key. intros Hx Hy.
  destruct (Prim2SF x) as [s | s | | s m e] eqn:Ex;
    destruct (Prim2SF y) as [s' | s' | | s' m' e'] eqn:Ey;
    try congruence;
    try (pose proof (finite_bounds x _ _ _ Ex) as [Hb Hm]);
    try (pose proof (finite_bounds y _ _ _ Ey) as [Hb' Hm']);
    change (2 ^ 53)%Z with 9007199254740992%Z in *.
  - reflexivity.
  - destruct s'; reflexivity.
  - cbv beta iota delta [SFcompare]. destruct s'; zcmp.
  - destruct s; reflexivity.
  - destruct s, s'; reflexivity.
  - cbv beta iota delta [SFcompare]. destruct s, s'; zcmp.
  - cbv beta iota delta [SFcompare]. destruct s; zcmp.
  - cbv beta iota delta [SFcompare]. destruct s, s'; zcmp.
  - cbv beta iota delta [SFcompare].
    change (Pos.compare_cont Eq m m') with (Pos.compare m m').
    destruct s, s'; try zcmp.
    + destruct (Z.compare_spec e e') as [He | He | He]; try zcmp.
      subst e'. rewrite <- Pos.compare_antisym.
      destruct (Pos.compare_spec m' m) as [Hc | Hc | Hc]; try zcmp.
      subst. symmetry. f_equal. apply Z.compare_eq_iff. reflexivity.
    + destruct (Z.compare_spec e e') as [He | He | He]; try zcmp.
      subst e'.
      destruct (Pos.compare_spec m m') as [Hc | Hc | Hc]; try zcmp.
      subst. symmetry. f_equal. apply Z.compare_eq_iff. reflexivity.
Qed.

Lemma compare_nan_l (x y : float) :
  ~ number x -> SFcompare (Prim2SF x) (Prim2SF y) = None.
Proof.
  rewrite number_spec. intros Hx.
  destruct (Prim2SF x); try (exfalso; apply Hx; discriminate). reflexivity.
Qed.

Lemma compare_nan_r (x y : float) :
  ~ number y -> SFcompare (Prim2SF x) (Prim2SF y) = None.
Proof.
  rewrite number_spec. intros Hy.
  destruct (Prim2SF y); try (exfalso; apply Hy; discriminate).
  destruct (Prim2SF x) as [|[]| |]; reflexivity.
Qed.

Lemma number_dec (x : float) : number x \/ ~ number x.
Proof. unfold number. destruct (x =? x)%float; [left | right]; congruence. Qed.

Lemma ltb_iff (x y : float) :
  (x <? y)%float = true <-> number x /\ number y /\ (order_key x < order_key y)%Z.
Proof.
  rewrite ltb_spec. unfold SFltb.
  destruct (number_dec x) as [Hx | Hx]; [destruct (number_dec y) as [Hy | Hy]|].
  - rewrite (compare_order_key x y Hx Hy).
    destruct (Z.compare_spec (order_key x) (order_key y)); split; intros H';
      try discriminate; try reflexivity;
      try (repeat split; (assumption || lia)); exfalso; lia.
  - rewrite (compare_nan_r x y Hy). split; [discriminate | tauto].
  - rewrite (compare_nan_l x y Hx). split; [discriminate | tauto].
Qed.

Lemma leb_iff (x y : float) :
  (x <=? y)%float = true <-> number x /\ number y /\ (order_key x <= order_key y)%Z.
Proof.
  rewrite leb_spec. unfold SFleb.
  destruct (number_dec x) as [Hx | Hx]; [destruct (number_dec y) as [Hy | Hy]|].
  - rewrite (compare_order_key x y Hx Hy).
    destruct (Z.compare_spec (order_key x) (order_key y)); split; intros H';
      try discriminate; try reflexivity;
      try (repeat split; (assumption || lia)); exfalso; lia.
  - rewrite (compare_nan_r x y Hy). split; [discriminate | tauto].
  - rewrite (compare_nan_l x y Hx). split; [discriminate | tauto].
Qed.

Lemma eqb_iff (x y : float) :
  (x =? y)%float = true <-> number x /\ number y /\ order_key x = order_key y.
Proof.
  rewrite eqb_spec. unfold SFeqb.
  destruct (number_dec x) as [Hx | Hx]; [destruct (number_dec y) as [Hy | Hy]|].
  - rewrite (compare_order_key x y Hx Hy).
    destruct (Z.compare_spec (order_key x) (order_key y)); split; intros H';
      try discriminate; try reflexivity;
      try (repeat split; (assumption || lia)); exfalso; lia.
  - rewrite (compare_nan_r x y Hy). split; [discriminate | tauto].
  - rewrite (compare_nan_l x y Hx). split; [discriminate | tauto].
Qed.

Lemma false_iff (b : bool) : b = false <-> ~ b = true.
Proof. destruct b; split; congruence. Qed.

Lemma ltb_false_iff (x y : float) :
  (x <? y)%float = false <-> ~ (number x /\ number y /\ (order_key x < order_key y)%Z).
Proof. rewrite false_iff, ltb_iff. reflexivity. Qed.

Lemma leb_false_iff (x y : float) :
  (x <=? y)%float = false <-> ~ (number x /\ number y /\ (order_key x <= order_key y)%Z).
Proof. rewrite false_iff, leb_iff. reflexivity. Qed.

Lemma eqb_false_iff (x y : float) :
  (x =? y)%float = false <-> ~ (number x /\ number y /\ order_key x = order_key y).
Proof. rewrite false_iff, eqb_iff. reflexivity. Qed.

Lemma leb_trans (x y z : float) :
  (x <=? y)%float = true -> (y <=? z)%float = true -> (x <=? z)%float = true.
Proof. rewrite !leb_iff. intuition lia. Qed.

Lemma leb_ltb_trans (x y z : float) :
  (x <=? y)%float = true -> (y <? z)%float = true -> (x <? z)%float = true.
Proof. rewrite !leb_iff, !ltb_iff. intuition lia. Qed.

Lemma ltb_leb_trans (x y z : float) :
  (x <? y)%float = true -> (y <=? z)%float = true -> (x <? z)%float = true.
Proof. rewrite !leb_iff, !ltb_iff. intuition lia. Qed.

Lemma ltb_leb (x y : float) :
  (x <? y)%float = true -> (x <=? y)%float = true.
Proof. rewrite !leb_iff, !ltb_iff. intuition lia. Qed.

Lemma ltb_false_leb (x y : float) :
  number x -> number y -> (x <? y)%float = false -> (y <=? x)%float = true.
Proof. rewrite ltb_false_iff, leb_iff. intuition lia. Qed.

Lemma leb_not_ltb (x y : float) :
  (x <=? y)%float = true -> (y <? x)%float = true -> False.
Proof. rewrite leb_iff, ltb_iff. intuition lia. Qed.

Lemma leb_number_l (x y : float) : (x <=? y)%float = true -> number x.
Proof. rewrite leb_iff. tauto. Qed.

Lemma leb_number_r (x y : float) : (x <=? y)%float = true -> number y.
Proof. rewrite leb_iff. tauto. Qed.

Lemma ltb_number_l (x y : float) : (x <? y)%float = true -> number x.
Proof. rewrite ltb_iff. tauto. Qed.

Lemma ltb_number_r (x y : float) : (x <? y)%float = true -> number y.
Proof. rewrite ltb_iff. tauto. Qed.

Lemma eqb_number_l (x y : float) : (x =? y)%float = true -> number x.
Proof. rewrite eqb_iff. tauto. Qed.

Lemma leb_refl (x : float) : number x -> (x <=? x)%float = true.
Proof. rewrite leb_iff. intuition lia. Qed.

(** Numpy's order is [<] when the right side is a number. *)
Lemma less_number (x v : float) : number v -> Np.less x v = (x <? v)%float.
Proof.
  unfold Np.less, number. intros ->. simpl. apply orb_false_r.
Qed.

Ltac float_order :=
  rewrite ?ltb_false_iff, ?leb_false_iff, ?eqb_false_iff,
    ?ltb_iff, ?leb_iff, ?eqb_iff in *.


(** ** Quotients, products and sums of binary64 numbers *)

Lemma div_eucl_shift (m : positive) :
  Z.div_eucl (Z.shiftl (Zpos m) 53) (Zpos m) = (2 ^ 53, 0)%Z.
Proof.
  rewrite Z.shiftl_mul_pow2 by lia.
  pose proof (Z.div_eucl_eq (Z.pos m * 2 ^ 53) (Z.pos m) ltac:(lia)) as H.
  pose proof (Z.mod_pos_bound (Z.pos m * 2 ^ 53) (Z.pos m) ltac:(lia)) as Hb.
  unfold Z.modulo in Hb.
  destruct (Z.div_eucl (Z.pos m * 2 ^ 53) (Z.pos m)) as [q r].
  assert (r = 0 /\ q = 2 ^ 53)%Z as [-> ->]; [|reflexivity].
  assert (Hr : (r = Z.pos m * (2 ^ 53 - q))%Z) by lia.
  assert (Hq : (2 ^ 53 - q = 0)%Z) by nia.
  split; nia.
Qed.

Lemma div_same (d : float) : finite_nonzero d -> (d / d)%float = 1%float.
Proof.
  unfold finite_nonzero. intros Hd. apply Prim2SF_inj.
  rewrite div_spec.
  destruct (Prim2SF d) as [s | s | | s m e] eqn:E; try contradiction.
  unfold SF64div, SFdiv, SFdiv_core_binary.
  replace (Z.min _ _) with (-53)%Z.
  2:{ unfold fexp, SpecFloat.emin. change prec with 53%Z. change emax with 1024%Z.
      replace (Zdigits2 (Z.pos m) + e - (Zdigits2 (Z.pos m) + e))%Z with 0%Z by lia.
      replace (e - e)%Z with 0%Z by lia. reflexivity. }
  replace (e - e - -53)%Z with 53%Z by lia.
  rewrite div_eucl_shift.
  replace (xorb s s) with false by (destruct s; reflexivity).
  assert (Hloc : new_location (Z.pos m) 0 = loc_Exact).
  { unfold new_location, new_location_even, new_location_odd.
    destruct (Z.even (Z.pos m)); reflexivity. }
  rewrite Hloc. reflexivity.
Qed.

Lemma one_spec : Prim2SF 1%float = S754_finite false 4503599627370496 (-52).
Proof. reflexivity. Qed.

Lemma digits_shift52 (m : positive) :
  Z.pos (digits2_pos (4503599627370496 * m))
  = (Z.pos (digits2_pos m) + 52)%Z.
Proof.
  cbn [Pos.mul digits2_pos]. rewrite !Pos2Z.inj_succ. lia.
Qed.

Lemma shr_shift52 (m : positive) :
  iter_pos shr_1 52
    (Build_shr_record (Z.pos (4503599627370496 * m)) false false)
  = Build_shr_record (Z.pos m) false false.
Proof. reflexivity. Qed.

Lemma mul_one_l (y : float) : (1 * y)%float = y.
Proof.
  apply Prim2SF_inj. rewrite mul_spec, one_spec.
  pose proof (Prim2SF_valid y) as Hv.
  destruct (Prim2SF y) as [s | s | | s m e] eqn:E; try reflexivity.
  unfold SF64mul, SFmul. cbn [xorb].
  unfold valid_binary, bounded, canonical_mantissa in Hv.
  apply andb_true_iff in Hv. destruct Hv as [Hc He].
  apply Z.eqb_eq in Hc.
  unfold binary_round_aux.
  assert (H1 : shr_fexp prec emax (Z.pos (4503599627370496 * m)) (-52 + e)
                 loc_Exact
               = (Build_shr_record (Z.pos m) false false, e)).
  { unfold shr_fexp. unfold Zdigits2. rewrite digits_shift52.
    replace (Z.pos (digits2_pos m) + 52 + (-52 + e))%Z
      with (Z.pos (digits2_pos m) + e)%Z by lia.
    rewrite Hc. replace (e - (-52 + e))%Z with 52%Z by lia.
    unfold shr, shr_record_of_loc. rewrite shr_shift52.
    f_equal. lia. }
  rewrite H1. cbn [shr_m loc_of_shr_record round_nearest_even].
  assert (H2 : shr_fexp prec emax (Z.pos m) e loc_Exact
               = (Build_shr_record (Z.pos m) false false, e)).
  { unfold shr_fexp, Zdigits2. rewrite Hc.
    replace (e - e)%Z with 0%Z by lia. reflexivity. }
  rewrite H2. cbn [shr_m]. rewrite He. reflexivity.
Qed.

Lemma zero_spec : Prim2SF 0%float = S754_zero false.
Proof. reflexivity. Qed.

(** The term [(1 - alpha) * x + alpha * y] at [alpha = 1]. *)
Lemma weighted_at_one (x y : float) :
  finite x -> number y -> ((1 - 1) * x + 1 * y =? y)%float = true.
Proof.
  unfold finite, number. intros Hx Hy.
  change (1 - 1)%float with 0%float. rewrite mul_one_l.
  rewrite eqb_spec in *. rewrite add_spec, mul_spec, zero_spec.
  destruct (Prim2SF x) as [s | s | | s m e]; try contradiction;
    destruct (Prim2SF y) as [s' | s' | | s' m' e'] eqn:E;
    try discriminate; try exact Hy;
    cbn [SF64mul SFmul SF64add SFadd xorb];
    try exact Hy;
    destruct s, s'; reflexivity.
Qed.

(** [t == o] makes [t - lower] and [o - lower] one number when [lower] is
    less than [o]. *)
Lemma sub_eqb_l (t o lower : float) :
  (t =? o)%float = true -> (lower <? o)%float = true ->
  (t - lower)%float = (o - lower)%float.
Proof.
  rewrite eqb_spec, ltb_spec. intros Ht Hl.
  apply Prim2SF_inj. rewrite !sub_spec.
  unfold SFeqb in Ht. unfold SFltb in Hl.
  destruct (Prim2SF t) as [s | s | | s m e] eqn:Et;
    destruct (Prim2SF o) as [s' | s' | | s' m' e'] eqn:Eo;
    cbn [SFcompare] in Ht;
    try discriminate Ht;
    try (destruct s; discriminate Ht);
    try (destruct s'; discriminate Ht).
  - destruct (Prim2SF lower) as [s'' | s'' | | s'' m'' e''];
      cbn [SFcompare] in Hl; try discriminate Hl; reflexivity.
  - destruct s, s'; try discriminate Ht; reflexivity.
  - assert (Heq : S754_finite s m e = S754_finite s' m' e').
    { destruct s, s'; try discriminate Ht.
      - destruct (Z.compare_spec e e'); try discriminate Ht. subst.
        destruct (Pos.compare_cont Eq m m') eqn:C; try discriminate Ht.
        apply Pos.compare_eq in C. subst. reflexivity.
      - destruct (Z.compare_spec e e'); try discriminate Ht. subst.
        destruct (Pos.compare_cont Eq m m') eqn:C; try discriminate Ht.
        apply Pos.compare_eq in C. subst. reflexivity. }
    rewrite Heq. reflexivity.
Qed.

(** ** Loops that stop at the first exception *)

Section ForEachFacts.

Context {A B : Type} (body : A -> result B).

Lemma for_each_cons_ok (a : A) (l : list A) (b : B) (bs : list B) :
  body a = Ok b -> for_each body l = Ok bs ->
  for_each body (a :: l) = Ok (b :: bs).
Proof.
  intros Ha Hl. simpl. rewrite Ha. simpl. rewrite Hl. reflexivity.
Qed.

Lemma for_each_cons_inv (a : A) (l : list A) (out : list B) :
  for_each body (a :: l) = Ok out ->
  exists b bs, body a = Ok b /\ for_each body l = Ok bs /\ out = b :: bs.
Proof.
  simpl. destruct (body a) as [b|e]; simpl; [|discriminate].
  destruct (for_each body l) as [bs|e]; simpl; [|discriminate].
  intros H. injection H as <-. exists b, bs. auto.
Qed.

Lemma for_each_length (l : list A) (out : list B) :
  for_each body l = Ok out -> length out = length l.
Proof.
  revert out. induction l as [|a l IH]; intros out H.
  - injection H as <-. reflexivity.
  - apply for_each_cons_inv in H as (b & bs & _ & Hl & ->).
    simpl. f_equal. auto.
Qed.

Lemma for_each_nth (l : list A) (out : list B) :
  for_each body l = Ok out ->
  forall i a, nth_error l i = Some a ->
  exists b, nth_error out i = Some b /\ body a = Ok b.
Proof.
  revert out. induction l as [|a0 l IH]; intros out H i a Hi.
  - destruct i; discriminate.
  - apply for_each_cons_inv in H as (b & bs & Hb & Hl & ->).
    destruct i as [|i]; simpl in *.
    + injection Hi as <-. eauto.
    + eauto.
Qed.

Lemma for_each_total (l : list A) :
  (forall a, In a l -> exists b, body a = Ok b) ->
  exists out, for_each body l = Ok out.
Proof.
  induction l as [|a l IH]; intros H.
  - exists []. reflexivity.
  - destruct (H a (or_introl eq_refl)) as [b Hb].
    destruct IH as [bs Hbs]; [intros; apply H; right; assumption|].
    exists (b :: bs). apply for_each_cons_ok; assumption.
Qed.

Lemma for_each_raises (l : list A) (a : A) (e : exn) :
  In a l -> body a = Raise e -> exists e', for_each body l = Raise e'.
Proof.
  induction l as [|a0 l IH]; intros Hin Ha; [contradiction|].
  simpl. destruct (body a0) as [b|e0] eqn:E0; simpl; [|eauto].
  destruct Hin as [->|Hin]; [congruence|].
  destruct (IH Hin Ha) as [e' ->]. simpl. eauto.
Qed.

End ForEachFacts.

Lemma nth_error_combine {A B : Type} (l : list A) (l' : list B) i a b :
  nth_error l i = Some a -> nth_error l' i = Some b ->
  nth_error (combine l l') i = Some (a, b).
Proof.
  revert l' i. induction l as [|x l IH]; intros [|y l'] [|i] Ha Hb;
    simpl in *; try discriminate.
  - congruence.
  - auto.
Qed.

Lemma combine_length_eq {A B : Type} (l : list A) (l' : list B) :
  length l = length l' -> length (combine l l') = length l'.
Proof.
  intros H. rewrite length_combine. lia.
Qed.

(** ** The dispatch on the policy name *)

Section Dispatch.

Variable set_iter : list Interval -> list Interval.

(** Whatever the policy, a result has one sequence per clip: the assertion
    that closes the function cannot fail. *)
Lemma get_labels_unfold labels timestamps mode to_onehot default_label body :
  length labels = length timestamps ->
  ((mode =? "default")%string = true /\
     body = default_clip set_iter to_onehot default_label) \/
  ((mode =? "default")%string = false /\ (mode =? "smoothed")%string = true /\
     body = smoothed_clip) \/
  ((mode =? "default")%string = false /\ (mode =? "smoothed")%string = false
     /\ (mode =? "continuous")%string = true /\ body = continuous_clip) ->
  get_labels_for_timestamps set_iter labels timestamps mode to_onehot
    default_label
  = for_each body (combine labels timestamps).
Proof.
  intros Hlen Hmode. unfold get_labels_for_timestamps.
  rewrite Hlen, Nat.eqb_refl. simpl.
  assert (Hgen : forall r : result (list (list entry)),
             r = for_each body (combine labels timestamps) ->
             (timestamp_labels <- r ;;
              assert (length timestamp_labels =? length timestamps) ;;;
              Ok timestamp_labels) = r).
  { intros r ->.
    destruct (for_each body (combine labels timestamps)) as [out|e] eqn:E;
      [|reflexivity].
    simpl. apply for_each_length in E.
    rewrite E, combine_length_eq, Nat.eqb_refl by assumption. reflexivity. }
  destruct Hmode as [(-> & ->)|[(-> & -> & ->)|(-> & -> & -> & ->)]];
    apply Hgen; reflexivity.
Qed.

End Dispatch.

(** ** The interval tree *)

Lemma ieq_fields (a b : Interval) :
  ieq a b <->
  (ibegin a =? ibegin b)%float = true /\ (iend a =? iend b)%float = true
  /\ idata a = idata b.
Proof.
  unfold ieq, interval_eqb.
  rewrite !andb_true_iff, String.eqb_eq. tauto.
Qed.

Lemma ieq_sym (a b : Interval) : ieq a b -> ieq b a.
Proof.
  rewrite !ieq_fields. intros (H1 & H2 & H3).
  float_order. intuition congruence.
Qed.

Lemma ieq_trans (a b c : Interval) : ieq a b -> ieq b c -> ieq a c.
Proof.
  rewrite !ieq_fields. intros (H1 & H2 & H3) (H1' & H2' & H3').
  float_order. intuition congruence.
Qed.

(** An interval whose begin is less than its end equals itself. *)
Lemma ieq_refl (iv : Interval) :
  (ibegin iv <? iend iv)%float = true -> ieq iv iv.
Proof.
  rewrite ieq_fields. intros H. float_order. intuition.
Qed.

Lemma contains_point_iff (p : float) (iv : Interval) :
  contains_point p iv = true <->
  (ibegin iv <=? p)%float = true /\ (p <? iend iv)%float = true.
Proof.
  unfold contains_point. rewrite andb_true_iff. tauto.
Qed.

Lemma contains_point_ieq (p : float) (a b : Interval) :
  ieq a b -> contains_point p a = true -> contains_point p b = true.
Proof.
  intros H Ha. apply ieq_fields in H as (H1 & H2 & _).
  apply contains_point_iff in Ha. apply contains_point_iff.
  destruct Ha as [Ha Ha']. float_order. intuition lia.
Qed.

Lemma existsb_ieq (iv : Interval) (tree : IntervalTree.t) :
  existsb (interval_eqb iv) tree = true <-> exists iv', In iv' tree /\ ieq iv iv'.
Proof.
  rewrite existsb_exists. unfold ieq. tauto.
Qed.

Lemma interval_accepted (ev : Event) : interval_event ev -> accepted_event ev.
Proof.
  intros (b & e & l & Hb & He & Hl & Hlt). exists b, e, l.
  repeat split; try assumption. float_order. intuition lia.
Qed.

Lemma accepted_interval (ev : Event) :
  accepted_event ev ->
  exists b e l,
    ev_start ev = Some b /\ ev_end ev = Some e /\ ev_label ev = Some l
    /\ event_interval ev = Some (mkInterval b (e + epsilon)%float l)
    /\ is_null (mkInterval b (e + epsilon)%float l) = false.
Proof.
  intros (b & e & l & Hb & He & Hl & Hnull). exists b, e, l.
  repeat split; try assumption.
  unfold event_interval. rewrite Hb, He, Hl. reflexivity.
Qed.

Lemma InA_ieq_In (iv : Interval) (tree : IntervalTree.t) :
  InA ieq iv tree <-> exists iv', In iv' tree /\ ieq iv iv'.
Proof.
  rewrite InA_alt. split; intros (iv' & H & H'); exists iv'; tauto.
Qed.

Lemma NoDupA_snoc {A : Type} (R : A -> A -> Prop) (l : list A) (x : A) :
  (forall a b, R a b -> R b a) ->
  NoDupA R l -> ~ InA R x l -> NoDupA R (l ++ [x]).
Proof.
  intros Hsym Hl Hx. induction Hl as [|a l Ha Hl IH]; simpl.
  - constructor; [|constructor]. intros H. inversion H.
  - constructor.
    + intros H. apply InA_app in H as [H|H]; [contradiction|].
      apply InA_singleton in H. apply Hx. left. apply Hsym. exact H.
    + apply IH. intros H. apply Hx. right. exact H.
Qed.

Lemma tree_of_nil : tree_of [] IntervalTree.empty.
Proof.
  split; [|split].
  - intros iv [].
  - intros ev iv [].
  - constructor.
Qed.

(** Adding one more event keeps the tree in step with the events read. *)
Lemma addi_tree_of (read : list Event) (tree tree' : IntervalTree.t)
    (ev : Event) (b e : float) (l : string) :
  tree_of read tree ->
  event_interval ev = Some (mkInterval b e l) ->
  addi b e l tree = Ok tree' ->
  tree_of (read ++ [ev]) tree'.
Proof.
  intros (Hfrom & Hto & Hnodup) Hiv. unfold addi.
  destruct (existsb (interval_eqb (mkInterval b e l)) tree) eqn:Ex.
  - intros H. injection H as <-. split; [|split]; [| |assumption].
    + intros iv Hin. destruct (Hfrom iv Hin) as (ev' & Hev' & Heq).
      exists ev'. split; [apply in_or_app; left|]; assumption.
    + intros ev' iv Hin Heq Hrefl. apply in_app_or in Hin as [Hin|[<-|[]]].
      * eauto.
      * rewrite Hiv in Heq. injection Heq as <-. apply existsb_ieq. exact Ex.
  - destruct (is_null (mkInterval b e l)); [discriminate|].
    intros H. injection H as <-. split; [|split].
    + intros iv Hin. apply in_app_or in Hin as [Hin|[<-|[]]].
      * destruct (Hfrom iv Hin) as (ev' & Hev' & Heq).
        exists ev'. split; [apply in_or_app; left|]; assumption.
      * exists ev. split; [apply in_or_app; right; left; reflexivity|assumption].
    + intros ev' iv Hin Heq Hrefl. apply in_app_or in Hin as [Hin|[<-|[]]].
      * destruct (Hto ev' iv Hin Heq Hrefl) as (iv' & Hin' & Hieq).
        exists iv'. split; [apply in_or_app; left|]; assumption.
      * rewrite Hiv in Heq. injection Heq as <-.
        eexists. split; [apply in_or_app; right; left; reflexivity|].
        exact Hrefl.
    + apply NoDupA_snoc; [exact ieq_sym|assumption|].
      intros Hx. apply InA_ieq_In in Hx.
      apply existsb_ieq in Hx. congruence.
Qed.

(** The tree a completed loop over the events leaves. *)
Lemma add_events_ok_tree_of (evs read : list Event)
    (tree tree' : IntervalTree.t) :
  tree_of read tree -> add_events evs tree = Ok tree' ->
  tree_of (read ++ evs) tree'.
Proof.
  revert read tree. induction evs as [|ev evs IH]; intros read tree Htree H.
  - injection H as <-. rewrite app_nil_r. assumption.
  - cbn [add_events] in H.
    destruct (ev_start ev) as [b|] eqn:Eb; [|discriminate].
    destruct (ev_end ev) as [e|] eqn:Ee; [|discriminate].
    destruct (ev_label ev) as [l|] eqn:El; [|discriminate].
    cbn [getitem bind] in H.
    destruct (addi b (e + epsilon)%float l tree) as [tree1|] eqn:Ea;
      [|discriminate].
    cbn [bind] in H.
    assert (Hiv : event_interval ev
                  = Some (mkInterval b (e + epsilon)%float l)).
    { unfold event_interval. rewrite Eb, Ee, El. reflexivity. }
    pose proof (addi_tree_of read tree tree1 ev _ _ _ Htree Hiv Ea) as Htree1.
    pose proof (IH (read ++ [ev]) tree1 Htree1 H) as Htree'.
    rewrite <- app_assoc in Htree'. exact Htree'.
Qed.

(** The loop over the events completes when [addi] takes every event. *)
Lemma add_events_accepts (evs : list Event) (tree : IntervalTree.t) :
  Forall accepted_event evs -> exists tree', add_events evs tree = Ok tree'.
Proof.
  intros Hwf. revert tree. induction Hwf as [|ev evs Hev Hevs IH]; intros tree.
  - exists tree. reflexivity.
  - apply accepted_interval in Hev as (b & e & l & Hb & He & Hl & _ & Hnull).
    cbn [add_events]. rewrite Hb, He, Hl. cbn [getitem bind].
    unfold addi. destruct (existsb _ tree).
    + cbn [bind]. apply IH.
    + rewrite Hnull. cbn [bind]. apply IH.
Qed.

Lemma add_events_tree_of (evs read : list Event) (tree : IntervalTree.t) :
  tree_of read tree -> Forall accepted_event evs ->
  exists tree', add_events evs tree = Ok tree' /\ tree_of (read ++ evs) tree'.
Proof.
  intros Htree Hwf. destruct (add_events_accepts evs tree Hwf) as [tree' H].
  exists tree'. split; [assumption|].
  eapply add_events_ok_tree_of; eassumption.
Qed.

Lemma event_interval_inv (ev : Event) (iv : Interval) :
  event_interval ev = Some iv ->
  exists b e l,
    ev_start ev = Some b /\ ev_end ev = Some e /\ ev_label ev = Some l
    /\ iv = mkInterval b (e + epsilon)%float l.
Proof.
  unfold event_interval.
  destruct (ev_start ev) as [b|]; [|discriminate].
  destruct (ev_end ev) as [e|]; [|discriminate].
  destruct (ev_label ev) as [l|]; [|discriminate].
  intros H. injection H as <-. exists b, e, l. auto.
Qed.

(** The interval of an event that covers a point equals itself. *)
Lemma covers_ieq_refl (ev : Event) (iv : Interval) (t : float) :
  event_interval ev = Some iv -> covers ev t -> ieq iv iv.
Proof.
  intros H Hc. apply event_interval_inv in H as (b & e & l & Hb & He & Hl & ->).
  unfold covers in Hc. rewrite Hb, He in Hc. destruct Hc as [Hc Hc'].
  apply ieq_refl. simpl. eapply leb_ltb_trans; eassumption.
Qed.

Lemma covers_contains (ev : Event) (iv : Interval) (t : float) :
  event_interval ev = Some iv -> (covers ev t <-> contains_point t iv = true).
Proof.
  intros H. apply event_interval_inv in H as (b & e & l & Hb & He & Hl & ->).
  unfold covers. rewrite Hb, He, contains_point_iff. simpl. tauto.
Qed.

Lemma same_interval_ieq (ev ev' : Event) (iv iv' : Interval) :
  event_interval ev = Some iv -> event_interval ev' = Some iv' ->
  (same_interval ev ev' <-> ieq iv iv').
Proof.
  intros H H'.
  apply event_interval_inv in H as (b & e & l & Hb & He & Hl & ->).
  apply event_interval_inv in H' as (b' & e' & l' & Hb' & He' & Hl' & ->).
  unfold same_interval. rewrite Hb, He, Hb', He', Hl, Hl', ieq_fields. simpl.
  split.
  - intros (H1 & H2 & H3). injection H3 as ->. auto.
  - intros (H1 & H2 & ->). auto.
Qed.

Lemma two_members {A : Type} (a b : A) (l : list A) :
  In a l -> In b l -> a <> b -> 2 <= length l.
Proof.
  destruct l as [|x [|y l]]; simpl; intros Ha Hb Hab.
  - contradiction.
  - destruct Ha as [<-|[]], Hb as [<-|[]]. congruence.
  - lia.
Qed.

Lemma NoDupA_filter {A : Type} (eqA : A -> A -> Prop) (f : A -> bool) (l : list A) :
  NoDupA eqA l -> NoDupA eqA (filter f l).
Proof.
  induction 1 as [|x l Hx Hl IH]; simpl; [constructor|].
  destruct (f x); [|assumption]. constructor; [|assumption].
  intros H. apply Hx. rewrite InA_alt in *.
  destruct H as (y & Hxy & Hy). apply filter_In in Hy as [Hy _]. eauto.
Qed.

(** ** What the tree answers at a timestamp, in terms of the events *)

Section RawMatches.

Variable set_iter : list Interval -> list Interval.
Hypothesis set_iter_perm : forall l, Permutation (set_iter l) l.

Variables (evs : list Event) (tree : IntervalTree.t) (t : float).
Hypothesis evs_wf : Forall accepted_event evs.
Hypothesis tree_evs : tree_of evs tree.

Lemma in_tree_at (iv : Interval) :
  In iv (tree_at set_iter tree t) <-> In iv tree /\ contains_point t iv = true.
Proof.
  unfold tree_at. rewrite <- filter_In. split; intros H.
  - eapply Permutation_in; [apply set_iter_perm|assumption].
  - eapply Permutation_in; [symmetry; apply set_iter_perm|assumption].
Qed.

Lemma tree_at_length :
  length (tree_at set_iter tree t) = length (filter (contains_point t) tree).
Proof. apply Permutation_length, set_iter_perm. Qed.

(** A member of the answer is the interval of an event that covers [t]. *)
Lemma tree_at_event (iv : Interval) :
  In iv (tree_at set_iter tree t) ->
  exists ev, In ev evs /\ event_interval ev = Some iv /\ covers ev t.
Proof.
  intros H. apply in_tree_at in H as [Hin Hc].
  destruct tree_evs as (Hfrom & _ & _).
  destruct (Hfrom iv Hin) as (ev & Hev & Hiv).
  exists ev. repeat split; try assumption.
  apply (covers_contains ev iv t Hiv). assumption.
Qed.

(** An event that covers [t] has its interval in the answer. *)
Lemma event_tree_at (ev : Event) (iv : Interval) :
  In ev evs -> event_interval ev = Some iv -> covers ev t ->
  exists iv', In iv' (tree_at set_iter tree t) /\ ieq iv iv'.
Proof.
  intros Hev Hiv Hc. destruct tree_evs as (_ & Hto & _).
  destruct (Hto ev iv Hev Hiv (covers_ieq_refl ev iv t Hiv Hc))
    as (iv' & Hin & Hieq).
  exists iv'. split; [|assumption]. apply in_tree_at. split; [assumption|].
  apply (contains_point_ieq t iv iv' Hieq).
  apply (covers_contains ev iv t Hiv). assumption.
Qed.

Lemma wf_event_interval (ev : Event) :
  In ev evs -> exists iv, event_interval ev = Some iv.
Proof.
  intros Hev. rewrite Forall_forall in evs_wf.
  destruct (accepted_interval ev (evs_wf ev Hev))
    as (b & e & l & _ & _ & _ & H & _).
  eauto.
Qed.

Lemma raw_matches_in (p : pyval) :
  In p (map (fun iv => PyStr (idata iv)) (tree_at set_iter tree t))
  <-> among_matches evs t p.
Proof.
  rewrite in_map_iff. split.
  - intros (iv & <- & Hin).
    destruct (tree_at_event iv Hin) as (ev & Hev & Hiv & Hc).
    exists ev. repeat split; try assumption.
    apply event_interval_inv in Hiv as (b & e & l & _ & _ & Hl & ->).
    exists l. auto.
  - intros (ev & Hev & Hc & l & Hl & ->).
    destruct (wf_event_interval ev Hev) as [iv Hiv].
    destruct (event_tree_at ev iv Hev Hiv Hc) as (iv' & Hin & Hieq).
    exists iv'. split; [|assumption].
    apply ieq_fields in Hieq as (_ & _ & <-).
    apply event_interval_inv in Hiv as (b & e & l' & _ & _ & Hl' & ->).
    simpl. congruence.
Qed.

Lemma raw_matches_none :
  (forall ev, In ev evs -> ~ covers ev t) -> tree_at set_iter tree t = [].
Proof.
  intros Hnone. destruct (tree_at set_iter tree t) as [|iv l] eqn:E;
    [reflexivity|].
  destruct (tree_at_event iv) as (ev & Hev & _ & Hc).
  - rewrite E. left. reflexivity.
  - exfalso. exact (Hnone ev Hev Hc).
Qed.

Lemma raw_matches_several (ev ev' : Event) :
  In ev evs -> In ev' evs -> covers ev t -> covers ev' t ->
  ~ same_interval ev ev' ->
  2 <= length (tree_at set_iter tree t).
Proof.
  intros Hev Hev' Hc Hc' Hdiff.
  destruct (wf_event_interval ev Hev) as [iv Hiv].
  destruct (wf_event_interval ev' Hev') as [iv' Hiv'].
  destruct (event_tree_at ev iv Hev Hiv Hc) as (r & Hr & Hieq).
  destruct (event_tree_at ev' iv' Hev' Hiv' Hc') as (r' & Hr' & Hieq').
  apply (two_members r r'); try assumption.
  intros ->. apply Hdiff.
  apply (same_interval_ieq ev ev' iv iv' Hiv Hiv').
  eapply ieq_trans; [eassumption|apply ieq_sym; assumption].
Qed.

Lemma raw_matches_single (ev : Event) :
  In ev evs -> covers ev t ->
  (forall ev', In ev' evs -> covers ev' t -> same_interval ev ev') ->
  exists iv, tree_at set_iter tree t = [iv]
             /\ labelled ev (PyStr (idata iv)).
Proof.
  intros Hev Hc Hall.
  destruct (wf_event_interval ev Hev) as [iv0 Hiv0].
  assert (Hsame : forall r, In r (filter (contains_point t) tree) -> ieq iv0 r).
  { intros r Hr.
    assert (Hr' : In r (tree_at set_iter tree t)).
    { apply in_tree_at. apply filter_In. assumption. }
    destruct (tree_at_event r Hr') as (ev' & Hev' & Hiv' & Hc').
    apply (same_interval_ieq ev ev' iv0 r Hiv0 Hiv'). auto. }
  assert (Hnodup : NoDupA ieq (filter (contains_point t) tree)).
  { apply NoDupA_filter. apply tree_evs. }
  destruct (event_tree_at ev iv0 Hev Hiv0 Hc) as (r0 & Hr0 & Hieq0).
  apply in_tree_at in Hr0. apply filter_In in Hr0.
  destruct (filter (contains_point t) tree) as [|a [|b l]] eqn:E.
  - contradiction.
  - exists a. split.
    + unfold tree_at. rewrite E.
      apply Permutation_length_1_inv. symmetry. rewrite <- E at 1.
      rewrite E. apply set_iter_perm.
    + pose proof (Hsame a (or_introl eq_refl)) as Ha.
      apply ieq_fields in Ha as (_ & _ & <-).
      apply event_interval_inv in Hiv0 as (b & e & l & _ & _ & Hl & ->).
      exists l. auto.
  - exfalso. inversion Hnodup as [|? ? Hnot _]; subst. apply Hnot.
    left. eapply ieq_trans; [apply ieq_sym, Hsame; left; reflexivity|].
    apply Hsame. right. left. reflexivity.
Qed.

End RawMatches.

(** ** The default policy *)

Lemma pyval_eqb_eq (a b : pyval) : pyval_eqb a b = true <-> a = b.
Proof.
  destruct a as [|s], b as [|s']; simpl; try (split; congruence).
  rewrite String.eqb_eq. split; congruence.
Qed.

Section DefaultLoop.

Variable set_iter : list Interval -> list Interval.
Variables (tree : IntervalTree.t) (default_label : pyval).

(** With [to_onehot] the entry is one label, and it is the label carried to
    the next timestamp. *)
Lemma default_step_onehot (last_label : pyval) (t : float) :
  exists c,
    default_step set_iter tree true default_label last_label t = ([c], c)
    /\ (raw_labels set_iter tree t = [] ->
        c = if is_not_None last_label then last_label else default_label)
    /\ (2 <= length (raw_labels set_iter tree t) ->
        c = if is_not_None last_label && existsb (pyval_eqb last_label) (raw_labels set_iter tree t)
            then last_label else default_label)
    /\ (forall x, raw_labels set_iter tree t = [x] -> c = x).
Proof.
  unfold default_step. fold (raw_labels set_iter tree t).
  destruct (raw_labels set_iter tree t) as [|a [|b l]] eqn:E; simpl.
  - eexists. split; [reflexivity|]. split; [reflexivity|].
    split; [lia|discriminate].
  - exists a. split; [reflexivity|]. split; [discriminate|].
    split; [lia|congruence].
  - destruct (is_not_None last_label
              && (pyval_eqb last_label a || (pyval_eqb last_label b
                  || existsb (pyval_eqb last_label) l))) eqn:C;
      eexists; (split; [reflexivity|]); (split; [discriminate|]);
      (split; [reflexivity|discriminate]).
Qed.

(** The chosen label is [None] only when the default label is. *)
Lemma default_step_None (last_label : pyval) (t : float) :
  default_step set_iter tree true default_label last_label t
  = ([PyNone], PyNone) ->
  default_label = PyNone.
Proof.
  destruct (default_step_onehot last_label t) as (c & Hstep & H0 & H2 & H1).
  rewrite Hstep. intros H. injection H as ->.
  destruct (raw_labels set_iter tree t) as [|a [|b l]] eqn:E.
  - specialize (H0 eq_refl). destruct last_label; simpl in H0; congruence.
  - specialize (H1 a eq_refl). subst a. unfold raw_labels in E.
    destruct (tree_at set_iter tree t); simpl in E; discriminate.
  - specialize (H2 ltac:(simpl; lia)).
    destruct last_label as [|s]; simpl in H2; [congruence|].
    destruct (_ || _) in H2; congruence.
Qed.

Lemma default_timestamps_onehot (ts : list float) :
  forall last_label,
  exists chosen,
    default_timestamps set_iter tree true default_label last_label ts
    = map (fun c => [c]) chosen
    /\ length chosen = length ts
    /\ forall j t, nth_error ts j = Some t ->
       exists c, nth_error chosen j = Some c
         /\ default_step set_iter tree true default_label
              (match j with 0 => last_label | S k => nth k chosen PyNone end) t
            = ([c], c).
Proof.
  induction ts as [|t0 ts IH]; intros last_label.
  - exists []. repeat split. intros [|j] t H; discriminate.
  - destruct (default_step_onehot last_label t0) as (c0 & Hstep & _).
    destruct (IH c0) as (chosen & Hrun & Hlen & Hrule).
    exists (c0 :: chosen). split; [|split].
    + cbn [default_timestamps]. rewrite Hstep, Hrun. reflexivity.
    + simpl. congruence.
    + intros [|j] t Hj; simpl in Hj.
      * injection Hj as <-. exists c0. split; [reflexivity|assumption].
      * destruct (Hrule j t Hj) as (c & Hc & Hs).
        exists c. split; [assumption|].
        destruct j; simpl; assumption.
Qed.

(** Without [to_onehot] each entry is what the tree answers. *)
Lemma default_timestamps_raw (ts : list float) (last_label : pyval) :
  default_timestamps set_iter tree false default_label last_label ts
  = map (raw_labels set_iter tree) ts.
Proof.
  induction ts as [|t ts IH]; [reflexivity|].
  cbn [default_timestamps default_step map]. rewrite IH. reflexivity.
Qed.

End DefaultLoop.

Section DefaultPolicy.

Variable set_iter : list Interval -> list Interval.
Hypothesis set_iter_perm : forall l, Permutation (set_iter l) l.

(** The step of the loop, read on the events of the clip. *)
Lemma default_step_stabilized (evs : list Event) (tree : IntervalTree.t)
    (default_label : pyval) (prev : option pyval) (t : float) (c : pyval) :
  Forall accepted_event evs -> tree_of evs tree ->
  (prev = Some PyNone -> default_label = PyNone) ->
  default_step set_iter tree true default_label
    (match prev with Some p => p | None => PyNone end) t = ([c], c) ->
  stabilized evs default_label prev t c.
Proof.
  intros Hwf Htree Hinv Hstep.
  destruct (default_step_onehot set_iter tree default_label
              (match prev with Some p => p | None => PyNone end) t)
    as (c' & Hstep' & H0 & H2 & H1).
  rewrite Hstep in Hstep'. injection Hstep' as <-.
  unfold raw_labels in H0, H2, H1.
  split; [|split].
  - intros Hnone.
    rewrite (raw_matches_none set_iter set_iter_perm evs tree t Htree Hnone)
      in H0.
    specialize (H0 eq_refl).
    destruct prev as [[|s]|]; simpl in H0; try assumption.
    rewrite H0. apply Hinv. reflexivity.
  - intros (ev & ev' & Hev & Hev' & Hc & Hc' & Hdiff).
    pose proof (raw_matches_several set_iter set_iter_perm evs tree t Hwf
                  Htree ev ev' Hev Hev' Hc Hc' Hdiff) as Hlen.
    rewrite length_map in H2. specialize (H2 Hlen).
    split; [|split].
    + intros p -> Hamong.
      assert (Hin := proj2 (raw_matches_in set_iter set_iter_perm evs tree t
                              Hwf Htree p) Hamong).
      destruct Hamong as (_ & _ & _ & l & _ & ->). simpl in H2.
      replace (existsb _ _) with true in H2; [assumption|].
      symmetry. apply existsb_exists. exists (PyStr l).
      split; [assumption|]. apply pyval_eqb_eq. reflexivity.
    + intros ->. simpl in H2. assumption.
    + intros p -> Hnot.
      replace (existsb _ _) with false in H2.
      * rewrite andb_false_r in H2. assumption.
      * symmetry. apply not_true_is_false. intros Hex.
        apply existsb_exists in Hex as (x & Hx & Heq).
        apply pyval_eqb_eq in Heq. subst x. apply Hnot.
        apply (raw_matches_in set_iter set_iter_perm evs tree t Hwf Htree).
        assumption.
  - intros ev Hev Hc Hall.
    destruct (raw_matches_single set_iter set_iter_perm evs tree t Hwf Htree
                ev Hev Hc Hall) as (iv & Hiv & Hlab).
    rewrite Hiv in H1. rewrite (H1 _ eq_refl). assumption.
Qed.

(** One clip of the default policy with [to_onehot]. *)
Lemma default_clip_onehot (default_label : pyval) (evs : list Event)
    (ts : list float) :
  Forall accepted_event evs ->
  exists chosen,
    default_clip set_iter true default_label (evs, ts)
    = Ok (map (fun c => Labels [c]) chosen)
    /\ length chosen = length ts
    /\ forall j t, nth_error ts j = Some t ->
       exists c, nth_error chosen j = Some c
                 /\ stabilized evs default_label (previous_choice chosen j) t c.
Proof.
  intros Hwf.
  destruct (add_events_tree_of evs [] IntervalTree.empty tree_of_nil Hwf)
    as (tree & Hadd & Htree).
  simpl in Htree.
  destruct (default_timestamps_onehot set_iter tree default_label ts PyNone)
    as (chosen & Hrun & Hlen & Hrule).
  exists chosen. split; [|split; [assumption|]].
  - unfold default_clip. simpl. rewrite Hadd. simpl.
    rewrite Hrun, map_map. reflexivity.
  - intros j t Hj. destruct (Hrule j t Hj) as (c & Hc & Hstep).
    exists c. split; [assumption|].
    apply (default_step_stabilized evs tree); try assumption.
    + destruct j as [|k]; simpl; [discriminate|]. intros Hk.
      assert (Hlt : k < length ts).
      { apply Nat.lt_succ_l. apply nth_error_Some. congruence. }
      destruct (nth_error ts k) as [tk|] eqn:Etk;
        [|apply nth_error_None in Etk; lia].
      destruct (Hrule k tk Etk) as (ck & Hck & Hstepk).
      rewrite Hk in Hck. injection Hck as <-.
      eapply default_step_None. exact Hstepk.
    + destruct j as [|k]; simpl; [assumption|].
      assert (Hlt : k < length chosen).
      { rewrite Hlen. apply Nat.lt_succ_l. apply nth_error_Some. congruence. }
      rewrite (nth_error_nth' chosen PyNone Hlt). assumption.
Qed.

(** One clip of the default policy without [to_onehot]. *)
Lemma default_clip_raw (default_label : pyval) (evs : list Event)
    (ts : list float) :
  Forall accepted_event evs ->
  exists sets,
    default_clip set_iter false default_label (evs, ts)
    = Ok (map Labels sets)
    /\ length sets = length ts
    /\ forall j t, nth_error ts j = Some t ->
       exists matches, nth_error sets j = Some matches
                       /\ forall p, In p matches <-> among_matches evs t p.
Proof.
  intros Hwf.
  destruct (add_events_tree_of evs [] IntervalTree.empty tree_of_nil Hwf)
    as (tree & Hadd & Htree).
  simpl in Htree.
  exists (map (fun t => map (fun iv => PyStr (idata iv))
                            (tree_at set_iter tree t)) ts).
  split; [|split].
  - unfold default_clip. simpl. rewrite Hadd. simpl.
    rewrite default_timestamps_raw. reflexivity.
  - apply length_map.
  - intros j t Hj. eexists. split.
    + rewrite nth_error_map, Hj. reflexivity.
    + intros p. apply raw_matches_in; assumption.
Qed.

End DefaultPolicy.

(** ** From one clip to the whole call *)

Lemma get_labels_per_clip (set_iter : list Interval -> list Interval)
    (labels : list (list Event)) (timestamps : list (list float)) (mode : string)
    (to_onehot : bool) (default_label : pyval)
    (body : list Event * list float -> result (list entry))
    (P : list Event -> list float -> list entry -> Prop) :
  length labels = length timestamps ->
  ((mode =? "default")%string = true /\
     body = default_clip set_iter to_onehot default_label) \/
  ((mode =? "default")%string = false /\ (mode =? "smoothed")%string = true /\
     body = smoothed_clip) \/
  ((mode =? "default")%string = false /\ (mode =? "smoothed")%string = false
     /\ (mode =? "continuous")%string = true /\ body = continuous_clip) ->
  (forall evs ts, In (evs, ts) (combine labels timestamps) ->
     exists b, body (evs, ts) = Ok b /\ P evs ts b) ->
  exists out,
    get_labels_for_timestamps set_iter labels timestamps mode to_onehot
      default_label = Ok out
    /\ length out = length timestamps
    /\ forall i evs ts,
         nth_error labels i = Some evs -> nth_error timestamps i = Some ts ->
         exists b, nth_error out i = Some b /\ P evs ts b.
Proof.
  intros Hlen Hmode Hbody.
  rewrite (get_labels_unfold set_iter labels timestamps mode to_onehot
             default_label body Hlen Hmode).
  destruct (for_each_total body (combine labels timestamps)) as [out Hout].
  { intros [evs ts] Hin. destruct (Hbody evs ts Hin) as (b & Hb & _). eauto. }
  exists out. split; [assumption|]. split.
  - rewrite (for_each_length body _ _ Hout). apply combine_length_eq, Hlen.
  - intros i evs ts Hevs Hts.
    pose proof (nth_error_combine labels timestamps i evs ts Hevs Hts) as Hi.
    destruct (for_each_nth body _ _ Hout i _ Hi) as (b & Hb & Hrun).
    destruct (Hbody evs ts (nth_error_In _ _ Hi)) as (b' & Hrun' & HP).
    exists b. split; [assumption|]. congruence.
Qed.

Section DefaultPolicyClaims.

Variable set_iter : list Interval -> list Interval.
Hypothesis set_iter_perm : forall l, Permutation (set_iter l) l.

Lemma set_iter_nil : set_iter [] = [].
Proof. apply Permutation_nil. symmetry. apply set_iter_perm. Qed.

Lemma set_iter_single (iv : Interval) : set_iter [iv] = [iv].
Proof. apply Permutation_length_1_inv. symmetry. apply set_iter_perm. Qed.

(** C1.  Default policy with [to_onehot], on events that start before
    their widened end: every clip gets one entry per timestamp, every entry
    is a single label, and the label follows the stabilization rule, in
    which an interval covers [t] when [start <= t < end + 0.0001] with the
    sum as binary64 rounds it.  When no interval covers the timestamp it is the
    label chosen at the timestamp before, or [default_label] at the first
    timestamp; when two or more intervals cover it, it is the label chosen
    before if that label is among the matches and [default_label]
    otherwise; when one interval covers it, it is that interval's label.
    The choice at [j] is the previous choice at [j + 1]. *)
Theorem onehot_stabilization_rule
    (labels : list (list Event)) (timestamps : list (list float))
    (default_label : pyval) :
  length labels = length timestamps ->
  Forall (Forall interval_event) labels ->
  exists out,
    get_labels_for_timestamps set_iter labels timestamps "default" true
      default_label = Ok out
    /\ length out = length timestamps
    /\ forall i evs ts,
         nth_error labels i = Some evs -> nth_error timestamps i = Some ts ->
         exists chosen,
           nth_error out i = Some (map (fun c => Labels [c]) chosen)
           /\ length chosen = length ts
           /\ forall j t, nth_error ts j = Some t ->
              exists c, nth_error chosen j = Some c
                /\ stabilized evs default_label (previous_choice chosen j) t c.
Proof.
  intros Hlen Hwf.
  destruct (get_labels_per_clip set_iter labels timestamps "default" true
              default_label (default_clip set_iter true default_label)
              (fun evs ts b =>
                 exists chosen,
                   b = map (fun c => Labels [c]) chosen
                   /\ length chosen = length ts
                   /\ forall j t, nth_error ts j = Some t ->
                      exists c, nth_error chosen j = Some c
                        /\ stabilized evs default_label
                             (previous_choice chosen j) t c) Hlen)
    as (out & Hout & Hlen' & Hclips).
  - left. split; reflexivity.
  - intros evs ts Hin. apply in_combine_l in Hin.
    rewrite Forall_forall in Hwf.
    destruct (default_clip_onehot set_iter set_iter_perm default_label evs ts
                (Forall_impl _ interval_accepted (Hwf evs Hin)))
      as (chosen & Hrun & Hl & Hrule).
    eexists. split; [exact Hrun|]. exists chosen. auto.
  - exists out. split; [assumption|]. split; [assumption|].
    intros i evs ts Hevs Hts.
    destruct (Hclips i evs ts Hevs Hts) as (b & Hb & chosen & -> & Hl & Hrule).
    exists chosen. auto.
Qed.

(** C2.  Default policy without [to_onehot]: the entry at timestamp [t]
    holds exactly the labels of the events whose span [start, end + 0.0001)
    contains [t], that is [start <= t < end + 0.0001] with the sum as
    binary64 rounds it.  One interval (0, 500, "dog") queried at 0, 250, 500
    and 750 gives [["dog"], ["dog"], ["dog"], []]. *)
Theorem default_policy_raw_matches :
  (forall (labels : list (list Event)) (timestamps : list (list float))
          (default_label : pyval),
     length labels = length timestamps ->
     Forall (Forall interval_event) labels ->
     exists out,
       get_labels_for_timestamps set_iter labels timestamps "default" false
         default_label = Ok out
       /\ length out = length timestamps
       /\ forall i evs ts,
            nth_error labels i = Some evs -> nth_error timestamps i = Some ts ->
            exists sets,
              nth_error out i = Some (map Labels sets)
              /\ length sets = length ts
              /\ forall j t, nth_error ts j = Some t ->
                 exists matches,
                   nth_error sets j = Some matches
                   /\ forall p, In p matches <-> among_matches evs t p)
  /\ (forall default_label,
        get_labels_for_timestamps set_iter [[ev_interval 0 500 "dog"]]
          [[0; 250; 500; 750]%float] "default" false default_label
        = Ok [[Labels [PyStr "dog"]; Labels [PyStr "dog"];
               Labels [PyStr "dog"]; Labels []]]).
Proof.
  split.
  - intros labels timestamps default_label Hlen Hwf.
    destruct (get_labels_per_clip set_iter labels timestamps "default" false
                default_label (default_clip set_iter false default_label)
                (fun evs ts b =>
                   exists sets,
                     b = map Labels sets
                     /\ length sets = length ts
                     /\ forall j t, nth_error ts j = Some t ->
                        exists matches,
                          nth_error sets j = Some matches
                          /\ forall p, In p matches <-> among_matches evs t p)
                Hlen)
      as (out & Hout & Hlen' & Hclips).
    + left. split; reflexivity.
    + intros evs ts Hin. apply in_combine_l in Hin.
      rewrite Forall_forall in Hwf.
      destruct (default_clip_raw set_iter set_iter_perm default_label evs ts
                  (Forall_impl _ interval_accepted (Hwf evs Hin)))
        as (sets & Hrun & Hl & Hrule).
      eexists. split; [exact Hrun|]. exists sets. auto.
    + exists out. split; [assumption|]. split; [assumption|].
      intros i evs ts Hevs Hts.
      destruct (Hclips i evs ts Hevs Hts) as (b & Hb & sets & -> & Hl & Hrule).
      exists sets. auto.
  - intros default_label. vm_compute.
    rewrite !set_iter_single, set_iter_nil. reflexivity.
Qed.

End DefaultPolicyClaims.

(** ** Sorting by onset *)

Section SortedByKey.

Context {A : Type}.

Lemma insert_by_key_perm (x : float * A) (l : list (float * A)) :
  Permutation (insert_by_key x l) (x :: l).
Proof.
  induction l as [|y l IH]; simpl; [reflexivity|].
  destruct (fst y <? fst x)%float; [|reflexivity].
  rewrite IH. apply perm_swap.
Qed.

Lemma sorted_by_key_perm (l : list (float * A)) :
  Permutation (sorted_by_key l) l.
Proof.
  induction l as [|x l IH]; simpl; [reflexivity|].
  rewrite insert_by_key_perm. constructor. assumption.
Qed.

Lemma insert_by_key_sorted (x : float * A) (l : list (float * A)) :
  number (fst x) -> Forall (fun y => number (fst y)) l ->
  StronglySorted key_le l -> StronglySorted key_le (insert_by_key x l).
Proof.
  intros Hx Hnum. induction 1 as [|y l Hl IH Hy]; simpl.
  - constructor; constructor.
  - inversion Hnum as [|? ? Hny Hnl]; subst.
    destruct (fst y <? fst x)%float eqn:E.
    + constructor; [auto|].
      apply Forall_forall. intros z Hz.
      eapply Permutation_in in Hz; [|apply insert_by_key_perm].
      destruct Hz as [<-|Hz].
      * unfold key_le. apply ltb_leb. exact E.
      * rewrite Forall_forall in Hy. auto.
    + apply ltb_false_leb in E; [|assumption|assumption]. constructor.
      * constructor; assumption.
      * constructor; [assumption|].
        eapply Forall_impl; [|exact Hy].
        intros z Hz. unfold key_le in *. eapply leb_trans; eassumption.
Qed.

Lemma sorted_by_key_numbers (l : list (float * A)) :
  Forall (fun y => number (fst y)) l ->
  Forall (fun y => number (fst y)) (sorted_by_key l).
Proof.
  intros H. rewrite Forall_forall in *. intros y Hy. apply H.
  eapply Permutation_in; [apply sorted_by_key_perm|exact Hy].
Qed.

Lemma sorted_by_key_sorted (l : list (float * A)) :
  Forall (fun y => number (fst y)) l ->
  StronglySorted key_le (sorted_by_key l).
Proof.
  induction 1 as [|x l Hx Hl IH]; simpl; [constructor|].
  apply insert_by_key_sorted; [assumption| |assumption].
  apply sorted_by_key_numbers. assumption.
Qed.

Lemma key_sorted_onsets (l : list (float * A)) :
  StronglySorted key_le l ->
  StronglySorted (fun x y => (x <=? y)%float = true) (map fst l).
Proof.
  induction 1 as [|y l Hl IH Hy]; simpl; constructor; [assumption|].
  apply Forall_map. exact Hy.
Qed.

End SortedByKey.

Lemma strongly_sorted_nth (R : float -> float -> Prop) (a : list float) :
  StronglySorted R a ->
  forall i j, i < j -> j < length a -> R (nth i a 0%float) (nth j a 0%float).
Proof.
  induction 1 as [|x a Ha IH Hx]; intros i j Hij Hj; simpl in Hj; [lia|].
  destruct j as [|j]; [lia|]. destruct i as [|i]; simpl.
  - rewrite Forall_forall in Hx. apply Hx. apply nth_In. lia.
  - apply IH; lia.
Qed.

Lemma strongly_sorted_ascending (a : list float) :
  Forall number a ->
  StronglySorted (fun x y => (x <=? y)%float = true) a -> ascending a.
Proof.
  intros Hnum Ha i j Hij Hj. destruct (Nat.eq_dec i j) as [->|Hne].
  - apply leb_refl. rewrite Forall_forall in Hnum. apply Hnum, nth_In, Hj.
  - apply (strongly_sorted_nth _ a Ha); lia.
Qed.

Lemma sorted_by_key_ascending {A : Type} (l : list (float * A)) :
  Forall (fun y => number (fst y)) l ->
  ascending (map fst (sorted_by_key l)).
Proof.
  intros H. apply strongly_sorted_ascending.
  - apply Forall_map, sorted_by_key_numbers, H.
  - apply key_sorted_onsets, sorted_by_key_sorted, H.
Qed.

Lemma increasing_ascending (a : list float) :
  Forall number a -> increasing a -> ascending a.
Proof.
  intros Hnum Ha. apply strongly_sorted_ascending; [assumption|].
  induction Ha as [|x a Ha IH Hx]; constructor.
  - apply IH. inversion Hnum; assumption.
  - eapply Forall_impl; [|exact Hx]. intros y. apply ltb_leb.
Qed.

(** An increasing list that holds a number holds numbers only. *)
Lemma increasing_numbers (a : list float) (o : float) :
  increasing a -> In o a -> number o -> Forall number a.
Proof.
  intros Ha Ho Hnum. apply Forall_forall. intros x Hx.
  destruct (In_nth a o 0%float Ho) as (i & Hi & Ei).
  destruct (In_nth a x 0%float Hx) as (j & Hj & Ej).
  destruct (Nat.lt_trichotomy i j) as [Hlt|[->|Hgt]].
  - pose proof (strongly_sorted_nth _ a Ha i j Hlt Hj) as H.
    cbv beta in H. rewrite Ej in H. eapply ltb_number_r. exact H.
  - congruence.
  - pose proof (strongly_sorted_nth _ a Ha j i Hgt Hi) as H.
    cbv beta in H. rewrite Ej in H. eapply ltb_number_l. exact H.
Qed.

(** ** [searchsorted] on an ascending array *)

Section SearchSorted.

Variables (a : list float) (v : float).
Hypothesis a_ascending : ascending a.
Hypothesis v_number : number v.

Lemma bisect_left_spec (rounds : nat) :
  forall lo hi,
    lo <= hi -> hi <= length a -> hi - lo <= rounds ->
    (forall i, i < lo -> (nth i a 0 <? v)%float = true) ->
    (forall i, hi <= i -> i < length a -> (v <=? nth i a 0)%float = true) ->
    let r := Np.bisect_left rounds a v lo hi in
    lo <= r <= hi
    /\ (forall i, i < r -> (nth i a 0 <? v)%float = true)
    /\ (forall i, r <= i -> i < length a -> (v <=? nth i a 0)%float = true).
Proof.
  induction rounds as [|rounds IH]; intros lo hi Hlh Hhi Hfuel Hlo Hup;
    cbn zeta; cbn [Np.bisect_left].
  - assert (lo = hi) by lia. subst hi. repeat split; auto.
  - destruct (lo <? hi) eqn:E.
    + apply Nat.ltb_lt in E.
      assert (Hdiv : (hi - lo) / 2 < hi - lo)
        by (apply Nat.div_lt; lia).
      set (mid := lo + (hi - lo) / 2) in *.
      assert (Hmid : lo <= mid < hi) by (unfold mid; lia).
      clearbody mid.
      rewrite less_number by assumption.
      destruct (nth mid a 0 <? v)%float eqn:C.
      * destruct (IH (S mid) hi) as (Hr & Hbelow & Habove);
          try lia; try assumption.
        { intros i Hi. eapply leb_ltb_trans; [|exact C].
          apply a_ascending; lia. }
        repeat split; try assumption; lia.
      * apply ltb_false_leb in C;
          [|apply (leb_number_l _ _ (a_ascending mid mid (le_n _) ltac:(lia)))
           |assumption].
        destruct (IH lo mid) as (Hr & Hbelow & Habove);
          try lia; try assumption.
        { intros i Hi Hi'. eapply leb_trans; [exact C|].
          apply a_ascending; lia. }
        repeat split; try assumption; lia.
    + apply Nat.ltb_ge in E. assert (lo = hi) by lia. subst hi.
      repeat split; auto.
Qed.

(** The index returned splits the array: smaller onsets before it, the
    others from it on. *)
Lemma searchsorted_spec :
  Np.searchsorted a v <= length a
  /\ (forall i, i < Np.searchsorted a v -> (nth i a 0 <? v)%float = true)
  /\ (forall i, Np.searchsorted a v <= i -> i < length a ->
        (v <=? nth i a 0)%float = true).
Proof.
  unfold Np.searchsorted.
  destruct (bisect_left_spec (length a) 0 (length a)) as (Hr & Hb & Ha);
    try lia.
  repeat split; try assumption; lia.
Qed.

(** The index is the only one that splits the array this way. *)
Lemma searchsorted_unique (r : nat) :
  r <= length a ->
  (forall i, i < r -> (nth i a 0 <? v)%float = true) ->
  (forall i, r <= i -> i < length a -> (v <=? nth i a 0)%float = true) ->
  Np.searchsorted a v = r.
Proof.
  intros Hr Hbelow Habove.
  destruct searchsorted_spec as (Hs & Hsb & Hsa).
  destruct (Nat.lt_trichotomy (Np.searchsorted a v) r) as [Hlt|[Heq|Hgt]];
    [|assumption|]; exfalso.
  - eapply leb_not_ltb; [|apply (Hbelow _ Hlt)]. apply Hsa; lia.
  - eapply leb_not_ltb; [|apply (Hsb _ Hgt)]. apply Habove; lia.
Qed.

End SearchSorted.

(** The index [searchsorted] returns is a position of the array or its
    length, whatever the array holds. *)
Lemma bisect_left_range (rounds : nat) (a : list float) (v : float) :
  forall lo hi, lo <= hi -> lo <= Np.bisect_left rounds a v lo hi <= hi.
Proof.
  induction rounds as [|rounds IH]; intros lo hi Hlh; cbn [Np.bisect_left].
  - lia.
  - destruct (lo <? hi) eqn:E; [|lia].
    apply Nat.ltb_lt in E.
    assert (Hdiv : (hi - lo) / 2 < hi - lo) by (apply Nat.div_lt; lia).
    destruct (Np.less _ v).
    + pose proof (IH (S (lo + (hi - lo) / 2)) hi ltac:(lia)). lia.
    + pose proof (IH lo (lo + (hi - lo) / 2) ltac:(lia)). lia.
Qed.

Lemma searchsorted_range (a : list float) (v : float) :
  Np.searchsorted a v <= length a.
Proof.
  unfold Np.searchsorted.
  pose proof (bisect_left_range (length a) a v 0 (length a) ltac:(lia)). lia.
Qed.

(** ** One timestamp of the interpolating policies *)

Lemma pairs_nth (pairs : list (float * list float)) (i : nat) (o : float) (v : list float) :
  nth_error pairs i = Some (o, v) ->
  i < length pairs
  /\ nth i (map fst pairs) 0%float = o
  /\ index (map fst pairs) i = Ok o
  /\ index (map snd pairs) i = Ok v.
Proof.
  intros H.
  assert (Ho : nth_error (map fst pairs) i = Some o)
    by (rewrite nth_error_map, H; reflexivity).
  assert (Hv : nth_error (map snd pairs) i = Some v)
    by (rewrite nth_error_map, H; reflexivity).
  split; [apply nth_error_Some; congruence|].
  split; [apply nth_error_nth; assumption|].
  unfold index. rewrite Ho, Hv. auto.
Qed.

Lemma pairs_nth_some (pairs : list (float * list float)) (i : nat) :
  i < length pairs -> exists o v, nth_error pairs i = Some (o, v).
Proof.
  intros H. destruct (nth_error pairs i) as [[o v]|] eqn:E; [eauto|].
  apply nth_error_None in E. lia.
Qed.

Lemma last_row_index (values : list (list float)) :
  0 < length values ->
  Np.last_row values = index values (length values - 1).
Proof.
  destruct values; simpl; [lia|reflexivity].
Qed.

(** A clip with events gives a value at every timestamp, whatever the
    numbers are. *)
Lemma interpolate_total (pairs : list (float * list float)) (t : float) :
  pairs <> [] ->
  exists v, interpolate (map fst pairs) (map snd pairs) t = Ok v.
Proof.
  intros Hne.
  pose proof (searchsorted_range (map fst pairs) t) as Hr.
  assert (Hn : 0 < length pairs)
    by (destruct pairs; [congruence|simpl; lia]).
  assert (Hlo : length (map fst pairs) = length pairs) by apply length_map.
  assert (Hlv : length (map snd pairs) = length pairs) by apply length_map.
  unfold interpolate.
  set (r := Np.searchsorted (map fst pairs) t) in *.
  destruct (r =? 0) eqn:E0; [|destruct (r =? length (map snd pairs)) eqn:En].
  - destruct (pairs_nth_some pairs 0 Hn) as (o0 & v0 & H0).
    destruct (pairs_nth pairs 0 o0 v0 H0) as (_ & _ & _ & Hv0). eauto.
  - assert (Hlast : length pairs - 1 < length pairs) by lia.
    destruct (pairs_nth_some pairs _ Hlast) as (on & vn & Hpn).
    destruct (pairs_nth pairs _ on vn Hpn) as (_ & _ & _ & Hvn).
    exists vn. rewrite last_row_index, Hlv by lia. exact Hvn.
  - apply Nat.eqb_neq in E0. apply Nat.eqb_neq in En.
    assert (Hr' : r < length pairs) by lia.
    assert (Hr1 : r - 1 < length pairs) by lia.
    destruct (pairs_nth_some pairs _ Hr1) as (lower & v_lower & Hpl).
    destruct (pairs_nth_some pairs _ Hr') as (upper & v_upper & Hpu).
    destruct (pairs_nth pairs _ _ _ Hpl) as (_ & Hnl & Hol & Hvl).
    destruct (pairs_nth pairs _ _ _ Hpu) as (_ & Hnu & Hou & Hvu).
    rewrite Hol, Hou, Hvl, Hvu. simpl. eauto.
Qed.

(** The sum of the two scaled rows is the weighted mean, component by
    component. *)
Lemma add_scale_lerp (alpha : float) (v v' : list float) :
  Np.add (Np.scale (1 - alpha)%float v) (Np.scale alpha v') = lerp alpha v v'.
Proof.
  unfold lerp, Np.scale. revert v'.
  induction v as [|x v IH]; intros [|y v']; simpl; try reflexivity.
  f_equal. apply IH.
Qed.

Section Interpolate.

Variables (pairs : list (float * list float)) (t : float).
Hypothesis pairs_nonempty : pairs <> [].
Hypothesis onsets_ascending : ascending (map fst pairs).
Hypothesis t_number : number t.

Lemma interpolate_cases :
  exists v, interpolate (map fst pairs) (map snd pairs) t = Ok v /\ interpolated pairs t v.
Proof.
  destruct (searchsorted_spec (map fst pairs) t onsets_ascending t_number)
    as (Hr & Hbelow & Habove).
  assert (Hn : 0 < length pairs)
    by (destruct pairs; [congruence|simpl; lia]).
  assert (Hlo : length (map fst pairs) = length pairs) by apply length_map.
  assert (Hlv : length (map snd pairs) = length pairs) by apply length_map.
  unfold interpolate.
  set (r := Np.searchsorted (map fst pairs) t) in *.
  destruct (r =? 0) eqn:E0; [|destruct (r =? length (map snd pairs)) eqn:En].
  - apply Nat.eqb_eq in E0.
    destruct (pairs_nth_some pairs 0 Hn) as (o0 & v0 & H0).
    destruct (pairs_nth pairs 0 o0 v0 H0) as (_ & _ & _ & Hv0).
    exists v0. split; [exact Hv0|]. split; [|split].
    + intros o v Hp _. congruence.
    + intros o v Hp Hlt. exfalso.
      destruct (pairs_nth pairs _ o v Hp) as (Hi & Ho & _).
      eapply leb_not_ltb; [|exact Hlt].
      rewrite <- Ho. apply Habove;lia.
    + intros i o v o' v' Hp _ Hlt _. exfalso.
      destruct (pairs_nth pairs _ o v Hp) as (Hi & Ho & _).
      eapply leb_not_ltb; [|exact Hlt].
      rewrite <- Ho. apply Habove;lia.
  - apply Nat.eqb_neq in E0. apply Nat.eqb_eq in En.
    assert (Hlast : length pairs - 1 < length pairs) by lia.
    destruct (pairs_nth_some pairs _ Hlast) as (on & vn & Hpn).
    destruct (pairs_nth pairs _ on vn Hpn) as (_ & _ & _ & Hvn).
    exists vn. split.
    + rewrite last_row_index, Hlv by lia. exact Hvn.
    + split; [|split].
      * intros o v Hp Hle. exfalso.
        destruct (pairs_nth pairs _ o v Hp) as (Hi & Ho & _).
        eapply leb_not_ltb; [exact Hle|].
        rewrite <- Ho. apply Hbelow. lia.
      * intros o v Hp _. congruence.
      * intros i o v o' v' _ Hp' _ Hle. exfalso.
        destruct (pairs_nth pairs _ o' v' Hp') as (Hi & Ho & _).
        eapply leb_not_ltb; [exact Hle|].
        rewrite <- Ho. apply Hbelow. lia.
  - apply Nat.eqb_neq in E0. apply Nat.eqb_neq in En.
    assert (Hr' : r < length pairs) by lia.
    assert (Hr1 : r - 1 < length pairs) by lia.
    destruct (pairs_nth_some pairs _ Hr1) as (lower & v_lower & Hpl).
    destruct (pairs_nth_some pairs _ Hr') as (upper & v_upper & Hpu).
    destruct (pairs_nth pairs _ _ _ Hpl) as (_ & Hnl & Hol & Hvl).
    destruct (pairs_nth pairs _ _ _ Hpu) as (_ & Hnu & Hou & Hvu).
    rewrite Hol, Hou, Hvl, Hvu. simpl. rewrite add_scale_lerp.
    eexists. split; [reflexivity|]. split; [|split].
    + intros o v Hp Hle. exfalso.
      destruct (pairs_nth pairs _ o v Hp) as (Hi & Ho & _).
      eapply leb_not_ltb; [exact Hle|].
      rewrite <- Ho. apply Hbelow. lia.
    + intros o v Hp Hlt. exfalso.
      destruct (pairs_nth pairs _ o v Hp) as (Hi & Ho & _).
      eapply leb_not_ltb; [|exact Hlt].
      rewrite <- Ho. apply Habove;lia.
    + intros i o v o' v' Hp Hp' Hlt Hle.
      destruct (pairs_nth pairs _ o v Hp) as (Hi & Ho & _).
      destruct (pairs_nth pairs _ o' v' Hp') as (Hi' & Ho' & _).
      assert (Hri : r = S i).
      { destruct (Nat.lt_trichotomy r (S i)) as [H|[H|H]];
          [|assumption|]; exfalso.
        - eapply leb_not_ltb; [|exact Hlt].
          rewrite <- Ho. apply Habove;lia.
        - eapply leb_not_ltb; [exact Hle|].
          rewrite <- Ho'. apply Hbelow. lia. }
      subst r. rewrite Hri in *.
      replace (S i - 1) with i in * by lia.
      rewrite Hp in Hpl. rewrite Hp' in Hpu.
      injection Hpl as <- <-. injection Hpu as <- <-. reflexivity.
Qed.

End Interpolate.

(** With weight 1 the mean is its second argument, as a number. *)
Lemma lerp_one (v v' : list float) :
  Forall finite v -> Forall number v' -> length v = length v' ->
  vec_eq (lerp 1 v v') v'.
Proof.
  intros Hv. revert v'.
  induction Hv as [|x v Hx Hv IH]; intros [|y v'] Hv' Hlen; simpl in Hlen;
    try discriminate.
  - constructor.
  - inversion Hv' as [|? ? Hy Hrest]; subst.
    unfold lerp. simpl. constructor.
    + apply weighted_at_one; assumption.
    + apply IH; [assumption|lia].
Qed.

(** The weight the code computes when [t] is the upper onset. *)
Lemma weight_at_upper_onset (t lower upper : float) :
  (lower <? upper)%float = true -> (t =? upper)%float = true ->
  finite_nonzero (upper - lower)%float ->
  ((t - lower) / (upper - lower))%float = 1%float.
Proof.
  intros Hstrict Ht Hd. rewrite (sub_eqb_l t upper lower Ht Hstrict).
  apply div_same. exact Hd.
Qed.

Section InterpolateAtOnset.

Variables (pairs : list (float * list float)) (d : nat).
Hypothesis onsets_increasing : increasing (map fst pairs).
Hypothesis values_uniform : Forall (fun p => length (snd p) = d) pairs.

Lemma onsets_ascending_at (k : nat) (o : float) (v : list float) :
  nth_error pairs k = Some (o, v) -> number o ->
  ascending (map fst pairs).
Proof.
  intros Hk Ho. apply increasing_ascending; [|assumption].
  apply (increasing_numbers _ o); [assumption| |assumption].
  apply in_map_iff. exists (o, v). split; [reflexivity|].
  eapply nth_error_In. exact Hk.
Qed.

Lemma searchsorted_at_onset (t : float) (k : nat) (o : float) (v : list float) :
  nth_error pairs k = Some (o, v) -> (t =? o)%float = true ->
  Np.searchsorted (map fst pairs) t = k.
Proof.
  intros Hk Ht. destruct (pairs_nth pairs k o v Hk) as (Hlt & Ho & _).
  assert (Hno : number o) by (revert Ht; rewrite eqb_iff; tauto).
  pose proof (onsets_ascending_at k o v Hk Hno) as Hasc.
  apply searchsorted_unique.
  - assumption.
  - eapply eqb_number_l. exact Ht.
  - rewrite length_map. lia.
  - intros i Hi.
    assert (H : (nth i (map fst pairs) 0 <? o)%float = true).
    { rewrite <- Ho.
      apply (strongly_sorted_nth _ _ onsets_increasing);
        [assumption|rewrite length_map; assumption]. }
    revert H Ht. rewrite !ltb_iff, eqb_iff. intuition lia.
  - intros i Hi Hi'.
    assert (H : (o <=? nth i (map fst pairs) 0)%float = true).
    { rewrite <- Ho. apply Hasc; assumption. }
    revert H Ht. rewrite !leb_iff, eqb_iff. intuition lia.
Qed.

Lemma interpolate_at_onset (t : float) (k : nat) (o : float) (v : list float) :
  nth_error pairs k = Some (o, v) -> (t =? o)%float = true ->
  Forall number v ->
  (forall lower v_lower,
     nth_error pairs (k - 1) = Some (lower, v_lower) -> 0 < k ->
     finite_nonzero (o - lower)%float /\ Forall finite v_lower) ->
  exists v', interpolate (map fst pairs) (map snd pairs) t = Ok v'
             /\ vec_eq v' v.
Proof.
  intros Hk Ht Hv Hgap. unfold interpolate.
  rewrite (searchsorted_at_onset t k o v Hk Ht).
  destruct (pairs_nth pairs k o v Hk) as (Hlt & Ho & Hio & Hiv).
  destruct (k =? 0) eqn:E0.
  - apply Nat.eqb_eq in E0. subst k. exists v.
    split; [assumption|].
    clear - Hv. induction Hv; constructor; assumption.
  - apply Nat.eqb_neq in E0.
    replace (k =? length (map snd pairs)) with false
      by (symmetry; apply Nat.eqb_neq; rewrite length_map; lia).
    assert (Hk1 : k - 1 < length pairs) by lia.
    destruct (pairs_nth_some pairs _ Hk1) as (lower & v_lower & Hpl).
    destruct (pairs_nth pairs _ _ _ Hpl) as (_ & Hnl & Hol & Hvl).
    rewrite Hol, Hio, Hvl, Hiv. simpl. rewrite add_scale_lerp.
    eexists. split; [reflexivity|].
    assert (Hstrict : (lower <? o)%float = true).
    { rewrite <- Hnl, <- Ho.
      apply (strongly_sorted_nth _ _ onsets_increasing);
        [lia|rewrite length_map; assumption]. }
    destruct (Hgap lower v_lower Hpl ltac:(lia)) as [Hd Hfin].
    rewrite (weight_at_upper_onset t lower o Hstrict Ht Hd).
    apply lerp_one; [assumption|assumption|].
    rewrite Forall_forall in values_uniform.
    pose proof (values_uniform _ (nth_error_In _ _ Hpl)) as Hl.
    pose proof (values_uniform _ (nth_error_In _ _ Hk)) as Hu.
    simpl in Hl, Hu. congruence.
Qed.

End InterpolateAtOnset.

(** ** One clip of the continuous policy *)

Lemma asarray_uniform (rows : list (list float)) (d : nat) :
  Forall (fun r => length r = d) rows -> Np.asarray rows = Ok rows.
Proof.
  intros H. destruct rows as [|r rows]; [reflexivity|].
  inversion H as [|? ? Hr Hrows]; subst. simpl.
  replace (forallb _ rows) with true; [reflexivity|].
  symmetry. apply forallb_forall. intros r' Hr'.
  rewrite Forall_forall in Hrows. apply Nat.eqb_eq. auto.
Qed.

Lemma for_each_vectors (f : float -> result (list float)) (ts : list float) :
  (forall t, In t ts -> exists v, f t = Ok v) ->
  exists vs,
    for_each (fun t => v <- f t ;; Ok (Vector v)) ts = Ok (map Vector vs)
    /\ length vs = length ts
    /\ forall j t, nth_error ts j = Some t ->
       exists v, nth_error vs j = Some v /\ f t = Ok v.
Proof.
  induction ts as [|t0 ts IH]; intros Hall.
  - exists []. repeat split. intros [|j] t H; discriminate.
  - destruct (Hall t0 (or_introl eq_refl)) as [v0 Hv0].
    destruct IH as (vs & Hrun & Hlen & Hnth);
      [intros; apply Hall; right; assumption|].
    exists (v0 :: vs). split; [|split].
    + simpl. rewrite Hv0. simpl. rewrite Hrun. reflexivity.
    + simpl. congruence.
    + intros [|j] t Hj; simpl in Hj.
      * injection Hj as <-. exists v0. auto.
      * apply Hnth. assumption.
Qed.

Lemma continuous_extract (evs : list Event) (d : nat) :
  Forall (onset_event d) evs ->
  for_each (fun event =>
    s <- getitem (ev_start event) ;;
    v <- getitem (ev_values event) ;;
    Ok (s, v)) evs = Ok (extract_pairs evs)
  /\ length (extract_pairs evs) = length evs
  /\ Forall (fun p => length (snd p) = d) (extract_pairs evs).
Proof.
  induction 1 as [|ev l Hev Hl IH].
  - repeat split. constructor.
  - destruct IH as (Hrun & Hlen & Hdim).
    destruct Hev as (b & v & Hb & Hv & Hd).
    cbn [for_each extract_pairs flat_map]. rewrite Hb, Hv. simpl.
    fold (extract_pairs l). rewrite Hrun. simpl.
    repeat split; [congruence|]. constructor; assumption.
Qed.

Section ContinuousClip.

Variables (evs : list Event) (d : nat).
Hypothesis evs_wf : Forall (onset_event d) evs.

Lemma onset_pairs_uniform :
  Forall (fun p => length (snd p) = d) (onset_pairs evs).
Proof.
  destruct (continuous_extract evs d evs_wf) as (_ & _ & Hdim).
  rewrite Forall_forall in *. intros p Hp. apply Hdim.
  eapply Permutation_in; [apply sorted_by_key_perm|exact Hp].
Qed.

Lemma onset_pairs_length : length (onset_pairs evs) = length evs.
Proof.
  destruct (continuous_extract evs d evs_wf) as (_ & Hlen & _).
  rewrite <- Hlen.
  apply Permutation_length, sorted_by_key_perm.
Qed.

(** The round comes down to the loop over the timestamps. *)
Lemma continuous_clip_run (ts : list float) :
  continuous_clip (evs, ts)
  = for_each (fun t =>
      v <- interpolate (map fst (onset_pairs evs))
                       (map snd (onset_pairs evs)) t ;;
      Ok (Vector v)) ts.
Proof.
  destruct (continuous_extract evs d evs_wf) as (Hrun & _ & _).
  unfold continuous_clip, interpolate_clip. simpl. rewrite Hrun. simpl.
  fold (onset_pairs evs).
  rewrite (asarray_uniform _ d); [reflexivity|].
  apply Forall_map. exact onset_pairs_uniform.
Qed.

Lemma continuous_clip_spec (ts : list float) :
  evs <> [] ->
  exists vs,
    continuous_clip (evs, ts) = Ok (map Vector vs)
    /\ length vs = length ts
    /\ forall j t, nth_error ts j = Some t ->
       exists v, nth_error vs j = Some v
         /\ interpolate (map fst (onset_pairs evs))
                        (map snd (onset_pairs evs)) t = Ok v.
Proof.
  intros Hne. rewrite continuous_clip_run. apply for_each_vectors.
  intros t _. apply interpolate_total.
  intros H. apply (f_equal (@length _)) in H.
  rewrite onset_pairs_length in H. destruct evs; [congruence|discriminate].
Qed.

End ContinuousClip.

(** ** The interpolating policies *)

Section InterpolatingPolicies.

Variable set_iter : list Interval -> list Interval.

Lemma extract_pairs_numbers (evs : list Event) :
  Forall numbered_start evs ->
  Forall (fun p => number (fst p)) (extract_pairs evs).
Proof.
  induction 1 as [|ev evs Hev Hevs IH]; [constructor|].
  cbn [extract_pairs flat_map]. fold (extract_pairs evs).
  destruct (ev_start ev) as [b|] eqn:Eb; [|exact IH].
  destruct (ev_values ev) as [v|]; [|exact IH].
  simpl. constructor; [|exact IH]. simpl. apply Hev. exact Eb.
Qed.

(** C3.  Continuous policy on clips with at least one event, with numbers
    for onsets and timestamps: the (onset, value) pairs are the events'
    pairs in ascending order of onset, and the entry at [t] is the first
    value when [t] is not after the first onset, the last value when [t] is
    after the last onset, and otherwise [(1 - alpha) * v_i + alpha *
    v_(i+1)] with [alpha = (t - onset_i) / (onset_(i+1) - onset_i)] for the
    onsets that bracket [t], each operation rounded as binary64 rounds it.
    Onsets 0 and 1000 with values [0, 0] and [1, 1] give [0.5, 0.5] at 500;
    onsets 0 and 10 with values [2] and [4] give [3] at 5; onsets 0 and 5
    that both carry [3] give [3.0000000000000004] at 1, the rounded sum of
    the two rounded products. *)
Theorem continuous_interpolation :
  (forall (labels : list (list Event)) (timestamps : list (list float))
          (to_onehot : bool) (default_label : pyval),
     length labels = length timestamps ->
     Forall (fun evs => evs <> [] /\ exists d, Forall (onset_event d) evs)
            labels ->
     Forall (Forall numbered_start) labels ->
     Forall (Forall number) timestamps ->
     exists out,
       get_labels_for_timestamps set_iter labels timestamps "continuous"
         to_onehot default_label = Ok out
       /\ length out = length timestamps
       /\ forall i evs ts,
            nth_error labels i = Some evs -> nth_error timestamps i = Some ts ->
            Permutation (onset_pairs evs) (extract_pairs evs)
            /\ ascending (map fst (onset_pairs evs))
            /\ exists vs,
                 nth_error out i = Some (map Vector vs)
                 /\ length vs = length ts
                 /\ forall j t, nth_error ts j = Some t ->
                    exists v, nth_error vs j = Some v
                              /\ interpolated (onset_pairs evs) t v)
  /\ (forall to_onehot default_label,
        get_labels_for_timestamps set_iter
          [[ev_onset 0 [0; 0]%float; ev_onset 1000 [1; 1]%float]]
          [[500%float]] "continuous" to_onehot default_label
        = Ok [[Vector [0.5; 0.5]%float]])
  /\ (forall to_onehot default_label,
        get_labels_for_timestamps set_iter
          [[ev_onset 0 [2%float]; ev_onset 10 [4%float]]]
          [[5%float]] "continuous" to_onehot default_label
        = Ok [[Vector [3%float]]])
  /\ (forall to_onehot default_label,
        get_labels_for_timestamps set_iter
          [[ev_onset 0 [3%float]; ev_onset 5 [3%float]]]
          [[1%float]] "continuous" to_onehot default_label
        = Ok [[Vector [3.0000000000000004%float]]]).
Proof.
  split; [|repeat split; intros; vm_compute; reflexivity].
  intros labels timestamps to_onehot default_label Hlen Hwf Hnum Hts.
  assert (Hasc : forall evs, In evs labels ->
                   ascending (map fst (onset_pairs evs))).
  { intros evs Hin. apply sorted_by_key_ascending, extract_pairs_numbers.
    rewrite Forall_forall in Hnum. auto. }
  destruct (get_labels_per_clip set_iter labels timestamps "continuous"
              to_onehot default_label continuous_clip
              (fun evs ts b =>
                 exists vs,
                   b = map Vector vs
                   /\ length vs = length ts
                   /\ forall j t, nth_error ts j = Some t ->
                      exists v, nth_error vs j = Some v
                                /\ interpolated (onset_pairs evs) t v)
              Hlen)
    as (out & Hout & Hlen' & Hclips).
  - right. right. repeat split; reflexivity.
  - intros evs ts Hin.
    pose proof (in_combine_r _ _ _ _ Hin) as Hin_ts.
    apply in_combine_l in Hin.
    rewrite Forall_forall in Hwf.
    destruct (Hwf evs Hin) as (Hne & d & Hd).
    destruct (continuous_clip_spec evs d Hd ts Hne)
      as (vs & Hrun & Hl & Hnth).
    eexists. split; [exact Hrun|]. exists vs.
    split; [reflexivity|]. split; [assumption|].
    intros j t Hj. destruct (Hnth j t Hj) as (v & Hv & Hint).
    exists v. split; [assumption|].
    destruct (interpolate_cases (onset_pairs evs) t) as (v' & Hv' & Hcases).
    + intros H. apply (f_equal (@length _)) in H.
      rewrite (onset_pairs_length evs d Hd) in H.
      destruct evs; [congruence|discriminate].
    + apply Hasc. exact Hin.
    + rewrite Forall_forall in Hts.
      pose proof (Hts ts Hin_ts) as Hts'. rewrite Forall_forall in Hts'.
      apply Hts'. eapply nth_error_In. exact Hj.
    + congruence.
  - exists out. split; [assumption|]. split; [assumption|].
    intros i evs ts Hevs Hts'.
    split; [apply sorted_by_key_perm|].
    split; [apply Hasc; eapply nth_error_In; exact Hevs|].
    destruct (Hclips i evs ts Hevs Hts') as (b & Hb & vs & -> & Hl & Hrule).
    exists vs. auto.
Qed.

(** C4, as amended.  Continuous policy on a clip whose sorted onsets
    increase strictly, at a timestamp equal to a recorded onset: when the
    value recorded at that onset is made of numbers and, if an onset comes
    before it, the difference of the two onsets is finite and not zero and
    the value recorded before is finite, the entry equals, as a number, the
    value recorded at that onset. *)
Theorem interpolation_exact_at_onset
    (labels : list (list Event)) (timestamps : list (list float))
    (to_onehot : bool) (default_label : pyval)
    (i : nat) (evs : list Event) (ts : list float) (j : nat) (t : float)
    (k : nat) (o : float) (v : list float) :
  length labels = length timestamps ->
  Forall (fun evs => evs <> [] /\ exists d, Forall (onset_event d) evs)
         labels ->
  nth_error labels i = Some evs -> nth_error timestamps i = Some ts ->
  nth_error ts j = Some t ->
  increasing (map fst (onset_pairs evs)) ->
  nth_error (onset_pairs evs) k = Some (o, v) -> (t =? o)%float = true ->
  Forall number v ->
  (forall lower v_lower,
     nth_error (onset_pairs evs) (k - 1) = Some (lower, v_lower) -> 0 < k ->
     finite_nonzero (o - lower)%float /\ Forall finite v_lower) ->
  exists out row v',
    get_labels_for_timestamps set_iter labels timestamps "continuous"
      to_onehot default_label = Ok out
    /\ nth_error out i = Some row
    /\ nth_error row j = Some (Vector v')
    /\ vec_eq v' v.
Proof.
  intros Hlen Hwf Hevs Hts Hj Hstrict Hk Ht Hv Hgap.
  destruct (get_labels_per_clip set_iter labels timestamps "continuous"
              to_onehot default_label continuous_clip
              (fun evs ts b => continuous_clip (evs, ts) = Ok b) Hlen)
    as (out & Hout & _ & Hclips).
  - right. right. repeat split; reflexivity.
  - intros evs' ts' Hin. apply in_combine_l in Hin.
    rewrite Forall_forall in Hwf.
    destruct (Hwf evs' Hin) as (Hne & d & Hd).
    destruct (continuous_clip_spec evs' d Hd ts' Hne) as (vs & Hrun & _).
    eauto.
  - destruct (Hclips i evs ts Hevs Hts) as (row & Hrow & Hrun).
    rewrite Forall_forall in Hwf.
    destruct (Hwf evs (nth_error_In _ _ Hevs)) as (Hne & d & Hd).
    destruct (continuous_clip_spec evs d Hd ts Hne) as (vs & Hrun' & _ & Hnth).
    destruct (Hnth j t Hj) as (v' & Hv' & Hint).
    destruct (interpolate_at_onset (onset_pairs evs) d Hstrict
                (onset_pairs_uniform evs d Hd) t k o v Hk Ht Hv Hgap)
      as (v'' & Hint' & Heq).
    exists out, row, v'. repeat split; try assumption.
    + assert (row = map Vector vs) by congruence. subst row.
      rewrite nth_error_map, Hv'. reflexivity.
    + congruence.
Qed.

(** C4, as stated, fails when the difference of two onsets overflows: with
    onsets [-1e308] and [1e308] the weight at the second onset is the
    quotient of two infinities, and the entry there is NaN, not the value
    [1] recorded at that onset. *)
Lemma onset_difference_overflows :
  increasing (map fst (onset_pairs [ev_onset (-1e308) [0%float];
                                    ev_onset 1e308 [1%float]]))
  /\ nth_error (onset_pairs [ev_onset (-1e308) [0%float];
                             ev_onset 1e308 [1%float]]) 1
     = Some (1e308%float, [1%float])
  /\ forall set_iter' to_onehot default_label,
       get_labels_for_timestamps set_iter'
         [[ev_onset (-1e308) [0%float]; ev_onset 1e308 [1%float]]]
         [[1e308%float]] "continuous" to_onehot default_label
       = Ok [[Vector [nan]]]
       /\ ~ vec_eq [nan] [1%float].
Proof.
  split; [|split].
  - vm_compute. repeat constructor.
  - vm_compute. reflexivity.
  - intros set_iter' to_onehot default_label. split.
    + vm_compute. reflexivity.
    + intros H. inversion H as [|? ? ? ? Hx _]; subst.
      vm_compute in Hx. discriminate Hx.
Qed.

(** The smoothed branch never gets past its read of [values]. *)
Lemma smoothed_clip_raises (clip : list Event * list float) :
  exists e, smoothed_clip clip = Raise e.
Proof.
  unfold smoothed_clip. destruct (for_each _ (fst clip)); simpl; eauto.
Qed.

(** The smoothed policy gives a result only when there is no clip. *)
Lemma smoothed_policy_raises (labels : list (list Event))
    (timestamps : list (list float)) (to_onehot : bool) (default_label : pyval)
    (out : list (list entry)) :
  get_labels_for_timestamps set_iter labels timestamps "smoothed" to_onehot
    default_label = Ok out ->
  labels = [] /\ out = [].
Proof.
  unfold get_labels_for_timestamps.
  destruct (length labels =? length timestamps) eqn:E; [|discriminate].
  apply Nat.eqb_eq in E. simpl.
  destruct labels as [|evs labels]; destruct timestamps as [|ts timestamps];
    try discriminate.
  - simpl. intros H. injection H as <-. auto.
  - cbn [combine for_each].
    destruct (smoothed_clip_raises (evs, ts)) as [e ->]. discriminate.
Qed.

(** C5.  A clip with one event that carries a label and a value, aligned at
    its onset: the continuous policy returns the value, the smoothed policy
    stops with [UnboundLocalError] at its read of [values]. *)
Theorem smoothed_reads_unbound_values (to_onehot : bool)
    (default_label : pyval) :
  get_labels_for_timestamps set_iter
    [[mkEvent (Some 0%float) (Some 100%float) (Some "a") (Some [1%float])]]
    [[0%float]]
    "smoothed" to_onehot default_label = Raise UnboundLocalError
  /\ get_labels_for_timestamps set_iter
       [[mkEvent (Some 0%float) (Some 100%float) (Some "a") (Some [1%float])]]
       [[0%float]]
       "continuous" to_onehot default_label = Ok [[Vector [1%float]]].
Proof.
  split; reflexivity.
Qed.

(** C9.  A policy name other than "default", "smoothed" and "continuous":
    the call raises and returns no sequence; on inputs that pass the entry
    assertion the exception is the one of the final [else] branch. *)
Theorem unsupported_policy_raises
    (labels : list (list Event)) (timestamps : list (list float))
    (mode : string) (to_onehot : bool) (default_label : pyval) :
  mode <> "default" -> mode <> "smoothed" -> mode <> "continuous" ->
  (exists e,
     get_labels_for_timestamps set_iter labels timestamps mode to_onehot
       default_label = Raise e)
  /\ (length labels = length timestamps ->
      get_labels_for_timestamps set_iter labels timestamps mode to_onehot
        default_label = Raise TypeError).
Proof.
  intros Hd Hs Hc. unfold get_labels_for_timestamps.
  apply String.eqb_neq in Hd, Hs, Hc. rewrite Hd, Hs, Hc.
  destruct (length labels =? length timestamps) eqn:E; simpl.
  - split; [eauto|reflexivity].
  - split; [eauto|]. intros H. apply Nat.eqb_neq in E. contradiction.
Qed.

(** C10, as amended.  Continuous policy, a clip without events and with at
    least one timestamp: the call raises; when that clip is the only one,
    the exception is the [IndexError] of [values[0]]. *)
Theorem continuous_empty_clip_fails
    (labels : list (list Event)) (timestamps : list (list float))
    (to_onehot : bool) (default_label : pyval) (i : nat) (ts : list float) :
  nth_error labels i = Some [] -> nth_error timestamps i = Some ts ->
  ts <> [] ->
  (exists e,
     get_labels_for_timestamps set_iter labels timestamps "continuous"
       to_onehot default_label = Raise e)
  /\ get_labels_for_timestamps set_iter [[]] [ts] "continuous" to_onehot
       default_label = Raise IndexError.
Proof.
  intros Hevs Hts Hne.
  assert (Hclip : continuous_clip ([], ts) = Raise IndexError).
  { destruct ts; [congruence|reflexivity]. }
  split.
  - destruct (Nat.eq_dec (length labels) (length timestamps)) as [Hlen|Hlen].
    + rewrite (get_labels_unfold set_iter labels timestamps "continuous"
                 to_onehot default_label continuous_clip Hlen).
      * apply (for_each_raises continuous_clip _ ([], ts) IndexError);
          [|assumption].
        eapply nth_error_In. apply nth_error_combine; eassumption.
      * right. right. repeat split; reflexivity.
    + unfold get_labels_for_timestamps. apply Nat.eqb_neq in Hlen.
      rewrite Hlen. simpl. eauto.
  - unfold get_labels_for_timestamps. cbn [length Nat.eqb assert bind].
    cbn [String.eqb Ascii.eqb Bool.eqb combine for_each].
    rewrite Hclip. reflexivity.
Qed.

End InterpolatingPolicies.

(** C10, as stated, fails on a clip that has neither events nor timestamps:
    the loop over the timestamps does not run and the clip gets the empty
    sequence. *)
Lemma continuous_empty_clip_without_timestamps :
  get_labels_for_timestamps identity_order [[]] [[]] "continuous" false PyNone
  = Ok [[]].
Proof. reflexivity. Qed.

(** ** The split consolidator *)

Lemma total_rows_perm (metadata : Metadata) (files files' : list File) :
  Permutation files files' ->
  total_rows metadata files = total_rows metadata files'.
Proof.
  induction 1; simpl; lia.
Qed.

Lemma event_not_scene (metadata : Metadata) :
  is_event_or_continuous metadata = true ->
  (embedding_type metadata =? "scene")%string = false.
Proof.
  unfold is_event_or_continuous. intros H.
  apply orb_true_iff in H as [H|H]; apply String.eqb_eq in H; rewrite H;
    reflexivity.
Qed.

Section ScenePasses.

Variables (metadata : Metadata) (D : nat).
Hypothesis is_scene : embedding_type metadata = "scene".

Lemma scene_row_count (f : File) : row_count metadata f = 1.
Proof. unfold row_count. rewrite is_scene. reflexivity. Qed.

Lemma scene_total_rows (files : list File) :
  total_rows metadata files = length files.
Proof.
  induction files as [|f files IH]; simpl; [reflexivity|].
  rewrite scene_row_count, IH. reflexivity.
Qed.

Lemma sizing_step_scene (f : File) (n : nat) (d0 : option nat) :
  scene_file metadata D f ->
  sizing_step metadata (n, d0) f = Ok (n + 1, Some D).
Proof.
  intros (dt & labels & Hemb & _). unfold sizing_step.
  rewrite Hemb, is_scene. reflexivity.
Qed.

Lemma sizing_loop_scene (files : list File) :
  Forall (scene_file metadata D) files ->
  forall n d0,
    sizing_loop metadata (n, d0) files
    = Ok (n + length files, match files with [] => d0 | _ => Some D end).
Proof.
  induction 1 as [|f files Hf Hfiles IH]; intros n d0;
    cbn [sizing_loop length].
  - rewrite Nat.add_0_r. reflexivity.
  - rewrite (sizing_step_scene f n d0 Hf). cbn [bind]. rewrite IH.
    f_equal. f_equal; [lia|]. destruct files; reflexivity.
Qed.

Lemma fill_step_scene (N : nat) (f : File) (idx : nat) (labels : list json)
    (stamps : list (string * json)) :
  scene_file metadata D f -> idx < N ->
  exists lbl,
    fill_step metadata N D (idx, labels, stamps) f
    = Ok (idx + 1, labels ++ [lbl], stamps).
Proof.
  intros (dt & ls & Hemb & Hlbl & Hcard) Hidx. exists (JList ls).
  unfold fill_step. rewrite Hemb, Hlbl, is_scene. simpl.
  apply Nat.ltb_lt in Hidx. rewrite Hidx, Nat.eqb_refl. simpl.
  destruct (prediction_type metadata =? "multiclass")%string eqn:E.
  - apply String.eqb_eq in E. rewrite (Hcard E). reflexivity.
  - destruct (prediction_type metadata =? "multilabel")%string; reflexivity.
Qed.

Lemma fill_loop_scene (N : nat) (files : list File) :
  Forall (scene_file metadata D) files ->
  forall idx labels stamps,
    idx + length files <= N ->
    exists labels',
      fill_loop metadata N D (idx, labels, stamps) files
      = Ok (idx + length files, labels', stamps)
      /\ length labels' = length labels + length files.
Proof.
  induction 1 as [|f files Hf Hfiles IH]; intros idx labels stamps Hfit;
    cbn [fill_loop length] in *.
  - exists labels. rewrite !Nat.add_0_r. auto.
  - destruct (fill_step_scene N f idx labels stamps Hf) as [lbl Hstep];
      [lia|].
    destruct (IH (idx + 1) (labels ++ [lbl]) stamps) as (labels' & Hrun & Hlen);
      [lia|].
    exists labels'. rewrite Hstep. cbn [bind]. rewrite Hrun. split.
    + do 2 f_equal. f_equal. lia.
    + rewrite Hlen, length_app. simpl. lia.
Qed.

End ScenePasses.

Section TimestampPasses.

Variables (metadata : Metadata) (D : nat).
Hypothesis is_event : is_event_or_continuous metadata = true.

Lemma timestamp_row_count (f : File) (dt : dtype) (rows : nat) :
  embedding_npy f = Some (mkArray dt [rows; D]) ->
  row_count metadata f = rows.
Proof.
  intros H. unfold row_count.
  rewrite (event_not_scene metadata is_event), H. reflexivity.
Qed.

Lemma sizing_step_timestamp (f : File) (n : nat) (d0 : option nat) :
  timestamp_file D f ->
  sizing_step metadata (n, d0) f = Ok (n + row_count metadata f, Some D).
Proof.
  intros (dt & rows & labels & stamps & Hemb & _).
  rewrite (timestamp_row_count f dt rows Hemb). unfold sizing_step.
  rewrite Hemb, (event_not_scene metadata is_event), is_event. reflexivity.
Qed.

Lemma sizing_loop_timestamp (files : list File) :
  Forall (timestamp_file D) files ->
  forall n d0,
    sizing_loop metadata (n, d0) files
    = Ok (n + total_rows metadata files,
          match files with [] => d0 | _ => Some D end).
Proof.
  induction 1 as [|f files Hf Hfiles IH]; intros n d0;
    cbn [sizing_loop total_rows fold_right].
  - rewrite Nat.add_0_r. reflexivity.
  - rewrite (sizing_step_timestamp f n d0 Hf). cbn [bind]. rewrite IH.
    fold (total_rows metadata files).
    f_equal. f_equal; [lia|]. destruct files; reflexivity.
Qed.

Lemma fill_step_timestamp (N : nat) (f : File) (idx : nat)
    (labels : list json) (stamps : list (string * json)) :
  timestamp_file D f -> idx + row_count metadata f <= N ->
  exists items pairs,
    fill_step metadata N D (idx, labels, stamps) f
    = Ok (idx + row_count metadata f, labels ++ items, stamps ++ pairs)
    /\ length items = row_count metadata f
    /\ length pairs = row_count metadata f.
Proof.
  intros (dt & rows & ls & tl & Hemb & Hlbl & Hts & Hls & Htl).
  rewrite (timestamp_row_count f dt rows Hemb). intros Hfit.
  exists ls, (map (fun timestamp => (slug f, timestamp)) tl).
  split; [|split; [assumption|rewrite length_map; assumption]].
  unfold fill_step.
  rewrite Hemb, Hlbl, Hts, (event_not_scene metadata is_event), is_event.
  cbn [bind open_file assert arr_ndim arr_shape length Nat.eqb index
       nth_error Json.len Json.iter].
  replace (Nat.min (idx + rows) N - Nat.min idx N) with rows by lia.
  unfold broadcasts. rewrite Hls, Htl, !Nat.eqb_refl. reflexivity.
Qed.

Lemma fill_loop_timestamp (N : nat) (files : list File) :
  Forall (timestamp_file D) files ->
  forall idx labels stamps,
    idx + total_rows metadata files <= N ->
    exists labels' stamps',
      fill_loop metadata N D (idx, labels, stamps) files
      = Ok (idx + total_rows metadata files, labels', stamps')
      /\ length labels' = length labels + total_rows metadata files
      /\ length stamps' = length stamps + total_rows metadata files.
Proof.
  induction 1 as [|f files Hf Hfiles IH]; intros idx labels stamps Hfit;
    cbn [fill_loop total_rows fold_right] in *.
  - exists labels, stamps. rewrite !Nat.add_0_r. auto.
  - fold (total_rows metadata files) in *.
    destruct (fill_step_timestamp N f idx labels stamps Hf)
      as (items & pairs & Hstep & Hitems & Hpairs); [lia|].
    destruct (IH (idx + row_count metadata f) (labels ++ items)
                 (stamps ++ pairs))
      as (labels' & stamps' & Hrun & Hlen & Hlen'); [lia|].
    exists labels', stamps'. rewrite Hstep. cbn [bind]. rewrite Hrun.
    split; [|split].
    + do 2 f_equal. f_equal. lia.
    + rewrite Hlen, length_app. lia.
    + rewrite Hlen', length_app. lia.
Qed.

End TimestampPasses.

(** ** Pass 1 in closed form *)

Section SizingPass.

Variable metadata : Metadata.
Hypothesis type_known : known_embedding_type metadata.

(** A round of pass 1 fails exactly on a missing file or a wrong rank;
    element type and column count never stop it. *)
Lemma sizing_step_closed (f : File) (n : nat) (d0 : option nat) :
  sizing_step metadata (n, d0) f
  = if rank_ok metadata f
    then Ok (n + row_count metadata f, Some (columns f))
    else Raise AssertionError.
Proof.
  unfold sizing_step, rank_ok, row_count, columns, expected_rank.
  destruct (embedding_npy f) as [[dt sh]|]; [|reflexivity].
  destruct type_known as [Hscene|Hevent].
  - rewrite Hscene. cbn.
    destruct sh as [|d [|d' sh]]; reflexivity.
  - rewrite (event_not_scene metadata Hevent), Hevent. cbn.
    destruct sh as [|r [|d [|d' sh]]]; reflexivity.
Qed.

Lemma sizing_loop_closed (files : list File) :
  forall n d0,
    sizing_loop metadata (n, d0) files
    = if forallb (rank_ok metadata) files
      then Ok (n + total_rows metadata files,
               match files with
               | [] => d0
               | _ => Some (columns (last files (mkFile "" None None None)))
               end)
      else Raise AssertionError.
Proof.
  induction files as [|f files IH]; intros n d0;
    cbn [sizing_loop forallb total_rows fold_right].
  - rewrite Nat.add_0_r. reflexivity.
  - fold (total_rows metadata files).
    rewrite sizing_step_closed.
    destruct (rank_ok metadata f); [|reflexivity].
    cbn [bind andb]. rewrite IH.
    destruct (forallb (rank_ok metadata) files); [|reflexivity].
    f_equal. f_equal; [lia|]. destruct files; reflexivity.
Qed.

Lemma sizing_pass_closed (files : list File) :
  sizing_pass metadata files
  = if forallb (rank_ok metadata) files
    then match files with
         | [] => Raise UnboundLocalError
         | _ => Ok (total_rows metadata files,
                    columns (last files (mkFile "" None None None)))
         end
    else Raise AssertionError.
Proof.
  unfold sizing_pass. rewrite sizing_loop_closed.
  destruct (forallb (rank_ok metadata) files); [|reflexivity].
  destruct files; reflexivity.
Qed.

End SizingPass.

(** ** What a completed pass has counted *)

Ltac bind_inv H :=
  match type of H with
  | bind ?m _ = Ok _ =>
      let a := fresh "a" in
      let E := fresh "E" in
      destruct m as [a|] eqn:E; cbn [bind] in H; [|discriminate H]
  end.

Lemma assert_ok (c : bool) (u : unit) : assert c = Ok u -> c = true.
Proof. destruct c; [reflexivity|discriminate]. Qed.

Lemma index_0_hd (sh : list nat) (n : nat) : index sh 0 = Ok n -> hd 0 sh = n.
Proof.
  destruct sh; unfold index; simpl; [discriminate|]. congruence.
Qed.

Lemma json_iter_len (x : json) (n : nat) (items : list json) :
  Json.len x = Ok n -> Json.iter x = Ok items -> length items = n.
Proof.
  destruct x; simpl; intros H H'; try discriminate;
    injection H as <-; injection H' as <-.
  - rewrite length_map. induction s; simpl; congruence.
  - reflexivity.
  - apply length_map.
Qed.

Lemma sizing_step_counts (metadata : Metadata) (f : File) (n : nat)
    (d0 : option nat) (n' : nat) (d' : option nat) :
  sizing_step metadata (n, d0) f = Ok (n', d') ->
  n' = n + row_count metadata f.
Proof.
  unfold sizing_step, row_count. intros H.
  bind_inv H. bind_inv H. unfold open_file in E0.
  destruct (embedding_npy f) as [emb|]; [|discriminate]. injection E0 as <-.
  destruct (embedding_type metadata =? "scene")%string.
  - repeat bind_inv H. injection H as <- _. reflexivity.
  - destruct (is_event_or_continuous metadata); [|discriminate].
    repeat bind_inv H. injection H as <- _.
    apply index_0_hd in E1. simpl in E1. congruence.
Qed.

Lemma sizing_loop_counts (metadata : Metadata) (files : list File) :
  forall n d0 n' d',
    sizing_loop metadata (n, d0) files = Ok (n', d') ->
    n' = n + total_rows metadata files.
Proof.
  induction files as [|f files IH]; intros n d0 n' d' H;
    cbn [sizing_loop total_rows fold_right] in *.
  - injection H as <- _. lia.
  - fold (total_rows metadata files). bind_inv H. destruct a as [n1 d1].
    apply sizing_step_counts in E. apply IH in H. lia.
Qed.

Lemma fill_step_counts (metadata : Metadata) (N D : nat) (f : File)
    (idx : nat) (labels : list json) (stamps : list (string * json))
    (idx' : nat) (labels' : list json) (stamps' : list (string * json)) :
  fill_step metadata N D (idx, labels, stamps) f = Ok (idx', labels', stamps') ->
  idx' = idx + row_count metadata f
  /\ length labels' = length labels + row_count metadata f
  /\ (if is_event_or_continuous metadata
      then length stamps' = length stamps + row_count metadata f
      else stamps' = stamps).
Proof.
  unfold fill_step, row_count. intros H.
  bind_inv H. bind_inv H. unfold open_file in E.
  destruct (embedding_npy f) as [emb|]; [|discriminate]. injection E as ->.
  destruct (embedding_type metadata =? "scene")%string eqn:Escene.
  - repeat bind_inv H. injection H as <- <- <-.
    rewrite length_app. simpl.
    unfold is_event_or_continuous. apply String.eqb_eq in Escene.
    rewrite Escene. simpl. auto.
  - destruct (is_event_or_continuous metadata) eqn:Eevent; [|discriminate].
    repeat bind_inv H. injection H as <- <- <-.
    apply index_0_hd in E1. rewrite E1.
    apply assert_ok, Nat.eqb_eq in E5, E10.
    rewrite !length_app, length_map.
    rewrite (json_iter_len _ _ _ E4 E6), (json_iter_len _ _ _ E9 E8).
    rewrite <- E5, <- E10. auto.
Qed.

Lemma fill_loop_counts (metadata : Metadata) (N D : nat) (files : list File) :
  forall idx labels stamps idx' labels' stamps',
    fill_loop metadata N D (idx, labels, stamps) files
    = Ok (idx', labels', stamps') ->
    idx' = idx + total_rows metadata files
    /\ length labels' = length labels + total_rows metadata files
    /\ (if is_event_or_continuous metadata
        then length stamps' = length stamps + total_rows metadata files
        else stamps' = stamps).
Proof.
  induction files as [|f files IH];
    intros idx labels stamps idx' labels' stamps' H;
    cbn [fill_loop total_rows fold_right] in *.
  - injection H as <- <- <-. rewrite !Nat.add_0_r.
    destruct (is_event_or_continuous metadata); auto.
  - fold (total_rows metadata files). bind_inv H.
    destruct a as [[idx1 labels1] stamps1].
    apply fill_step_counts in E as (-> & Hl1 & Hs1).
    apply IH in H as (-> & Hl & Hs).
    split; [lia|]. split; [lia|].
    destruct (is_event_or_continuous metadata); [lia|congruence].
Qed.

Lemma sizing_pass_counts (metadata : Metadata) (files : list File)
    (N D : nat) :
  sizing_pass metadata files = Ok (N, D) -> N = total_rows metadata files.
Proof.
  unfold sizing_pass. intros H. bind_inv H. destruct a as [n d].
  apply sizing_loop_counts in E. simpl in H.
  destruct d; [|discriminate]. injection H as <- _. assumption.
Qed.

(** ** The consolidated split *)

Section Consolidation.

Variable shuffle : list File -> list File.
Hypothesis shuffle_perm : forall l, Permutation (shuffle l) l.

Lemma shuffle_nonempty (files : list File) : files <> [] -> shuffle files <> [].
Proof.
  intros Hne H. apply Hne. apply Permutation_nil.
  rewrite <- H. apply shuffle_perm.
Qed.

Lemma shuffle_Forall (P : File -> Prop) (files : list File) :
  Forall P files -> Forall P (shuffle files).
Proof.
  intros H. eapply Permutation_Forall; [|exact H].
  symmetry. apply shuffle_perm.
Qed.

Lemma shuffle_total_rows (metadata : Metadata) (files : list File) :
  total_rows metadata (shuffle files) = total_rows metadata files.
Proof. apply total_rows_perm, shuffle_perm. Qed.

Lemma memmap_rows (n d : nat) : 0 < n * d -> Np.memmap (n, d) = Ok tt.
Proof.
  intros H. unfold Np.memmap. simpl fst. simpl snd.
  destruct (n * d) eqn:E; [lia|reflexivity].
Qed.

Lemma memmap_no_rows (n d : nat) : n * d = 0 -> Np.memmap (n, d) = Raise ValueError.
Proof.
  intros H. unfold Np.memmap. simpl fst. simpl snd. rewrite H. reflexivity.
Qed.

Lemma memmap_ok_inv (n d : nat) (u : unit) :
  Np.memmap (n, d) = Ok u -> 0 < n * d.
Proof.
  unfold Np.memmap. simpl fst. simpl snd.
  destruct (n * d) eqn:E; [discriminate|lia].
Qed.

(** C6, as amended.  On a split with at least one file whose per-file
    artifacts agree, the sizing pass reports the sum of the per-file row
    counts (1 per file for scene, the first extent of the embedding for
    event and continuous) and the column count.  When that sum and the
    column count are positive, the fill pass ends with that many rows
    written and that many labels, and for event and continuous with that
    many (file, timestamp) pairs; when one of them is zero the map cannot be
    made and consolidation stops with [ValueError].  The same counts hold
    whenever consolidation completes, on any split.  Three files of shape
    (10, 128) in an event split are sized as (30, 128). *)
Theorem consolidation_counts :
  (forall (metadata : Metadata) (D : nat) (files : list File),
     files <> [] -> consistent_split metadata D files ->
     sizing_pass metadata (shuffle files)
     = Ok (total_rows metadata files, D)
     /\ (0 < total_rows metadata files * D ->
         exists out,
           memmap_embeddings shuffle metadata files = Ok out
           /\ embedding_dimensions out = (total_rows metadata files, D)
           /\ rows_filled out = total_rows metadata files
           /\ length (target_labels out) = total_rows metadata files
           /\ (is_event_or_continuous metadata = true ->
               exists stamps,
                 filename_timestamps out = Some stamps
                 /\ length stamps = total_rows metadata files))
     /\ (total_rows metadata files * D = 0 ->
         memmap_embeddings shuffle metadata files = Raise ValueError))
  /\ (forall (metadata : Metadata) (files : list File) (out : Consolidated),
        memmap_embeddings shuffle metadata files = Ok out ->
        sizing_pass metadata (shuffle files) = Ok (embedding_dimensions out)
        /\ fst (embedding_dimensions out) = total_rows metadata files
        /\ 0 < total_rows metadata files * snd (embedding_dimensions out)
        /\ rows_filled out = total_rows metadata files
        /\ length (target_labels out) = total_rows metadata files
        /\ (is_event_or_continuous metadata = true ->
            exists stamps,
              filename_timestamps out = Some stamps
              /\ length stamps = total_rows metadata files))
  /\ (forall prediction,
        sizing_pass (mkMetadata "event" prediction)
          (shuffle [event_file "a" 10 128; event_file "b" 10 128;
                    event_file "c" 10 128])
        = Ok (30, 128)).
Proof.
  assert (Hgen : forall metadata D files,
             files <> [] -> consistent_split metadata D files ->
             sizing_pass metadata (shuffle files)
             = Ok (total_rows metadata files, D)
             /\ (0 < total_rows metadata files * D ->
                 exists out,
                   memmap_embeddings shuffle metadata files = Ok out
                   /\ embedding_dimensions out = (total_rows metadata files, D)
                   /\ rows_filled out = total_rows metadata files
                   /\ length (target_labels out) = total_rows metadata files
                   /\ (is_event_or_continuous metadata = true ->
                       exists stamps,
                         filename_timestamps out = Some stamps
                         /\ length stamps = total_rows metadata files))
             /\ (total_rows metadata files * D = 0 ->
                 memmap_embeddings shuffle metadata files = Raise ValueError)).
  { intros metadata D files Hne Hsplit.
    pose proof (shuffle_nonempty files Hne) as Hne'.
    pose proof (shuffle_total_rows metadata files) as Hrows.
    assert (Hnone : forall N, sizing_pass metadata (shuffle files) = Ok (N, D) ->
              N * D = 0 ->
              memmap_embeddings shuffle metadata files = Raise ValueError).
    { intros N Hsize H0. unfold memmap_embeddings. rewrite Hsize. cbn [bind].
      rewrite (memmap_no_rows _ _ H0). reflexivity. }
    destruct Hsplit as [[Hscene Hfiles]|[Hevent Hfiles]];
      apply shuffle_Forall in Hfiles.
    - assert (Hsize : sizing_pass metadata (shuffle files)
                      = Ok (total_rows metadata files, D)).
      { unfold sizing_pass.
        rewrite (sizing_loop_scene metadata D Hscene _ Hfiles). simpl.
        rewrite <- Hrows, (scene_total_rows metadata Hscene).
        destruct (shuffle files); [congruence|reflexivity]. }
      split; [exact Hsize|]. split; [|apply Hnone; exact Hsize].
      intros Hpos.
      destruct (fill_loop_scene metadata D Hscene
                  (total_rows metadata files) _ Hfiles 0 [] [])
        as (labels & Hfill & Hlen).
      { rewrite <- Hrows, (scene_total_rows metadata Hscene). simpl. lia. }
      assert (Hnot : is_event_or_continuous metadata = false).
      { unfold is_event_or_continuous. rewrite Hscene. reflexivity. }
      unfold memmap_embeddings. rewrite Hsize. cbn [bind].
      rewrite (memmap_rows _ _ Hpos). cbn [bind].
      rewrite Hfill. cbn [bind]. rewrite Hnot.
      eexists. split; [reflexivity|]. cbn.
      rewrite <- Hrows, (scene_total_rows metadata Hscene).
      repeat split; try assumption. congruence.
    - assert (Hsize : sizing_pass metadata (shuffle files)
                      = Ok (total_rows metadata files, D)).
      { unfold sizing_pass.
        rewrite (sizing_loop_timestamp metadata D Hevent _ Hfiles). simpl.
        rewrite Hrows. destruct (shuffle files); [congruence|reflexivity]. }
      split; [exact Hsize|]. split; [|apply Hnone; exact Hsize].
      intros Hpos.
      destruct (fill_loop_timestamp metadata D Hevent
                  (total_rows metadata files) _ Hfiles 0 [] [])
        as (labels & stamps & Hfill & Hlen & Hlen').
      { rewrite Hrows. simpl. lia. }
      unfold memmap_embeddings. rewrite Hsize. cbn [bind].
      rewrite (memmap_rows _ _ Hpos). cbn [bind].
      rewrite Hfill. cbn [bind]. rewrite Hevent.
      rewrite Hrows in Hlen, Hlen'. simpl in Hlen, Hlen'.
      rewrite Hlen, Hlen', Nat.eqb_refl. cbn [assert bind].
      eexists. split; [reflexivity|]. cbn.
      repeat split; try assumption.
      intros _. exists stamps. auto. }
  split; [exact Hgen|]. split.
  { intros metadata files out H. unfold memmap_embeddings in H.
    bind_inv H. destruct a as [N D]. bind_inv H. bind_inv H.
    destruct a0 as [[idx labels] stamps].
    pose proof (sizing_pass_counts _ _ _ _ E) as HN.
    rewrite shuffle_total_rows in HN.
    apply memmap_ok_inv in E0.
    apply fill_loop_counts in E1 as (Hidx & Hlabels & Hstamps).
    rewrite shuffle_total_rows in Hidx, Hlabels, Hstamps.
    simpl in Hidx, Hlabels.
    destruct (is_event_or_continuous metadata).
    - bind_inv H. injection H as <-. simpl.
      repeat split; try congruence.
      intros _. exists stamps. simpl in Hstamps. auto.
    - injection H as <-. simpl. repeat split; congruence. }
  intros prediction.
  apply (Hgen (mkMetadata "event" prediction) 128
           [event_file "a" 10 128; event_file "b" 10 128;
            event_file "c" 10 128]).
  - discriminate.
  - right. split; [reflexivity|].
    repeat constructor;
      (exists Float32, 10, (repeat JNull 10), (repeat JNull 10);
       repeat split; reflexivity).
Qed.

(** C7, as amended.  In a split of a known embedding type pass 1 checks of
    each embedding that its file is there and that its rank is the one of
    the type; the first failure is an [AssertionError], and consolidation
    stops with it before the second pass.  When every file passes, the
    pass reports the sum of the row counts and the column count of the
    last file, whatever the element types and the other column counts. *)
Theorem sizing_pass_validation (metadata : Metadata) (files : list File) :
  known_embedding_type metadata ->
  sizing_pass metadata files
  = (if forallb (rank_ok metadata) files
     then match files with
          | [] => Raise UnboundLocalError
          | _ => Ok (total_rows metadata files,
                     columns (last files (mkFile "" None None None)))
          end
     else Raise AssertionError)
  /\ (forall e, sizing_pass metadata (shuffle files) = Raise e ->
      memmap_embeddings shuffle metadata files = Raise e).
Proof.
  intros Hknown. split.
  - apply sizing_pass_closed. assumption.
  - intros e He. unfold memmap_embeddings. rewrite He. reflexivity.
Qed.

End Consolidation.

(** C7, as stated, fails: an event split whose first file is 64-bit with 2
    columns and whose second file has 3 columns passes the sizing pass,
    which reports 3 columns. *)
Lemma sizing_pass_accepts_mixed_files :
  sizing_pass (mkMetadata "event" "multilabel")
    [mkFile "a" (Some (mkArray Float64 [1; 2])) (Some (json_list 1))
            (Some (json_list 1));
     mkFile "b" (Some (mkArray Float32 [1; 3])) (Some (json_list 1))
            (Some (json_list 1))]
  = Ok (2, 3).
Proof. reflexivity. Qed.

(** The same split stops in pass 2, at the copy of the first file into the
    map. *)
Lemma mixed_files_stop_in_fill_pass :
  memmap_embeddings identity_order (mkMetadata "event" "multilabel")
    [mkFile "a" (Some (mkArray Float64 [1; 2])) (Some (json_list 1))
            (Some (json_list 1));
     mkFile "b" (Some (mkArray Float32 [1; 3])) (Some (json_list 1))
            (Some (json_list 1))]
  = Raise ValueError.
Proof. reflexivity. Qed.

(** C8.  A scene split whose prediction type is neither "multiclass" nor
    "multilabel": the fill pass takes the label file as it is, here one with
    two labels, and consolidation completes. *)
Theorem scene_unknown_prediction_type_passes (prediction : string) :
  prediction <> "multiclass" -> prediction <> "multilabel" ->
  memmap_embeddings identity_order (mkMetadata "scene" prediction)
    [mkFile "clip" (Some (f32 [4])) (Some (JList [JStr "a"; JStr "b"])) None]
  = Ok (mkConsolidated (1, 4) 1 [JList [JStr "a"; JStr "b"]] None).
Proof.
  intros Hmc Hml. apply String.eqb_neq in Hmc, Hml.
  unfold memmap_embeddings, identity_order.
  cbn -[String.eqb]. rewrite Hmc, Hml. reflexivity.
Qed.

(** The two checks of the scene branch that are in force. *)
Lemma scene_multiclass_cardinality (N D idx : nat) (labels : list json)
    (stamps : list (string * json)) (name : string) (emb : ndarray)
    (ls : list json) :
  arr_shape emb = [D] -> idx < N -> length ls <> 1 ->
  fill_step (mkMetadata "scene" "multiclass") N D (idx, labels, stamps)
    (mkFile name (Some emb) (Some (JList ls)) None)
  = Raise AssertionError.
Proof.
  intros Hshape Hidx Hlen. destruct emb as [dt sh]. simpl in Hshape. subst sh.
  apply Nat.ltb_lt in Hidx. apply Nat.eqb_neq in Hlen.
  unfold fill_step.
  cbn [embedding_npy target_labels_json open_file bind embedding_type
       prediction_type arr_ndim arr_shape length index nth_error assert
       Json.len String.eqb Ascii.eqb Bool.eqb].
  rewrite Hidx, !Nat.eqb_refl, Hlen. reflexivity.
Qed.

Lemma scene_multilabel_any_length (N D idx : nat) (labels : list json)
    (stamps : list (string * json)) (name : string) (emb : ndarray)
    (ls : list json) :
  arr_shape emb = [D] -> idx < N ->
  fill_step (mkMetadata "scene" "multilabel") N D (idx, labels, stamps)
    (mkFile name (Some emb) (Some (JList ls)) None)
  = Ok (idx + 1, labels ++ [JList ls], stamps).
Proof.
  intros Hshape Hidx. destruct emb as [dt sh]. simpl in Hshape. subst sh.
  apply Nat.ltb_lt in Hidx.
  unfold fill_step.
  cbn [embedding_npy target_labels_json open_file bind embedding_type
       prediction_type arr_ndim arr_shape length index nth_error assert
       Json.is_list String.eqb Ascii.eqb Bool.eqb].
  rewrite Hidx, !Nat.eqb_refl. reflexivity.
Qed.

(** The spec's scenario for the default policy with [to_onehot]: at 750 the
    entry is the label chosen at 500, not the default label. *)
Example onehot_scenario :
  get_labels_for_timestamps identity_order [[ev_interval 0 500 "dog"]]
    [[0; 250; 500; 750]%float] "default" true (PyStr "silence")
  = Ok [[Labels [PyStr "dog"]; Labels [PyStr "dog"]; Labels [PyStr "dog"];
         Labels [PyStr "dog"]]].
Proof. reflexivity. Qed.

(** The widening is a rounded sum.  With an end of 500 the widened end is
    the double [500.0001] itself: the timestamp [500.0001] lies outside the
    interval that ends at 500 and inside the one that ends at 1000. *)
Example widened_end_is_rounded :
  get_labels_for_timestamps identity_order
    [[ev_interval 0 500 "a"; ev_interval 0 1000 "b"]] [[500.0001%float]]
    "default" false PyNone
  = Ok [[Labels [PyStr "b"]]].
Proof. reflexivity. Qed.

(** At an end of [2^40] the widening is lost in the rounding, and the end
    itself is not covered. *)
Example large_end_is_not_covered :
  get_labels_for_timestamps identity_order
    [[ev_interval 0 1099511627776 "a"]] [[1099511627776%float]]
    "default" false PyNone
  = Ok [[Labels []]].
Proof. reflexivity. Qed.

(** An event that starts at the double [500.0001] and ends at 500 is refused
    by the tree: its widened end is its start. *)
Example rounded_span_is_null :
  get_labels_for_timestamps identity_order
    [[ev_interval 500.0001 500 "a"]] [[0%float]] "default" false PyNone
  = Raise ValueError.
Proof. reflexivity. Qed.

(** ** Instances *)

Lemma identity_order_perm {A : Type} (l : list A) :
  Permutation (identity_order l) l.
Proof. apply Permutation_refl. Defined.

Lemma dog_clip_wf : Forall (Forall interval_event) [[ev_interval 0 500 "dog"]].
Proof.
  constructor; [|constructor]. constructor; [|constructor].
  exists 0%float, 500%float, "dog". repeat split.
Defined.

Lemma ramp_clip_wf :
  Forall (fun evs => evs <> [] /\ exists d, Forall (onset_event d) evs)
         [[ev_onset 0 [2%float]; ev_onset 10 [4%float]]].
Proof.
  constructor; [|constructor]. split; [discriminate|]. exists 1.
  constructor; [|constructor; [|constructor]].
  - exists 0%float, [2%float]. repeat split.
  - exists 10%float, [4%float]. repeat split.
Defined.

Lemma ramp_clip_numbers :
  Forall (Forall numbered_start)
         [[ev_onset 0 [2%float]; ev_onset 10 [4%float]]].
Proof.
  constructor; [|constructor].
  constructor; [|constructor; [|constructor]];
    intros b H; injection H as <-; reflexivity.
Defined.

Lemma onehot_stabilization_rule_witness :
  exists out,
    get_labels_for_timestamps identity_order [[ev_interval 0 500 "dog"]]
      [[0; 250; 500; 750]%float] "default" true (PyStr "silence") = Ok out
    /\ length out = 1
    /\ forall i evs ts,
         nth_error [[ev_interval 0 500 "dog"]] i = Some evs ->
         nth_error [[0; 250; 500; 750]%float] i = Some ts ->
         exists chosen,
           nth_error out i = Some (map (fun c => Labels [c]) chosen)
           /\ length chosen = length ts
           /\ forall j t, nth_error ts j = Some t ->
              exists c, nth_error chosen j = Some c
                /\ stabilized evs (PyStr "silence") (previous_choice chosen j) t c.
Proof.
  apply (onehot_stabilization_rule identity_order identity_order_perm
           [[ev_interval 0 500 "dog"]] [[0; 250; 500; 750]%float] (PyStr "silence")
           eq_refl dog_clip_wf).
Defined.

Lemma default_policy_raw_matches_witness :
  exists out,
    get_labels_for_timestamps identity_order [[ev_interval 0 500 "dog"]]
      [[0; 250; 500; 750]%float] "default" false PyNone = Ok out
    /\ length out = 1
    /\ forall i evs ts,
         nth_error [[ev_interval 0 500 "dog"]] i = Some evs ->
         nth_error [[0; 250; 500; 750]%float] i = Some ts ->
         exists sets,
           nth_error out i = Some (map Labels sets)
           /\ length sets = length ts
           /\ forall j t, nth_error ts j = Some t ->
              exists matches,
                nth_error sets j = Some matches
                /\ forall p, In p matches <-> among_matches evs t p.
Proof.
  apply (proj1 (default_policy_raw_matches identity_order identity_order_perm)
           [[ev_interval 0 500 "dog"]] [[0; 250; 500; 750]%float] PyNone
           eq_refl dog_clip_wf).
Defined.

Lemma continuous_interpolation_witness :
  exists out,
    get_labels_for_timestamps identity_order
      [[ev_onset 0 [2%float]; ev_onset 10 [4%float]]] [[5%float]]
      "continuous" false PyNone = Ok out
    /\ length out = 1
    /\ forall i evs ts,
         nth_error [[ev_onset 0 [2%float]; ev_onset 10 [4%float]]] i
         = Some evs ->
         nth_error [[5%float]] i = Some ts ->
         Permutation (onset_pairs evs) (extract_pairs evs)
         /\ ascending (map fst (onset_pairs evs))
         /\ exists vs,
              nth_error out i = Some (map Vector vs)
              /\ length vs = length ts
              /\ forall j t, nth_error ts j = Some t ->
                 exists v, nth_error vs j = Some v
                           /\ interpolated (onset_pairs evs) t v.
Proof.
  apply (proj1 (continuous_interpolation identity_order)
           [[ev_onset 0 [2%float]; ev_onset 10 [4%float]]] [[5%float]]
           false PyNone eq_refl ramp_clip_wf ramp_clip_numbers).
  constructor; [|constructor]. constructor; [reflexivity|constructor].
Defined.

Lemma interpolation_exact_at_onset_witness :
  exists out row v',
    get_labels_for_timestamps identity_order
      [[ev_onset 0 [2%float]; ev_onset 10 [4%float]]] [[10%float]]
      "continuous" false PyNone = Ok out
    /\ nth_error out 0 = Some row
    /\ nth_error row 0 = Some (Vector v')
    /\ vec_eq v' [4%float].
Proof.
  apply (interpolation_exact_at_onset identity_order
           [[ev_onset 0 [2%float]; ev_onset 10 [4%float]]] [[10%float]]
           false PyNone 0 [ev_onset 0 [2%float]; ev_onset 10 [4%float]]
           [10%float] 0 10%float 1 10%float [4%float] eq_refl ramp_clip_wf
           eq_refl eq_refl eq_refl).
  - vm_compute. constructor.
    + constructor; constructor.
    + constructor; [reflexivity|constructor].
  - reflexivity.
  - reflexivity.
  - constructor; [reflexivity|constructor].
  - intros lower v_lower H _. vm_compute in H. injection H as <- <-.
    split; [vm_compute; exact I|].
    constructor; [vm_compute; exact I|constructor].
Defined.

Lemma unsupported_policy_raises_witness :
  (exists e,
     get_labels_for_timestamps identity_order [[]] [[0%float]] "probabilities"
       false PyNone = Raise e)
  /\ (length [@nil Event] = length [[0%float]] ->
      get_labels_for_timestamps identity_order [[]] [[0%float]] "probabilities"
        false PyNone = Raise TypeError).
Proof.
  apply (unsupported_policy_raises identity_order [[]] [[0%float]] "probabilities"
           false PyNone);
    apply String.eqb_neq; reflexivity.
Defined.

Lemma continuous_empty_clip_fails_witness :
  (exists e,
     get_labels_for_timestamps identity_order [[]] [[0%float]] "continuous"
       false PyNone = Raise e)
  /\ get_labels_for_timestamps identity_order [[]] [[0%float]] "continuous"
       false PyNone = Raise IndexError.
Proof.
  apply (continuous_empty_clip_fails identity_order [[]] [[0%float]] false PyNone
           0 [0%float] eq_refl eq_refl).
  discriminate.
Defined.

Lemma three_files_consistent :
  consistent_split (mkMetadata "event" "multilabel") 128
    [event_file "a" 10 128; event_file "b" 10 128; event_file "c" 10 128].
Proof.
  right. split; [reflexivity|].
  repeat constructor;
    (exists Float32, 10, (repeat JNull 10), (repeat JNull 10);
     repeat split; reflexivity).
Defined.

Lemma consolidation_counts_witness :
  sizing_pass (mkMetadata "event" "multilabel")
    (identity_order [event_file "a" 10 128; event_file "b" 10 128;
                     event_file "c" 10 128])
  = Ok (30, 128)
  /\ (0 < 30 * 128 ->
      exists out,
        memmap_embeddings identity_order (mkMetadata "event" "multilabel")
          [event_file "a" 10 128; event_file "b" 10 128; event_file "c" 10 128]
        = Ok out
        /\ embedding_dimensions out = (30, 128)
        /\ rows_filled out = 30
        /\ length (target_labels out) = 30
        /\ (is_event_or_continuous (mkMetadata "event" "multilabel") = true ->
            exists stamps,
              filename_timestamps out = Some stamps /\ length stamps = 30))
  /\ (30 * 128 = 0 ->
      memmap_embeddings identity_order (mkMetadata "event" "multilabel")
        [event_file "a" 10 128; event_file "b" 10 128; event_file "c" 10 128]
      = Raise ValueError).
Proof.
  apply (proj1 (consolidation_counts identity_order identity_order_perm)
           (mkMetadata "event" "multilabel") 128
           [event_file "a" 10 128; event_file "b" 10 128; event_file "c" 10 128]).
  - discriminate.
  - exact three_files_consistent.
Defined.

Lemma sizing_pass_validation_witness :
  sizing_pass (mkMetadata "scene" "multiclass")
    [mkFile "a" (Some (f32 [4])) None None;
     mkFile "b" (Some (f32 [2; 4])) None None]
  = Raise AssertionError.
Proof.
  apply (proj1 (sizing_pass_validation identity_order
                  (mkMetadata "scene" "multiclass")
                  [mkFile "a" (Some (f32 [4])) None None;
                   mkFile "b" (Some (f32 [2; 4])) None None]
                  (or_introl eq_refl))).
Defined.

Lemma scene_unknown_prediction_type_passes_witness :
  memmap_embeddings identity_order (mkMetadata "scene" "regression")
    [mkFile "clip" (Some (f32 [4])) (Some (JList [JStr "a"; JStr "b"])) None]
  = Ok (mkConsolidated (1, 4) 1 [JList [JStr "a"; JStr "b"]] None).
Proof.
  apply (scene_unknown_prediction_type_passes "regression");
    apply String.eqb_neq; reflexivity.
Defined.

(** A split without files is not sized: [ndim] is read before any round has
    assigned it. *)
Lemma empty_split_unsized (metadata : Metadata) :
  sizing_pass metadata [] = Raise UnboundLocalError.
Proof. reflexivity. Qed.

(** C6, as stated, fails on two splits whose artifacts agree.  The split
    without files is not sized, and consolidation stops with
    [UnboundLocalError].  The split of one event file of shape (0, 3), with
    no label and no timestamp, is sized as (0, 3); the map of no bytes
    cannot be made, and consolidation stops with [ValueError] before the
    fill pass. *)
Lemma consolidation_without_rows :
  (consistent_split (mkMetadata "event" "multilabel") 3 []
   /\ sizing_pass (mkMetadata "event" "multilabel") (identity_order [])
      = Raise UnboundLocalError
   /\ memmap_embeddings identity_order (mkMetadata "event" "multilabel") []
      = Raise UnboundLocalError)
  /\ (consistent_split (mkMetadata "event" "multilabel") 3
        [event_file "a" 0 3]
      /\ sizing_pass (mkMetadata "event" "multilabel")
           (identity_order [event_file "a" 0 3])
         = Ok (0, 3)
      /\ memmap_embeddings identity_order (mkMetadata "event" "multilabel")
           [event_file "a" 0 3]
         = Raise ValueError).
Proof.
  split; (split; [|split; reflexivity]).
  - right. split; [reflexivity|constructor].
  - right. split; [reflexivity|]. constructor; [|constructor].
    exists Float32, 0, [], []. repeat split; reflexivity.
Qed.

(** * Further properties of the label aligner *)

(** ** More on loops *)

Lemma for_each_nth_inv {A B : Type} (body : A -> result B) (l : list A)
    (out : list B) :
  for_each body l = Ok out ->
  forall i b, nth_error out i = Some b ->
  exists a, nth_error l i = Some a /\ body a = Ok b.
Proof.
  intros H i b Hb.
  assert (Hi : i < length l).
  { rewrite <- (for_each_length body l out H). apply nth_error_Some. congruence. }
  destruct (nth_error l i) as [a|] eqn:Ea; [|apply nth_error_None in Ea; lia].
  destruct (for_each_nth body l out H i a Ea) as (b' & Hb' & Hrun).
  exists a. split; [reflexivity|]. congruence.
Qed.

Lemma for_each_in_ok {A B : Type} (body : A -> result B) (l : list A)
    (out : list B) :
  for_each body l = Ok out -> forall a, In a l -> exists b, body a = Ok b.
Proof.
  intros H a Ha. apply In_nth_error in Ha as [i Hi].
  destruct (for_each_nth body l out H i a Hi) as (b & _ & Hb). eauto.
Qed.

Lemma for_each_in_out {A B : Type} (body : A -> result B) (l : list A)
    (out : list B) :
  for_each body l = Ok out ->
  forall b, In b out -> exists a, In a l /\ body a = Ok b.
Proof.
  intros H b Hb. apply In_nth_error in Hb as [i Hi].
  destruct (for_each_nth_inv body l out H i b Hi) as (a & Ha & Hrun).
  exists a. split; [eapply nth_error_In; eassumption|assumption].
Qed.

Lemma for_each_ext_in {A B : Type} (f g : A -> result B) (l : list A) :
  (forall a, In a l -> f a = g a) -> for_each f l = for_each g l.
Proof.
  induction l as [|a l IH]; intros H; [reflexivity|].
  simpl. rewrite (H a (or_introl eq_refl)).
  rewrite IH; [reflexivity|]. intros; apply H; right; assumption.
Qed.

(** The first exception of a loop is the exception of one of its rounds. *)
Lemma for_each_raise_inv {A B : Type} (body : A -> result B) (l : list A)
    (e : exn) :
  for_each body l = Raise e -> exists a, In a l /\ body a = Raise e.
Proof.
  induction l as [|a l IH]; intros H; [discriminate|].
  simpl in H. destruct (body a) as [b|e0] eqn:Ea; simpl in H.
  - destruct (for_each body l) as [bs|e1]; simpl in H; [discriminate|].
    injection H as ->. destruct (IH eq_refl) as (a' & Ha' & Hr).
    exists a'. split; [right|]; assumption.
  - injection H as ->. exists a. split; [left; reflexivity|assumption].
Qed.

Lemma combine_in_l {A B : Type} (l : list A) (l' : list B) (a : A) :
  length l = length l' -> In a l -> exists b, In (a, b) (combine l l').
Proof.
  revert l'. induction l as [|x l IH]; intros [|y l'] Hlen Ha;
    simpl in *; try contradiction; try discriminate.
  destruct Ha as [->|Ha].
  - exists y. left. reflexivity.
  - destruct (IH l' ltac:(lia) Ha) as [b Hb]. exists b. right. assumption.
Qed.

(** The call, once its two assertions are out of the way. *)
Lemma get_labels_body (set_iter : list Interval -> list Interval)
    (labels : list (list Event)) (timestamps : list (list float)) (mode : string)
    (to_onehot : bool) (default_label : pyval) :
  length labels = length timestamps ->
  get_labels_for_timestamps set_iter labels timestamps mode to_onehot
    default_label
  = if (mode =? "default")%string then
      for_each (default_clip set_iter to_onehot default_label)
               (combine labels timestamps)
    else if (mode =? "smoothed")%string then
      for_each smoothed_clip (combine labels timestamps)
    else if (mode =? "continuous")%string then
      for_each continuous_clip (combine labels timestamps)
    else Raise TypeError.
Proof.
  intros Hlen.
  destruct (mode =? "default")%string eqn:Ed;
    [|destruct (mode =? "smoothed")%string eqn:Es;
      [|destruct (mode =? "continuous")%string eqn:Ec]].
  - apply get_labels_unfold; [assumption|]. left. auto.
  - apply get_labels_unfold; [assumption|]. right. left. auto.
  - apply get_labels_unfold; [assumption|]. right. right. auto.
  - unfold get_labels_for_timestamps.
    rewrite Hlen, Nat.eqb_refl, Ed, Es, Ec. reflexivity.
Qed.

Lemma get_labels_length_mismatch (set_iter : list Interval -> list Interval)
    (labels : list (list Event)) (timestamps : list (list float)) (mode : string)
    (to_onehot : bool) (default_label : pyval) :
  length labels <> length timestamps ->
  get_labels_for_timestamps set_iter labels timestamps mode to_onehot
    default_label = Raise AssertionError.
Proof.
  intros H. unfold get_labels_for_timestamps.
  apply Nat.eqb_neq in H. rewrite H. reflexivity.
Qed.

Lemma get_labels_ok_length (set_iter : list Interval -> list Interval)
    (labels : list (list Event)) (timestamps : list (list float)) (mode : string)
    (to_onehot : bool) (default_label : pyval) (out : list (list entry)) :
  get_labels_for_timestamps set_iter labels timestamps mode to_onehot
    default_label = Ok out ->
  length labels = length timestamps.
Proof.
  intros H. destruct (Nat.eq_dec (length labels) (length timestamps)) as [E|E];
    [assumption|].
  rewrite (get_labels_length_mismatch set_iter labels timestamps mode
             to_onehot default_label E) in H. discriminate.
Qed.

(** ** The shape of a result *)

Lemma default_timestamps_length (set_iter : list Interval -> list Interval)
    (tree : IntervalTree.t) (to_onehot : bool) (default_label : pyval)
    (ts : list float) :
  forall last_label,
    length (default_timestamps set_iter tree to_onehot default_label
              last_label ts) = length ts.
Proof.
  induction ts as [|t ts IH]; intros last_label; [reflexivity|].
  cbn [default_timestamps].
  destruct (default_step set_iter tree to_onehot default_label last_label t).
  simpl. rewrite IH. reflexivity.
Qed.

Lemma default_clip_length (set_iter : list Interval -> list Interval)
    (to_onehot : bool) (default_label : pyval) (clip : list Event * list float)
    (row : list entry) :
  default_clip set_iter to_onehot default_label clip = Ok row ->
  length row = length (snd clip).
Proof.
  unfold default_clip. intros H. bind_inv H. injection H as <-.
  rewrite length_map. apply default_timestamps_length.
Qed.

Lemma continuous_clip_length (clip : list Event * list float) (row : list entry) :
  continuous_clip clip = Ok row -> length row = length (snd clip).
Proof.
  unfold continuous_clip, interpolate_clip. intros H.
  bind_inv H. bind_inv H. apply for_each_length in H. exact H.
Qed.

Section OutputShape.

Variable set_iter : list Interval -> list Interval.

(** The rows of a result, clip by clip. *)
Lemma get_labels_rows (labels : list (list Event))
    (timestamps : list (list float)) (mode : string) (to_onehot : bool)
    (default_label : pyval) (out : list (list entry)) :
  get_labels_for_timestamps set_iter labels timestamps mode to_onehot
    default_label = Ok out ->
  length labels = length timestamps
  /\ length out = length timestamps
  /\ forall i row ts,
       nth_error out i = Some row -> nth_error timestamps i = Some ts ->
       length row = length ts.
Proof.
  intros H.
  pose proof (get_labels_ok_length _ _ _ _ _ _ _ H) as Hlen.
  split; [assumption|].
  rewrite (get_labels_body set_iter labels timestamps mode to_onehot
             default_label Hlen) in H.
  assert (Hgen : forall body,
             (forall clip row, body clip = Ok row ->
                               length row = length (snd clip)) ->
             for_each body (combine labels timestamps) = Ok out ->
             length out = length timestamps
             /\ forall i row ts,
                  nth_error out i = Some row ->
                  nth_error timestamps i = Some ts ->
                  length row = length ts).
  { intros body Hbody Hrun. split.
    - rewrite (for_each_length body _ _ Hrun). apply combine_length_eq, Hlen.
    - intros i row ts Hrow Hts.
      destruct (for_each_nth_inv body _ _ Hrun i row Hrow)
        as ([evs ts'] & Hclip & Hok).
      assert (Hi : i < length labels).
      { rewrite Hlen. apply nth_error_Some. congruence. }
      destruct (nth_error labels i) as [evs0|] eqn:Eevs;
        [|apply nth_error_None in Eevs; lia].
      rewrite (nth_error_combine labels timestamps i evs0 ts Eevs Hts) in Hclip.
      injection Hclip as <- <-. apply (Hbody _ _ Hok). }
  destruct (mode =? "default")%string;
    [|destruct (mode =? "smoothed")%string;
      [|destruct (mode =? "continuous")%string]].
  - apply (Hgen _ (default_clip_length set_iter to_onehot default_label) H).
  - apply (Hgen smoothed_clip); [|assumption].
    intros clip row Hrow. destruct (smoothed_clip_raises clip) as [e He].
    congruence.
  - apply (Hgen _ continuous_clip_length H).
  - discriminate.
Qed.

(** X1.  Whatever the policy and the flags, a result has one sequence per
    clip and each sequence has one entry per timestamp of its clip. *)
Theorem aligner_output_shape (labels : list (list Event))
    (timestamps : list (list float)) (mode : string) (to_onehot : bool)
    (default_label : pyval) (out : list (list entry)) :
  get_labels_for_timestamps set_iter labels timestamps mode to_onehot
    default_label = Ok out ->
  length out = length timestamps
  /\ forall i row ts,
       nth_error out i = Some row -> nth_error timestamps i = Some ts ->
       length row = length ts.
Proof.
  intros H. destruct (get_labels_rows _ _ _ _ _ _ H) as (_ & Hlen & Hrows).
  split; assumption.
Qed.

End OutputShape.

(** ** When the default policy returns *)

Lemma is_null_ieq (a b : Interval) : ieq a b -> is_null a = is_null b.
Proof.
  intros H. apply ieq_fields in H as (Hb & He & _). unfold is_null.
  destruct (iend a <=? ibegin a)%float eqn:Ea;
    destruct (iend b <=? ibegin b)%float eqn:Eb; try reflexivity;
    exfalso; float_order; intuition lia.
Qed.

(** A tree built by [addi] holds no null interval. *)
Lemma addi_keeps_non_null (b e : float) (d : string) (tree tree' : IntervalTree.t) :
  Forall (fun iv => is_null iv = false) tree ->
  addi b e d tree = Ok tree' ->
  Forall (fun iv => is_null iv = false) tree'
  /\ is_null (mkInterval b e d) = false.
Proof.
  intros Htree. unfold addi.
  destruct (existsb (interval_eqb (mkInterval b e d)) tree) eqn:Ex.
  - intros H. injection H as <-. split; [assumption|].
    apply existsb_ieq in Ex as (iv & Hin & Hieq).
    rewrite (is_null_ieq _ _ Hieq). rewrite Forall_forall in Htree. auto.
  - destruct (is_null (mkInterval b e d)) eqn:En; [discriminate|].
    intros H. injection H as <-. split; [|reflexivity].
    apply Forall_app. split; [assumption|]. constructor; [assumption|constructor].
Qed.

Lemma add_events_ok_inv (evs : list Event) :
  forall tree tree',
    Forall (fun iv => is_null iv = false) tree ->
    add_events evs tree = Ok tree' ->
    Forall accepted_event evs.
Proof.
  induction evs as [|ev evs IH]; intros tree tree' Htree H; [constructor|].
  cbn [add_events] in H.
  destruct (ev_start ev) as [b|] eqn:Eb; [|discriminate].
  destruct (ev_end ev) as [e|] eqn:Ee; [|discriminate].
  destruct (ev_label ev) as [l|] eqn:El; [|discriminate].
  cbn [getitem bind] in H. bind_inv H.
  destruct (addi_keeps_non_null _ _ _ _ _ Htree E) as (Htree' & Hnull).
  constructor; [|eapply IH; eassumption].
  exists b, e, l. repeat split; try assumption.
Qed.

Lemma add_events_raise_inv (evs : list Event) :
  forall tree e,
    add_events evs tree = Raise e ->
    (e = KeyError /\ Exists lacks_interval_key evs)
    \/ (e = ValueError /\ Exists null_event evs).
Proof.
  induction evs as [|ev evs IH]; intros tree e H; [discriminate|].
  cbn [add_events] in H.
  destruct (ev_start ev) as [b|] eqn:Eb;
    [|injection H as <-; left; split; [reflexivity|];
      constructor; left; assumption].
  destruct (ev_end ev) as [e0|] eqn:Ee;
    [|injection H as <-; left; split; [reflexivity|];
      constructor; right; left; assumption].
  destruct (ev_label ev) as [l|] eqn:El;
    [|injection H as <-; left; split; [reflexivity|];
      constructor; right; right; assumption].
  cbn [getitem bind] in H.
  destruct (addi b (e0 + epsilon)%float l tree) as [tree1|e1] eqn:Ea;
    cbn [bind] in H.
  - destruct (IH tree1 e H) as [[-> Hk]|[-> Hn]].
    + left. split; [reflexivity|]. apply Exists_cons_tl. assumption.
    + right. split; [reflexivity|]. apply Exists_cons_tl. assumption.
  - injection H as <-. right. unfold addi in Ea.
    destruct (existsb _ tree); [discriminate|].
    destruct (is_null _) eqn:En; [|discriminate].
    injection Ea as <-. split; [reflexivity|]. constructor.
    exists b, e0, l. repeat split; try assumption.
Qed.

Section DefaultPolicyDomain.

Variable set_iter : list Interval -> list Interval.

(** X2.  The default policy returns a result exactly when there are as many
    clips as timestamp rows and every event of every clip carries "start",
    "end" and "label" and is not refused by the tree: [end + 0.0001 <=
    start], with the sum as binary64 rounds it, is false. *)
Theorem default_policy_returns_iff (labels : list (list Event))
    (timestamps : list (list float)) (to_onehot : bool) (default_label : pyval) :
  (exists out,
     get_labels_for_timestamps set_iter labels timestamps "default" to_onehot
       default_label = Ok out)
  <-> length labels = length timestamps
      /\ Forall (Forall accepted_event) labels.
Proof.
  split.
  - intros [out H].
    pose proof (get_labels_ok_length _ _ _ _ _ _ _ H) as Hlen.
    split; [assumption|].
    rewrite (get_labels_body set_iter labels timestamps "default" to_onehot
               default_label Hlen) in H.
    cbn [String.eqb Ascii.eqb Bool.eqb] in H.
    apply Forall_forall. intros evs Hevs.
    destruct (combine_in_l labels timestamps evs Hlen Hevs) as [ts Hin].
    destruct (for_each_in_ok _ _ _ H _ Hin) as [row Hrow].
    unfold default_clip in Hrow. bind_inv Hrow. simpl in E.
    apply (add_events_ok_inv evs IntervalTree.empty a); [constructor|assumption].
  - intros [Hlen Hwf].
    rewrite (get_labels_body set_iter labels timestamps "default" to_onehot
               default_label Hlen).
    cbn [String.eqb Ascii.eqb Bool.eqb].
    apply for_each_total. intros [evs ts] Hin. apply in_combine_l in Hin.
    rewrite Forall_forall in Hwf.
    destruct (add_events_tree_of evs [] IntervalTree.empty tree_of_nil
                (Hwf evs Hin)) as (tree & Hadd & _).
    unfold default_clip. simpl. rewrite Hadd. simpl. eauto.
Qed.

(** X3.  On as many clips as timestamp rows, a failure of the default policy
    is a [KeyError], and then some event lacks one of its three keys, or a
    [ValueError], and then some event has [end + 0.0001 <= start], with the
    sum as binary64 rounds it. *)
Theorem default_policy_failures (labels : list (list Event))
    (timestamps : list (list float)) (to_onehot : bool) (default_label : pyval)
    (e : exn) :
  length labels = length timestamps ->
  get_labels_for_timestamps set_iter labels timestamps "default" to_onehot
    default_label = Raise e ->
  (e = KeyError /\ Exists (Exists lacks_interval_key) labels)
  \/ (e = ValueError /\ Exists (Exists null_event) labels).
Proof.
  intros Hlen H.
  rewrite (get_labels_body set_iter labels timestamps "default" to_onehot
             default_label Hlen) in H.
  cbn [String.eqb Ascii.eqb Bool.eqb] in H.
  apply for_each_raise_inv in H as ([evs ts] & Hin & Hclip).
  apply in_combine_l in Hin. unfold default_clip in Hclip. simpl in Hclip.
  destruct (add_events evs IntervalTree.empty) as [tree|e'] eqn:Ea;
    [discriminate|].
  simpl in Hclip. injection Hclip as ->.
  destruct (add_events_raise_inv evs _ _ Ea) as [[-> Hk]|[-> Hn]].
  - left. split; [reflexivity|]. apply Exists_exists. eauto.
  - right. split; [reflexivity|]. apply Exists_exists. eauto.
Qed.

End DefaultPolicyDomain.

(** ** Where the stabilized labels come from *)

Lemma default_clip_tree (set_iter : list Interval -> list Interval)
    (to_onehot : bool) (default_label : pyval) (evs : list Event)
    (ts : list float) (row : list entry) :
  default_clip set_iter to_onehot default_label (evs, ts) = Ok row ->
  exists tree,
    add_events evs IntervalTree.empty = Ok tree
    /\ Forall accepted_event evs
    /\ tree_of evs tree
    /\ row = map Labels (default_timestamps set_iter tree to_onehot
                           default_label PyNone ts).
Proof.
  unfold default_clip. simpl. intros H. bind_inv H. injection H as <-.
  pose proof (add_events_ok_inv evs IntervalTree.empty a
                (Forall_nil _) E) as Hwf.
  destruct (add_events_tree_of evs [] IntervalTree.empty tree_of_nil Hwf)
    as (tree & Hadd & Htree).
  simpl in Htree. exists a. rewrite E in Hadd. injection Hadd as ->. auto.
Qed.

Section OnehotOrigins.

Variable set_iter : list Interval -> list Interval.
Hypothesis set_iter_perm : forall l, Permutation (set_iter l) l.

Lemma default_timestamps_causal (tree : IntervalTree.t)
    (default_label : pyval) (ts : list float) :
  forall last_label j l,
    nth_error (default_timestamps set_iter tree true default_label
                 last_label ts) j = Some l ->
    exists c,
      l = [c]
      /\ (c = default_label
          \/ (c = last_label /\ is_not_None last_label = true)
          \/ exists j' t',
               j' <= j /\ nth_error ts j' = Some t'
               /\ In c (raw_labels set_iter tree t')).
Proof.
  induction ts as [|t0 ts IH]; intros last_label j l Hj.
  - destruct j; discriminate.
  - cbn [default_timestamps] in Hj.
    destruct (default_step_onehot set_iter tree default_label last_label t0)
      as (c0 & Hstep & H0 & H2 & H1).
    rewrite Hstep in Hj.
    assert (Hc0 : c0 = default_label
                  \/ (c0 = last_label /\ is_not_None last_label = true)
                  \/ In c0 (raw_labels set_iter tree t0)).
    { destruct (raw_labels set_iter tree t0) as [|x [|y r]] eqn:E.
      - specialize (H0 eq_refl).
        destruct (is_not_None last_label) eqn:En; rewrite ?En in H0; auto.
      - right. right. rewrite (H1 x eq_refl). left. reflexivity.
      - specialize (H2 ltac:(simpl; lia)).
        destruct (is_not_None last_label) eqn:En; rewrite ?En in H2;
          destruct (existsb (pyval_eqb last_label) (x :: y :: r));
          cbn [andb] in H2; auto. }
    destruct j as [|j]; simpl in Hj.
    + injection Hj as <-. exists c0. split; [reflexivity|].
      destruct Hc0 as [H|[H|H]]; auto.
      right. right. exists 0, t0. repeat split; [lia|assumption].
    + destruct (IH c0 j l Hj) as (c & -> & [H|[[H _]|(j' & t' & Hle & Ht' & Hin)]]).
      * exists c. auto.
      * exists c. split; [reflexivity|]. subst c.
        destruct Hc0 as [H|[H|H]]; auto.
        right. right. exists 0, t0. repeat split; [lia|assumption].
      * exists c. split; [reflexivity|]. right. right.
        exists (S j'), t'. repeat split; [lia|assumption|assumption].
Qed.

(** X5.  With [to_onehot] the aligner invents no label and looks at no
    later timestamp: the entry at timestamp [j] is [default_label] or the
    label of an event that covers a timestamp of the clip at or before
    [j]. *)
Theorem onehot_labels_are_causal (labels : list (list Event))
    (timestamps : list (list float)) (default_label : pyval)
    (out : list (list entry)) (i : nat) (evs : list Event) (ts : list float)
    (row : list entry) (j : nat) (e : entry) :
  get_labels_for_timestamps set_iter labels timestamps "default" true
    default_label = Ok out ->
  nth_error labels i = Some evs -> nth_error timestamps i = Some ts ->
  nth_error out i = Some row -> nth_error row j = Some e ->
  exists c,
    e = Labels [c]
    /\ (c = default_label
        \/ exists j' t',
             j' <= j /\ nth_error ts j' = Some t' /\ among_matches evs t' c).
Proof.
  intros H Hevs Hts Hrow Hj.
  pose proof (get_labels_ok_length _ _ _ _ _ _ _ H) as Hlen.
  rewrite (get_labels_body set_iter labels timestamps "default" true
             default_label Hlen) in H.
  cbn [String.eqb Ascii.eqb Bool.eqb] in H.
  destruct (for_each_nth _ _ _ H i _
              (nth_error_combine labels timestamps i evs ts Hevs Hts))
    as (row' & Hrow' & Hclip).
  rewrite Hrow in Hrow'. injection Hrow' as <-.
  apply default_clip_tree in Hclip as (tree & _ & Hwf & Htree & ->).
  rewrite nth_error_map in Hj.
  destruct (nth_error (default_timestamps set_iter tree true default_label
                         PyNone ts) j) as [l|] eqn:El; [|discriminate].
  injection Hj as <-.
  destruct (default_timestamps_causal tree default_label ts PyNone j l El)
    as (c & -> & [Hc|[[_ Hc]|(j' & t' & Hle & Ht' & Hin)]]).
  - exists c. auto.
  - discriminate.
  - exists c. split; [reflexivity|]. right. exists j', t'.
    repeat split; try assumption.
    apply (raw_matches_in set_iter set_iter_perm evs tree t' Hwf Htree).
    exact Hin.
Qed.

(** One interval at every timestamp: stabilization changes nothing. *)
Lemma default_timestamps_single (tree : IntervalTree.t)
    (default_label default_label' : pyval) (ts : list float) :
  (forall t, In t ts -> exists iv, tree_at set_iter tree t = [iv]) ->
  forall last_label last_label',
    default_timestamps set_iter tree true default_label last_label ts
    = default_timestamps set_iter tree false default_label' last_label' ts.
Proof.
  induction ts as [|t ts IH]; intros Hone last_label last_label';
    [reflexivity|].
  destruct (Hone t (or_introl eq_refl)) as [iv Hiv].
  cbn [default_timestamps]. unfold default_step. rewrite Hiv. simpl.
  f_equal. apply IH. intros; apply Hone; right; assumption.
Qed.

(** X6.  When the events start at numbers and every timestamp of every clip
    is covered by exactly one interval, [to_onehot] makes no difference,
    whatever the default labels.  The starts are asked to be numbers because
    the search of the tree compares the timestamp with them. *)
Theorem onehot_is_identity_on_single_matches (labels : list (list Event))
    (timestamps : list (list float)) (default_label default_label' : pyval) :
  Forall (Forall numbered_start) labels ->
  (forall evs ts t,
     In (evs, ts) (combine labels timestamps) -> In t ts ->
     exists ev,
       In ev evs /\ covers ev t
       /\ forall ev', In ev' evs -> covers ev' t -> same_interval ev ev') ->
  get_labels_for_timestamps set_iter labels timestamps "default" true
    default_label
  = get_labels_for_timestamps set_iter labels timestamps "default" false
      default_label'.
Proof.
  intros _ Hone.
  destruct (Nat.eq_dec (length labels) (length timestamps)) as [Hlen|Hlen].
  - rewrite !(get_labels_body set_iter labels timestamps "default" _ _ Hlen).
    cbn [String.eqb Ascii.eqb Bool.eqb].
    apply for_each_ext_in. intros [evs ts] Hin.
    destruct (default_clip set_iter true default_label (evs, ts))
      as [row|e] eqn:E.
    + apply default_clip_tree in E as (tree & Hadd & Hwf & Htree & ->).
      unfold default_clip. simpl. rewrite Hadd. simpl. do 2 f_equal.
      apply default_timestamps_single. intros t Ht.
      destruct (Hone evs ts t Hin Ht) as (ev & Hev & Hc & Hall).
      destruct (raw_matches_single set_iter set_iter_perm evs tree t Hwf
                  Htree ev Hev Hc Hall) as (iv & Hiv & _).
      eauto.
    + unfold default_clip in *. simpl in *.
      destruct (add_events evs IntervalTree.empty); [discriminate|].
      simpl in *. congruence.
  - rewrite !get_labels_length_mismatch by assumption. reflexivity.
Qed.

End OnehotOrigins.

(** * Further properties of the interpolating policies *)

(** ** The reading of the events in closed form *)

Lemma continuous_extract_closed (evs : list Event) :
  for_each (fun event =>
    s <- getitem (ev_start event) ;;
    v <- getitem (ev_values event) ;;
    Ok (s, v)) evs
  = if forallb has_onset_keys evs then Ok (extract_pairs evs)
    else Raise KeyError.
Proof.
  induction evs as [|ev evs IH]; [reflexivity|].
  cbn [for_each forallb extract_pairs flat_map]. unfold has_onset_keys at 1.
  destruct (ev_start ev) as [b|]; [|reflexivity].
  destruct (ev_values ev) as [v|]; [|reflexivity].
  cbn [getitem bind andb]. rewrite IH.
  destruct (forallb has_onset_keys evs); reflexivity.
Qed.

Lemma continuous_clip_closed (evs : list Event) (ts : list float) :
  continuous_clip (evs, ts)
  = if forallb has_onset_keys evs then interpolate_clip (extract_pairs evs) ts
    else Raise KeyError.
Proof.
  unfold continuous_clip. cbn [fst snd]. rewrite continuous_extract_closed.
  destruct (forallb has_onset_keys evs); reflexivity.
Qed.

Lemma smoothed_clip_closed (evs : list Event) (ts : list float) :
  smoothed_clip (evs, ts)
  = if forallb has_smoothed_keys evs then Raise UnboundLocalError
    else Raise KeyError.
Proof.
  unfold smoothed_clip. cbn [fst snd].
  induction evs as [|ev evs IH]; [reflexivity|].
  cbn [for_each forallb]. unfold has_smoothed_keys at 1.
  destruct (ev_label ev) as [l|]; [|reflexivity].
  destruct (ev_start ev) as [b|]; [|reflexivity].
  cbn [getitem bind andb].
  destruct (for_each _ evs) as [bs|e] eqn:E; cbn [bind] in *.
  - destruct (forallb has_smoothed_keys evs); [reflexivity|discriminate].
  - exact IH.
Qed.

Lemma asarray_ok_inv (rows rows' : list (list float)) :
  Np.asarray rows = Ok rows' ->
  rows' = rows /\ exists d, Forall (fun r => length r = d) rows.
Proof.
  unfold Np.asarray. destruct rows as [|r rows].
  - intros H. injection H as <-. split; [reflexivity|]. exists 0. constructor.
  - destruct (forallb _ rows) eqn:E; [|discriminate].
    intros H. injection H as <-. split; [reflexivity|].
    exists (length r). constructor; [reflexivity|].
    apply Forall_forall. intros r' Hr'.
    rewrite forallb_forall in E. apply Nat.eqb_eq. auto.
Qed.

Lemma has_onset_keys_event (ev : Event) :
  has_onset_keys ev = true ->
  exists b v, ev_start ev = Some b /\ ev_values ev = Some v
              /\ In (b, v) (extract_pairs [ev]).
Proof.
  unfold has_onset_keys, extract_pairs. simpl.
  destruct (ev_start ev) as [b|]; [|discriminate].
  destruct (ev_values ev) as [v|]; [|discriminate].
  intros _. exists b, v. simpl. auto.
Qed.

Lemma in_extract_pairs (evs : list Event) (ev : Event) (b : float) (v : list float) :
  In ev evs -> ev_start ev = Some b -> ev_values ev = Some v ->
  In (b, v) (extract_pairs evs).
Proof.
  intros Hin Hb Hv. unfold extract_pairs. apply in_flat_map.
  exists ev. split; [assumption|]. rewrite Hb, Hv. left. reflexivity.
Qed.

Lemma extract_pairs_from (evs : list Event) (p : float * list float) :
  In p (extract_pairs evs) ->
  exists ev, In ev evs /\ ev_start ev = Some (fst p)
             /\ ev_values ev = Some (snd p).
Proof.
  unfold extract_pairs. intros H. apply in_flat_map in H as (ev & Hev & Hp).
  exists ev. split; [assumption|].
  destruct (ev_start ev) as [b|]; [|contradiction].
  destruct (ev_values ev) as [v|]; [|contradiction].
  destruct Hp as [<-|[]]. auto.
Qed.

(** One clip of the continuous policy returns exactly on the clips it can
    align. *)
Lemma continuous_clip_returns (evs : list Event) (ts : list float) :
  (exists row, continuous_clip (evs, ts) = Ok row)
  <-> continuous_clip_ok (evs, ts).
Proof.
  unfold continuous_clip_ok. cbn [fst snd]. split.
  - intros [row H]. rewrite continuous_clip_closed in H.
    destruct (forallb has_onset_keys evs) eqn:Ek; [|discriminate].
    unfold interpolate_clip in H. bind_inv H.
    apply asarray_ok_inv in E as (-> & d & Hd). split.
    + exists d. apply Forall_forall. intros ev Hev.
      rewrite forallb_forall in Ek.
      destruct (has_onset_keys_event ev (Ek ev Hev)) as (b & v & Hb & Hv & _).
      exists b, v. repeat split; try assumption.
      rewrite Forall_forall in Hd. apply Hd. apply in_map_iff.
      exists (b, v). split; [reflexivity|].
      eapply Permutation_in; [symmetry; apply sorted_by_key_perm|].
      eapply in_extract_pairs; eassumption.
    + intros ->. destruct ts as [|t ts]; [reflexivity|discriminate].
  - intros [[d Hd] Hempty]. destruct evs as [|ev evs].
    + rewrite (Hempty eq_refl). exists []. reflexivity.
    + destruct (continuous_clip_spec (ev :: evs) d Hd ts) as (vs & Hrun & _);
        [discriminate|eauto].
Qed.

Section ContinuousDomain.

Variable set_iter : list Interval -> list Interval.

(** X4.  The continuous policy returns a result exactly when there are as
    many clips as timestamp rows and, in every clip, every event carries
    "start" and "values", the values have one length, and there is an event
    unless there is no timestamp. *)
Theorem continuous_policy_returns_iff (labels : list (list Event))
    (timestamps : list (list float)) (to_onehot : bool) (default_label : pyval) :
  (exists out,
     get_labels_for_timestamps set_iter labels timestamps "continuous"
       to_onehot default_label = Ok out)
  <-> length labels = length timestamps
      /\ Forall continuous_clip_ok (combine labels timestamps).
Proof.
  split.
  - intros [out H].
    pose proof (get_labels_ok_length _ _ _ _ _ _ _ H) as Hlen.
    split; [assumption|].
    rewrite (get_labels_body set_iter labels timestamps "continuous"
               to_onehot default_label Hlen) in H.
    cbn [String.eqb Ascii.eqb Bool.eqb] in H.
    apply Forall_forall. intros [evs ts] Hin.
    apply continuous_clip_returns. eapply for_each_in_ok; eassumption.
  - intros [Hlen Hok].
    rewrite (get_labels_body set_iter labels timestamps "continuous"
               to_onehot default_label Hlen).
    cbn [String.eqb Ascii.eqb Bool.eqb].
    apply for_each_total. intros [evs ts] Hin.
    apply continuous_clip_returns. rewrite Forall_forall in Hok. auto.
Qed.

(** X9.  The smoothed policy aligns nothing: on a batch with at least one
    clip it stops in the first clip, with [KeyError] when an event of that
    clip lacks "label" or "start" and with [UnboundLocalError] at the read
    of [values] otherwise. *)
Theorem smoothed_policy_never_aligns (evs : list Event)
    (labels : list (list Event)) (ts : list float) (timestamps : list (list float))
    (to_onehot : bool) (default_label : pyval) :
  length labels = length timestamps ->
  get_labels_for_timestamps set_iter (evs :: labels) (ts :: timestamps)
    "smoothed" to_onehot default_label
  = if forallb has_smoothed_keys evs then Raise UnboundLocalError
    else Raise KeyError.
Proof.
  intros Hlen.
  rewrite (get_labels_body set_iter (evs :: labels) (ts :: timestamps)
             "smoothed" to_onehot default_label)
    by (simpl; congruence).
  cbn [String.eqb Ascii.eqb Bool.eqb combine for_each].
  rewrite smoothed_clip_closed.
  destruct (forallb has_smoothed_keys evs); reflexivity.
Qed.

End ContinuousDomain.

(** ** The order of a clip's events *)


Lemma same_onset_sym (p q : float * list float) :
  same_onset p q -> same_onset q p.
Proof. unfold same_onset. tauto. Qed.

(** Two onsets that [sorted] tells apart are numbers. *)
Lemma apart_numbers (p q : float * list float) :
  ~ same_onset p q -> number (fst p) /\ number (fst q).
Proof.
  unfold same_onset. intros H.
  destruct (fst p <? fst q)%float eqn:E.
  - apply ltb_iff in E. tauto.
  - destruct (fst q <? fst p)%float eqn:E'.
    + apply ltb_iff in E'. tauto.
    + exfalso. apply H. auto.
Qed.

(** In a list of two or more pairs without a repeated onset the onsets are
    numbers. *)
Lemma distinct_onsets_numbers (l : list (float * list float)) :
  2 <= length l -> NoDupA same_onset l ->
  Forall (fun p => number (fst p)) l.
Proof.
  destruct l as [|x [|y r]]; simpl; intros Hlen Hnodup; try lia.
  inversion Hnodup as [|? ? Hx _]; subst.
  assert (Hxy : ~ same_onset x y) by (intros H; apply Hx; left; exact H).
  destruct (apart_numbers x y Hxy) as [Hnx Hny].
  constructor; [assumption|]. constructor; [assumption|].
  apply Forall_forall. intros z Hz.
  assert (Hxz : ~ same_onset x z).
  { intros H; apply Hx. right. apply InA_alt. exists z. auto. }
  apply (apart_numbers x z Hxz).
Qed.

Lemma NoDupA_perm {A : Type} (R : A -> A -> Prop) (l l' : list A) :
  (forall a b, R a b -> R b a) ->
  Permutation l l' -> NoDupA R l -> NoDupA R l'.
Proof.
  intros Hsym. induction 1 as [|x l l' Hp IH|x y l|l l' l'' _ IH _ IH'];
    intros Hnodup.
  - constructor.
  - inversion Hnodup as [|? ? Hx Hl]; subst. constructor; [|auto].
    intros H. apply Hx. rewrite InA_alt in *.
    destruct H as (z & Hxz & Hz). exists z. split; [assumption|].
    eapply Permutation_in; [symmetry; exact Hp|exact Hz].
  - inversion Hnodup as [|? ? Hy Hxl]; subst.
    inversion Hxl as [|? ? Hx Hl]; subst.
    constructor; [|constructor; [|assumption]].
    + intros H. inversion H as [? ? Hxy|? ? Hin]; subst.
      * apply Hy. left. apply Hsym. exact Hxy.
      * contradiction.
    + intros H. apply Hy. right. exact H.
  - auto.
Qed.

Lemma forallb_perm {A : Type} (f : A -> bool) (l l' : list A) :
  Permutation l l' -> forallb f l = forallb f l'.
Proof.
  induction 1 as [|x l l' _ IH|x y l|l l' l'' _ IH _ IH']; simpl.
  - reflexivity.
  - rewrite IH. reflexivity.
  - destruct (f x), (f y); reflexivity.
  - congruence.
Qed.

Lemma extract_pairs_perm (evs evs' : list Event) :
  Permutation evs evs' -> Permutation (extract_pairs evs) (extract_pairs evs').
Proof.
  intros H. unfold extract_pairs. apply Permutation_flat_map. assumption.
Qed.

(** Two sorted lists with the same elements and no repeated onset are one
    list. *)
Lemma sorted_perm_unique (a : list (float * list float)) :
  forall b,
    StronglySorted key_le a -> StronglySorted key_le b ->
    Permutation a b -> NoDupA same_onset a -> a = b.
Proof.
  induction a as [|x a IH]; intros b Ha Hb Hperm Hnodup.
  - apply Permutation_nil in Hperm. congruence.
  - destruct b as [|y b].
    { symmetry in Hperm. apply Permutation_nil in Hperm. discriminate. }
    inversion Ha as [|? ? Ha' Hx]; subst.
    inversion Hb as [|? ? Hb' Hy]; subst.
    inversion Hnodup as [|? ? Hnot Hnodup']; subst.
    assert (Hxy : x = y).
    { assert (Hyin : In y (x :: a))
        by (eapply Permutation_in; [symmetry; exact Hperm|left; reflexivity]).
      destruct Hyin as [H|Hyin]; [assumption|].
      assert (Hxin : In x (y :: b))
        by (eapply Permutation_in; [exact Hperm|left; reflexivity]).
      destruct Hxin as [H|Hxin]; [congruence|].
      exfalso. apply Hnot. apply InA_alt. exists y. split; [|assumption].
      rewrite Forall_forall in Hx, Hy.
      pose proof (Hx y Hyin) as H1. pose proof (Hy x Hxin) as H2.
      unfold key_le, same_onset in *. float_order. intuition lia. }
    subst y. f_equal. apply IH; try assumption.
    eapply Permutation_cons_inv. exact Hperm.
Qed.

Lemma sorted_by_key_perm_invariant (l l' : list (float * list float)) :
  Permutation l l' -> NoDupA same_onset l ->
  sorted_by_key l = sorted_by_key l'.
Proof.
  intros Hperm Hnodup.
  destruct l as [|x [|y r]].
  - apply Permutation_nil in Hperm. subst. reflexivity.
  - apply Permutation_length_1_inv in Hperm. subst. reflexivity.
  - assert (Hnum : Forall (fun p => number (fst p)) (x :: y :: r))
      by (apply distinct_onsets_numbers; [simpl; lia|assumption]).
    assert (Hnum' : Forall (fun p => number (fst p)) l')
      by (eapply Permutation_Forall; eassumption).
    apply sorted_perm_unique.
    + apply sorted_by_key_sorted. assumption.
    + apply sorted_by_key_sorted. assumption.
    + rewrite !sorted_by_key_perm. assumption.
    + eapply NoDupA_perm; [exact same_onset_sym| |exact Hnodup].
      symmetry. apply sorted_by_key_perm.
Qed.

Lemma continuous_clip_perm (evs evs' : list Event) (ts : list float) :
  Permutation evs evs' -> NoDupA same_onset (extract_pairs evs) ->
  continuous_clip (evs, ts) = continuous_clip (evs', ts).
Proof.
  intros Hperm Hnodup. rewrite !continuous_clip_closed.
  rewrite (forallb_perm has_onset_keys evs evs' Hperm).
  destruct (forallb has_onset_keys evs'); [|reflexivity].
  unfold interpolate_clip.
  rewrite (sorted_by_key_perm_invariant (extract_pairs evs)
             (extract_pairs evs') (extract_pairs_perm evs evs' Hperm) Hnodup).
  reflexivity.
Qed.

Lemma for_each_combine_Forall2 {A B C : Type} (R : A -> A -> Prop)
    (f : A * B -> result C) (l l' : list A) :
  Forall2 R l l' ->
  (forall a a' b, In a l -> R a a' -> f (a, b) = f (a', b)) ->
  forall bs, for_each f (combine l bs) = for_each f (combine l' bs).
Proof.
  induction 1 as [|a a' l l' Ha Hl IH]; intros Hf bs; [reflexivity|].
  destruct bs as [|b bs]; [reflexivity|].
  cbn [combine for_each]. rewrite (Hf a a' b (or_introl eq_refl) Ha).
  rewrite IH; [reflexivity|]. intros; apply Hf; [right|]; assumption.
Qed.

Section EventOrder.

Variable set_iter : list Interval -> list Interval.

(** X8.  When no two events of a clip have the same onset, the order of the
    events in the clip's list does not matter to the continuous policy: the
    call gives the same result, or the same exception, on any rearrangement
    of each clip's events. *)
Theorem continuous_policy_ignores_event_order
    (labels labels' : list (list Event)) (timestamps : list (list float))
    (to_onehot : bool) (default_label : pyval) :
  Forall2 (@Permutation Event) labels labels' ->
  (forall evs, In evs labels -> NoDupA same_onset (extract_pairs evs)) ->
  get_labels_for_timestamps set_iter labels timestamps "continuous" to_onehot
    default_label
  = get_labels_for_timestamps set_iter labels' timestamps "continuous"
      to_onehot default_label.
Proof.
  intros Hperm Hnodup.
  pose proof (Forall2_length Hperm) as Hlen'.
  destruct (Nat.eq_dec (length labels) (length timestamps)) as [Hlen|Hlen].
  - rewrite (get_labels_body set_iter labels timestamps "continuous" _ _ Hlen).
    rewrite (get_labels_body set_iter labels' timestamps "continuous" _ _)
      by congruence.
    cbn [String.eqb Ascii.eqb Bool.eqb].
    apply (for_each_combine_Forall2 (@Permutation Event)); [assumption|].
    intros evs evs' ts Hin Hp. apply continuous_clip_perm; auto.
  - rewrite !get_labels_length_mismatch by congruence. reflexivity.
Qed.

End EventOrder.

(** * Further properties of the split consolidator *)

(** ** What a completed fill pass has checked and stored *)

Ltac bind_inv_as H E :=
  match type of H with
  | bind ?m _ = Ok _ =>
      let a := fresh "a" in
      destruct m as [a|] eqn:E; cbn [bind] in H; [|discriminate H]
  end.

Lemma fill_step_inv (metadata : Metadata) (N D : nat) (f : File)
    (idx : nat) (labels : list json) (stamps : list (string * json))
    (idx' : nat) (labels' : list json) (stamps' : list (string * json)) :
  fill_step metadata N D (idx, labels, stamps) f = Ok (idx', labels', stamps') ->
  validated_file metadata D f
  /\ labels' = labels ++ file_labels metadata f
  /\ stamps' = stamps ++ (if is_event_or_continuous metadata
                          then file_stamps f else [])
  /\ (is_event_or_continuous metadata = true ->
      length (file_labels metadata f) = row_count metadata f
      /\ length (file_stamps f) = row_count metadata f).
Proof.
  unfold fill_step, validated_file, file_labels, file_stamps, row_count,
    columns, expected_rank.
  intros H. bind_inv_as H Eemb. bind_inv_as H Elbl.
  unfold open_file in Eemb, Elbl.
  destruct (embedding_npy f) as [emb|]; [|discriminate].
  injection Eemb as <-.
  destruct (target_labels_json f) as [lbl|]; [|discriminate].
  injection Elbl as <-.
  destruct (embedding_type metadata =? "scene")%string eqn:Escene.
  - assert (Hnot : is_event_or_continuous metadata = false).
    { unfold is_event_or_continuous. apply String.eqb_eq in Escene.
      rewrite Escene. reflexivity. }
    rewrite Hnot.
    bind_inv_as H Erank. bind_inv_as H Ed. bind_inv_as H Eidx.
    bind_inv_as H Ecol. bind_inv_as H Epred. injection H as <- <- <-.
    apply assert_ok, Nat.eqb_eq in Erank.
    destruct emb as [dt [|d [|d' sh]]]; try discriminate.
    unfold index in Ed. simpl in Ed. injection Ed as <-.
    destruct ((d =? D) || (d =? 1)) eqn:Ecol'; [|discriminate].
    assert (Hcol : d = D \/ d = 1).
    { apply orb_true_iff in Ecol' as [Hc|Hc]; apply Nat.eqb_eq in Hc; auto. }
    rewrite app_nil_r. repeat split; try discriminate.
    exists (mkArray dt [d]), lbl. repeat split; try assumption.
    + intros Hmc. apply String.eqb_eq in Hmc. rewrite Hmc in Epred.
      bind_inv_as Epred Elen. apply assert_ok, Nat.eqb_eq in Epred. congruence.
    + intros Hml.
      destruct (prediction_type metadata =? "multiclass")%string eqn:Emc.
      * apply String.eqb_eq in Emc. rewrite Emc in Hml. discriminate.
      * apply String.eqb_eq in Hml. rewrite Hml in Epred.
        apply assert_ok in Epred. assumption.
  - destruct (is_event_or_continuous metadata) eqn:Eevent; [|discriminate].
    bind_inv_as H Erank. bind_inv_as H Er. bind_inv_as H Ed.
    bind_inv_as H Ecol. bind_inv_as H En. bind_inv_as H Ern.
    bind_inv_as H Eitems. bind_inv_as H Ets. bind_inv_as H Estamps.
    bind_inv_as H Em. bind_inv_as H Erm. bind_inv_as H Enm.
    injection H as <- <- <-.
    apply assert_ok, Nat.eqb_eq in Erank, Ern, Erm, Enm.
    destruct emb as [dt [|r [|d [|d' sh]]]]; try discriminate.
    unfold index in Er, Ed. simpl in Er, Ed.
    injection Er as <-. injection Ed as <-.
    destruct (broadcasts r d _ D) eqn:Eb; [|discriminate].
    unfold broadcasts in Eb. apply andb_true_iff in Eb as [_ Ecol'].
    assert (Hcol : d = D \/ d = 1).
    { apply orb_true_iff in Ecol' as [Hc|Hc]; apply Nat.eqb_eq in Hc; auto. }
    unfold open_file in Ets.
    destruct (timestamps_json f) as [timestamps|]; [|discriminate].
    injection Ets as <-. rewrite Estamps. simpl.
    split; [|split; [reflexivity|split; [reflexivity|intros _; split]]].
    + exists (mkArray dt [r; d]), lbl. repeat split; try assumption.
      exists timestamps. subst. auto.
    + rewrite Ern. apply (json_iter_len _ _ _ En Eitems).
    + rewrite length_map, Erm. apply (json_iter_len _ _ _ Em Estamps).
Qed.

Lemma fill_loop_inv (metadata : Metadata) (N D : nat) (files : list File) :
  forall idx labels stamps idx' labels' stamps',
    fill_loop metadata N D (idx, labels, stamps) files
    = Ok (idx', labels', stamps') ->
    Forall (validated_file metadata D) files
    /\ labels' = labels ++ flat_map (file_labels metadata) files
    /\ stamps' = stamps ++ (if is_event_or_continuous metadata
                            then flat_map file_stamps files else [])
    /\ (is_event_or_continuous metadata = true ->
        Forall (fun f =>
                  length (file_labels metadata f) = row_count metadata f
                  /\ length (file_stamps f) = row_count metadata f) files).
Proof.
  induction files as [|f files IH];
    intros idx labels stamps idx' labels' stamps' H; cbn [fill_loop] in H.
  - injection H as <- <- <-. simpl.
    destruct (is_event_or_continuous metadata); rewrite !app_nil_r; auto.
  - bind_inv H. destruct a as [[idx1 labels1] stamps1].
    apply fill_step_inv in E as (Hf & -> & -> & Hlen).
    apply IH in H as (Hfiles & -> & -> & Hlens).
    split; [constructor; assumption|].
    split; [simpl; rewrite app_assoc; reflexivity|].
    split.
    + destruct (is_event_or_continuous metadata); simpl;
        rewrite <- ?app_assoc; reflexivity.
    + intros He. constructor; auto.
Qed.

Section ConsolidationFacts.

Variable shuffle : list File -> list File.

(** X12.  When consolidation completes, the label list is the
    concatenation, in the shuffled order of the files, of what each file
    contributes, and for event and continuous splits the (file, timestamp)
    list is the concatenation of the files' pairs in the same order, each
    file contributing as many labels and as many pairs as its embedding has
    rows: position [k] of both lists and row [k] of the map belong to the
    same file and the same row of it. *)
Theorem consolidated_lists_align (metadata : Metadata) (files : list File)
    (out : Consolidated) :
  memmap_embeddings shuffle metadata files = Ok out ->
  target_labels out = flat_map (file_labels metadata) (shuffle files)
  /\ (is_event_or_continuous metadata = false ->
      filename_timestamps out = None)
  /\ (is_event_or_continuous metadata = true ->
      filename_timestamps out = Some (flat_map file_stamps (shuffle files))
      /\ Forall (fun f =>
                   length (file_labels metadata f) = row_count metadata f
                   /\ length (file_stamps f) = row_count metadata f)
                (shuffle files)).
Proof.
  unfold memmap_embeddings. intros H.
  bind_inv_as H Esize. destruct a as [N D]. bind_inv_as H Emap.
  bind_inv_as H Efill. destruct a0 as [[idx labels] stamps].
  apply fill_loop_inv in Efill as (_ & -> & -> & Hblocks).
  destruct (is_event_or_continuous metadata).
  - bind_inv_as H Elen. injection H as <-. simpl.
    repeat split; try discriminate; auto.
  - injection H as <-. simpl. repeat split; try discriminate; auto.
Qed.

Hypothesis shuffle_perm : forall l, Permutation (shuffle l) l.

(** X11.  Consolidation completes only on files it has checked: every
    file of the split has its embedding and its labels on disk, the
    embedding has the rank of the embedding type and as many columns as the
    map or one, a multiclass scene file has one label and a multilabel one a
    list, and an event or continuous file has as many labels and as many
    timestamps as its embedding has rows. *)
Theorem consolidation_validates_files (metadata : Metadata)
    (files : list File) (out : Consolidated) :
  memmap_embeddings shuffle metadata files = Ok out ->
  Forall (validated_file metadata (snd (embedding_dimensions out))) files.
Proof.
  unfold memmap_embeddings. intros H.
  bind_inv_as H Esize. destruct a as [N D]. bind_inv_as H Emap.
  bind_inv_as H Efill. destruct a0 as [[idx labels] stamps].
  apply fill_loop_inv in Efill as (Hfiles & _).
  assert (Hdim : snd (embedding_dimensions out) = D).
  { destruct (is_event_or_continuous metadata).
    - bind_inv_as H Elen. injection H as <-. reflexivity.
    - injection H as <-. reflexivity. }
  rewrite Hdim. eapply Permutation_Forall; [apply shuffle_perm|assumption].
Qed.

(** X10.  With an embedding type other than "scene", "event" and
    "continuous" nothing is consolidated: the first round of pass 1 raises
    [ValueError] when the first embedding file is there, the assertion on
    the file fails when it is not, and a split without files stops at the
    read of [ndim]. *)
Theorem unknown_embedding_type_stops (metadata : Metadata)
    (files : list File) :
  embedding_type metadata <> "scene" ->
  embedding_type metadata <> "event" ->
  embedding_type metadata <> "continuous" ->
  memmap_embeddings shuffle metadata files
  = match shuffle files with
    | [] => Raise UnboundLocalError
    | f :: _ =>
        match embedding_npy f with
        | Some _ => Raise ValueError
        | None => Raise AssertionError
        end
    end.
Proof.
  intros Hs He Hc. apply String.eqb_neq in Hs, He, Hc.
  unfold memmap_embeddings, sizing_pass.
  destruct (shuffle files) as [|f rest]; [reflexivity|].
  cbn [sizing_loop]. unfold sizing_step, is_event_or_continuous.
  rewrite Hs, He, Hc. destruct (embedding_npy f); reflexivity.
Qed.

End ConsolidationFacts.

(** ** Embeddings of one column *)

Section SingleColumn.

Variables (metadata : Metadata) (D : nat).
Hypothesis is_event : is_event_or_continuous metadata = true.

Lemma broadcastable_rank_ok (f : File) :
  broadcastable_file D f -> rank_ok metadata f = true.
Proof.
  unfold rank_ok, expected_rank.
  rewrite (event_not_scene metadata is_event).
  intros [H|H]; destruct H as (dt & rows & ls & tl & Hemb & _);
    rewrite Hemb; reflexivity.
Qed.

Lemma fill_step_broadcast (N : nat) (f : File) (idx : nat)
    (labels : list json) (stamps : list (string * json)) :
  broadcastable_file D f -> idx + row_count metadata f <= N ->
  exists labels' stamps',
    fill_step metadata N D (idx, labels, stamps) f
    = Ok (idx + row_count metadata f, labels', stamps').
Proof.
  intros Hf Hfit.
  assert (H : exists d dt rows ls tl,
             (d = D \/ d = 1)
             /\ embedding_npy f = Some (mkArray dt [rows; d])
             /\ target_labels_json f = Some (JList ls)
             /\ timestamps_json f = Some (JList tl)
             /\ length ls = rows /\ length tl = rows).
  { destruct Hf as [Hf|Hf];
      destruct Hf as (dt & rows & ls & tl & Hemb & Hlbl & Hts & Hls & Htl).
    - exists D, dt, rows, ls, tl. auto 10.
    - exists 1, dt, rows, ls, tl. auto 10. }
  destruct H as (d & dt & rows & ls & tl & Hd & Hemb & Hlbl & Hts & Hls & Htl).
  assert (Hrows : row_count metadata f = rows).
  { unfold row_count. rewrite (event_not_scene metadata is_event), Hemb.
    reflexivity. }
  rewrite Hrows in *. unfold fill_step.
  rewrite Hemb, Hlbl, Hts, (event_not_scene metadata is_event), is_event.
  cbn [bind open_file assert arr_ndim arr_shape length Nat.eqb index
       nth_error Json.len Json.iter].
  replace (Nat.min (idx + rows) N - Nat.min idx N) with rows by lia.
  assert (Hb : broadcasts rows d rows D = true).
  { unfold broadcasts. rewrite Nat.eqb_refl. simpl.
    destruct Hd as [->| ->]; [rewrite Nat.eqb_refl; reflexivity|].
    apply orb_true_r. }
  rewrite Hb, Hls, Htl, !Nat.eqb_refl. cbn [bind assert]. eauto.
Qed.

Lemma fill_loop_broadcast (N : nat) (files : list File) :
  Forall (broadcastable_file D) files ->
  forall idx labels stamps,
    idx + total_rows metadata files <= N ->
    exists st, fill_loop metadata N D (idx, labels, stamps) files = Ok st.
Proof.
  induction 1 as [|f files Hf Hfiles IH]; intros idx labels stamps Hfit;
    cbn [fill_loop total_rows fold_right] in *.
  - eauto.
  - fold (total_rows metadata files) in *.
    destruct (fill_step_broadcast N f idx labels stamps Hf)
      as (labels' & stamps' & Hstep); [lia|].
    rewrite Hstep. cbn [bind]. apply IH. lia.
Qed.

End SingleColumn.

Section SingleColumnSplits.

Variable shuffle : list File -> list File.
Hypothesis shuffle_perm : forall l, Permutation (shuffle l) l.

(** X13.  A column count that differs is not always refused: in an event
    or continuous split whose embeddings have [D] columns or one column,
    with at least one row and one column to map, consolidation completes
    with [D] columns as soon as the last file of the shuffled order has [D];
    the one-column embeddings are broadcast over the [D] columns of their
    rows. *)
Theorem single_column_files_pass (metadata : Metadata) (D : nat)
    (files : list File) :
  is_event_or_continuous metadata = true ->
  files <> [] ->
  Forall (broadcastable_file D) files ->
  columns (last (shuffle files) no_file) = D ->
  0 < total_rows metadata files * D ->
  exists out,
    memmap_embeddings shuffle metadata files = Ok out
    /\ embedding_dimensions out = (total_rows metadata files, D).
Proof.
  intros Hevent Hne Hfiles Hlast Hpos.
  pose proof (shuffle_nonempty shuffle shuffle_perm files Hne) as Hne'.
  pose proof (shuffle_total_rows shuffle shuffle_perm metadata files) as Hrows.
  apply (shuffle_Forall shuffle shuffle_perm) in Hfiles.
  assert (Hsize : sizing_pass metadata (shuffle files)
                  = Ok (total_rows metadata files, D)).
  { rewrite sizing_pass_closed by (right; assumption).
    replace (forallb (rank_ok metadata) (shuffle files)) with true.
    - unfold no_file in Hlast. rewrite Hlast, Hrows.
      destruct (shuffle files); [congruence|reflexivity].
    - symmetry. apply forallb_forall. intros f Hf.
      rewrite Forall_forall in Hfiles.
      apply (broadcastable_rank_ok metadata D Hevent). auto. }
  destruct (fill_loop_broadcast metadata D Hevent (total_rows metadata files)
              (shuffle files) Hfiles 0 [] [])
    as [[[idx labels] stamps] Hfill]; [simpl; lia|].
  pose proof (fill_loop_counts _ _ _ _ _ _ _ _ _ _ Hfill) as (_ & Hl & Hs).
  rewrite Hevent in Hs. simpl in Hl, Hs.
  unfold memmap_embeddings. rewrite Hsize. cbn [bind].
  rewrite (memmap_rows _ _ Hpos). cbn [bind]. rewrite Hfill.
  cbn [bind]. rewrite Hevent, Hl, Hs, Nat.eqb_refl. cbn [assert bind].
  eexists. split; reflexivity.
Qed.

End SingleColumnSplits.

(** * Properties of the task driver *)

(** ** Reading the label vocabulary *)

Import Vocabulary.

Lemma string_app_nil_r (s : string) : (s ++ "")%string = s.
Proof. induction s; simpl; congruence. Qed.

Lemma string_app_assoc (a b c : string) :
  ((a ++ b) ++ c)%string = (a ++ (b ++ c))%string.
Proof. induction a; simpl; congruence. Qed.

Lemma concat_empty_cons (x : string) (xs : list string) :
  String.concat "" (x :: xs) = (x ++ String.concat "" xs)%string.
Proof.
  destruct xs; simpl; [rewrite string_app_nil_r|]; reflexivity.
Qed.

Lemma occurs_app (c : Ascii.ascii) (a b : string) :
  occurs c (a ++ b) = occurs c a || occurs c b.
Proof.
  induction a as [|c' a IH]; simpl; [reflexivity|].
  rewrite IH, orb_assoc. reflexivity.
Qed.

Lemma split_pieces_app (sep : Ascii.ascii) (a b : string) :
  occurs sep a = false ->
  split_pieces sep (a ++ String sep b)
  = (a, fst (split_pieces sep b) :: snd (split_pieces sep b)).
Proof.
  induction a as [|c a IH]; simpl; intros H.
  - rewrite Ascii.eqb_refl. destruct (split_pieces sep b). reflexivity.
  - apply orb_false_iff in H as [Hc Ha]. rewrite (IH Ha), Hc. reflexivity.
Qed.

Lemma split_app (sep : Ascii.ascii) (a b : string) :
  occurs sep a = false ->
  split sep (a ++ String sep b) = a :: split sep b.
Proof.
  intros H. unfold split. rewrite (split_pieces_app sep a b H).
  destruct (split_pieces sep b). reflexivity.
Qed.

Lemma split_plain (sep : Ascii.ascii) (a : string) :
  occurs sep a = false -> split sep a = [a].
Proof.
  unfold split. induction a as [|c a IH]; simpl; intros H; [reflexivity|].
  apply orb_false_iff in H as [Hc Ha]. specialize (IH Ha).
  destruct (split_pieces sep a) as [piece rest]. rewrite Hc.
  injection IH as -> ->. reflexivity.
Qed.

(** The lines of the file's body. *)
Lemma split_csv_lines (rows : list (string * string)) :
  Forall (fun row => plain_field (fst row) /\ plain_field (snd row)) rows ->
  split LF (String.concat "" (map (csv_line (String LF "")) rows))
  = map (fun row => (fst row ++ String comma (snd row))%string) rows ++ [""%string].
Proof.
  induction 1 as [|row rows [[_ [H0 _]] [_ [H1 _]]] _ IH]; [reflexivity|].
  cbn [map]. rewrite concat_empty_cons. unfold csv_line at 1.
  replace ((fst row ++ String comma (snd row) ++ String LF "")
           ++ String.concat "" (map (csv_line (String LF "")) rows))%string
    with ((fst row ++ String comma (snd row))
          ++ String LF (String.concat "" (map (csv_line (String LF "")) rows)))%string.
  - rewrite split_app, IH; [reflexivity|].
    rewrite occurs_app. simpl. rewrite H0, H1. reflexivity.
  - rewrite ?string_app_assoc. simpl. rewrite ?string_app_assoc. reflexivity.
Qed.

Lemma csv_line_fields (row : string * string) :
  plain_field (fst row) -> plain_field (snd row) ->
  split comma (fst row ++ String comma (snd row)) = [fst row; snd row].
Proof.
  intros [H0 _] [H1 _]. rewrite split_app by assumption.
  rewrite split_plain by assumption. reflexivity.
Qed.

Lemma csv_body_not_empty (row : string * string) :
  negb ((fst row ++ String comma (snd row)) =? "")%string = true.
Proof. destruct (fst row); reflexivity. Qed.

Lemma last_map {A B : Type} (f : A -> B) (l : list A) (d : A) :
  last (map f l) (f d) = f (last l d).
Proof.
  induction l as [|a [|b l] IH]; try reflexivity. exact IH.
Qed.

(** Text without a carriage return is read as it is. *)
Lemma universal_newlines_app (a rest : string) :
  occurs CR a = false ->
  universal_newlines (a ++ rest) = (a ++ universal_newlines rest)%string.
Proof.
  induction a as [|c a IH]; intros H; [reflexivity|].
  cbn [occurs] in H. apply orb_false_iff in H as [Hc Ha].
  cbn [append universal_newlines]. rewrite Hc, (IH Ha). reflexivity.
Qed.

(** Each of the three line endings is read as a line feed. *)
Lemma universal_newlines_eol (eol rest : string) :
  line_ending eol -> begins_with_LF rest = false ->
  universal_newlines (eol ++ rest) = String LF (universal_newlines rest).
Proof.
  intros [->|[->| ->]] Hrest.
  - reflexivity.
  - reflexivity.
  - cbn [append universal_newlines].
    replace (Ascii.eqb CR CR) with true by reflexivity.
    destruct rest as [|c rest]; [reflexivity|].
    cbn [begins_with_LF] in Hrest. rewrite Hrest. reflexivity.
Qed.

Lemma begins_with_LF_app (a b : string) :
  occurs LF a = false -> begins_with_LF b = false ->
  begins_with_LF (a ++ b) = false.
Proof.
  destruct a as [|c a]; simpl; intros Ha Hb; [assumption|].
  apply orb_false_iff in Ha as [Hc _]. exact Hc.
Qed.

Lemma csv_body_begin (eol : string) (rows : list (string * string)) :
  Forall (fun row => plain_field (fst row) /\ plain_field (snd row)) rows ->
  begins_with_LF (String.concat "" (map (csv_line eol) rows)) = false.
Proof.
  intros H. destruct H as [|row rows [[_ [H0 _]] _] _]; [reflexivity|].
  cbn [map]. rewrite concat_empty_cons. unfold csv_line.
  rewrite string_app_assoc. apply begins_with_LF_app; [assumption|reflexivity].
Qed.

(** What [fp.read()] returns for a vocabulary file, whatever its line
    ending. *)
Lemma universal_newlines_csv_body (eol : string)
    (rows : list (string * string)) :
  line_ending eol ->
  Forall (fun row => plain_field (fst row) /\ plain_field (snd row)) rows ->
  universal_newlines (String.concat "" (map (csv_line eol) rows))
  = String.concat "" (map (csv_line (String LF "")) rows).
Proof.
  intros Heol Hrows.
  induction Hrows as [|row rows [[_ [_ H0]] [_ [_ H1]]] Hrest IH];
    [reflexivity|].
  cbn [map]. rewrite !concat_empty_cons. unfold csv_line at 1 3.
  rewrite !string_app_assoc. cbn [append]. rewrite ?string_app_assoc.
  rewrite (universal_newlines_app _ _ H0). cbn [universal_newlines].
  replace (Ascii.eqb comma CR) with false by reflexivity.
  rewrite (universal_newlines_app _ _ H1).
  rewrite (universal_newlines_eol eol _ Heol (csv_body_begin eol rows Hrest)).
  rewrite IH. reflexivity.
Qed.

Lemma universal_newlines_csv_text (eol header : string)
    (rows : list (string * string)) :
  line_ending eol -> occurs CR header = false ->
  Forall (fun row => plain_field (fst row) /\ plain_field (snd row)) rows ->
  universal_newlines (csv_text eol header rows)
  = csv_text (String LF "") header rows.
Proof.
  intros Heol Hheader Hrows. unfold csv_text.
  rewrite (universal_newlines_app _ _ Hheader).
  rewrite (universal_newlines_eol eol _ Heol (csv_body_begin eol rows Hrows)).
  rewrite (universal_newlines_csv_body eol rows Heol Hrows). reflexivity.
Qed.

Section VocabularyRoundTrip.

Variable int : string -> result Z.

(** X15.  A vocabulary file with a non-empty header line and one line
    "number,label" per row, each line closed by "\n", by "\r\n" or by "\r",
    is read back row by row: the labels come out in the order of the file,
    and the driver's default label is the label of the last row.  (The
    header holds no line feed and no carriage return, numbers and labels
    hold no comma either, and [int] reads the numbers.) *)
Theorem label_vocabulary_round_trip (eol header : string)
    (rows : list (string * string)) :
  line_ending eol ->
  header <> ""%string -> occurs LF header = false ->
  occurs CR header = false ->
  Forall (fun row =>
            plain_field (fst row) /\ plain_field (snd row)
            /\ exists n, int (fst row) = Ok n) rows ->
  exists label_vocab,
    read_vocabulary_file int (csv_text eol header rows) = Ok label_vocab
    /\ map snd label_vocab = map snd rows
    /\ Forall2 (fun entry row => int (fst row) = Ok (fst entry))
               label_vocab rows
    /\ (rows <> [] ->
        default_label_of int (universal_newlines (csv_text eol header rows))
        = Ok (PyStr (snd (last rows (""%string, ""%string))))).
Proof.
  intros Heol Hheader Hlf Hcr Hrows.
  assert (Hplain : Forall (fun row => plain_field (fst row)
                                      /\ plain_field (snd row)) rows).
  { eapply Forall_impl; [|exact Hrows]. intros row (H0 & H1 & _). auto. }
  unfold read_vocabulary_file.
  rewrite (universal_newlines_csv_text eol header rows Heol Hcr Hplain).
  assert (Hread : read_label_vocab int (csv_text (String LF "") header rows)
                  = for_each (fun row => number <- int (fst row) ;;
                                         Ok (number, snd row)) rows).
  { unfold read_label_vocab, csv_text. cbn [append].
    rewrite (split_app LF header _ Hlf), (split_csv_lines rows Hplain).
    cbn [filter]. apply String.eqb_neq in Hheader. rewrite Hheader.
    cbn [negb tl]. rewrite filter_app. cbn [filter String.eqb negb].
    rewrite app_nil_r.
    clear Hrows. induction Hplain as [|row rows [H0 H1] _ IH]; [reflexivity|].
    cbn [map filter]. rewrite csv_body_not_empty. cbn [map for_each].
    rewrite (csv_line_fields row H0 H1). cbn [index nth_error bind].
    destruct (int (fst row)); cbn [bind]; [|reflexivity].
    rewrite IH. reflexivity. }
  assert (Hrun : exists label_vocab,
             for_each (fun row => number <- int (fst row) ;;
                                  Ok (number, snd row)) rows = Ok label_vocab
             /\ map snd label_vocab = map snd rows
             /\ Forall2 (fun entry row => int (fst row) = Ok (fst entry))
                        label_vocab rows).
  { clear Hread Hplain.
    induction Hrows as [|row rows (_ & _ & n & Hn) _ IH].
    - exists []. repeat split. constructor.
    - destruct IH as (vocab & Hrun & Hsnd & Hfst).
      exists ((n, snd row) :: vocab). cbn [for_each]. rewrite Hn. cbn [bind].
      rewrite Hrun. cbn [bind]. split; [reflexivity|]. split.
      + simpl. congruence.
      + constructor; assumption. }
  destruct Hrun as (label_vocab & Hrun & Hsnd & Hfst).
  exists label_vocab. rewrite Hread.
  split; [assumption|]. split; [assumption|]. split; [assumption|].
  intros Hne. unfold default_label_of. rewrite Hread, Hrun. cbn [bind].
  unfold last_label. destruct label_vocab as [|entry label_vocab].
  - destruct rows; [congruence|discriminate].
  - cbn [bind]. do 2 f_equal.
    rewrite <- (last_map snd (entry :: label_vocab) (0%Z, ""%string)).
    rewrite <- (last_map snd rows (""%string, ""%string)).
    rewrite Hsnd. reflexivity.
Qed.

(** A file with nothing but its header has no last row to take the default
    label from. *)
Lemma header_only_vocabulary (header : string) :
  occurs LF header = false ->
  default_label_of int (header ++ String LF "") = Raise IndexError.
Proof.
  intros Hlf. unfold default_label_of, read_label_vocab.
  rewrite (split_app LF header _ Hlf). cbn [split split_pieces filter].
  destruct (negb (header =? "")%string); reflexivity.
Qed.

End VocabularyRoundTrip.

(** A carriage return in a label is not read back: the file of the one row
    (0, "cat\r") gives the label "cat" and an empty line that is dropped. *)
Lemma carriage_return_is_lost :
  read_vocabulary_file int_of_digits
    (csv_text (String LF "") "idx,label" [("0", "cat" ++ String CR "")])%string
  = Ok [(0%Z, "cat"%string)].
Proof. reflexivity. Qed.

(** ** The alignment step *)

Lemma interpolate_raises_index (onsets : list float) (values : list (list float))
    (t : float) (e : exn) :
  interpolate onsets values t = Raise e -> e = IndexError.
Proof.
  assert (Hindex : forall (A : Type) (l : list A) i e',
             index l i = Raise e' -> e' = IndexError).
  { intros A l i e'. unfold index. destruct (nth_error l i); congruence. }
  unfold interpolate.
  destruct (_ =? 0); [apply Hindex|].
  destruct (_ =? length values).
  - unfold Np.last_row. destruct values; [congruence|apply Hindex].
  - destruct (index onsets _) eqn:E1; cbn [bind];
      [|intros H; injection H as <-; eapply Hindex; eassumption].
    destruct (index onsets _) eqn:E2 in |- *; cbn [bind];
      [|intros H; injection H as <-; eapply Hindex; eassumption].
    destruct (index values _) eqn:E3; cbn [bind];
      [|intros H; injection H as <-; eapply Hindex; eassumption].
    destruct (index values _) eqn:E4 in |- *; cbn [bind];
      [discriminate|intros H; injection H as <-; eapply Hindex; eassumption].
Qed.

Lemma continuous_clip_raise_kinds (clip : list Event * list float) (e : exn) :
  continuous_clip clip = Raise e ->
  e = KeyError \/ e = ValueError \/ e = IndexError.
Proof.
  destruct clip as [evs ts]. rewrite continuous_clip_closed.
  destruct (forallb has_onset_keys evs); [|intros H; injection H as <-; auto].
  unfold interpolate_clip.
  destruct (Np.asarray _) as [values|e'] eqn:Ea; cbn [bind].
  - intros H. apply for_each_raise_inv in H as (t & _ & Ht).
    destruct (interpolate _ values t) as [v|e'] eqn:Ei; [discriminate|].
    cbn [bind] in Ht. injection Ht as <-.
    right. right. eapply interpolate_raises_index. eassumption.
  - intros H. injection H as <-. unfold Np.asarray in Ea.
    destruct (map snd _); [discriminate|].
    destruct (forallb _ _); [discriminate|]. injection Ea as <-. auto.
Qed.

Lemma default_clip_raise_kinds (set_iter : list Interval -> list Interval)
    (to_onehot : bool) (default_label : pyval) (clip : list Event * list float)
    (e : exn) :
  default_clip set_iter to_onehot default_label clip = Raise e ->
  e = KeyError \/ e = ValueError.
Proof.
  unfold default_clip.
  destruct (add_events (fst clip) IntervalTree.empty) as [tree|e'] eqn:Ea;
    [discriminate|].
  cbn [bind]. intros H. injection H as <-.
  destruct (add_events_raise_inv _ _ _ Ea) as [[-> _]|[-> _]]; auto.
Qed.

Section DriverAlignmentFacts.

Variable set_iter : list Interval -> list Interval.
Variable int : string -> result Z.

(** X16.  For a non-empty batch of files of the split and a vocabulary that
    is read, the driver's alignment step is the aligner's call and nothing
    else: the policy is "continuous" for a continuous task and "default"
    for every other, [to_onehot] is set for multiclass tasks, the default
    label is the vocabulary's last, and the two assertions after the call
    never fail.  The smoothed policy is never asked for, and a failure of
    the step is an [AssertionError], a [KeyError], a [ValueError] or an
    [IndexError]. *)
Theorem driver_alignment_is_the_aligner_call (metadata : Metadata)
    (text : string) (split_data : list (string * list Event))
    (filenames : list string) (timestamps : list (list float))
    (labels : list (list Event)) (default_label : pyval) :
  filenames <> [] ->
  for_each (lookup_labels split_data) filenames = Ok labels ->
  Vocabulary.default_label_of int text = Ok default_label ->
  align_batch set_iter int metadata (Some text) split_data filenames
    timestamps
  = get_labels_for_timestamps set_iter labels timestamps
      (if (embedding_type metadata =? "continuous")%string
       then "continuous" else "default")
      (prediction_type metadata =? "multiclass")%string default_label
  /\ forall e,
       align_batch set_iter int metadata (Some text) split_data filenames
         timestamps = Raise e ->
       e = AssertionError \/ e = KeyError \/ e = ValueError \/ e = IndexError.
Proof.
  intros Hne Hlabels Hvocab.
  unfold Vocabulary.default_label_of in Hvocab.
  bind_inv_as Hvocab Eread. bind_inv_as Hvocab Elast.
  injection Hvocab as <-.
  assert (Hrun : align_batch set_iter int metadata (Some text) split_data
                   filenames timestamps
                 = get_labels_for_timestamps set_iter labels timestamps
                     (labeling_mode metadata)
                     (prediction_type metadata =? "multiclass")%string
                     (PyStr a0)).
  { unfold align_batch. rewrite Hlabels. cbn [bind open_file].
    rewrite Eread. cbn [bind]. rewrite Elast. cbn [bind].
    destruct (get_labels_for_timestamps _ _ _ _ _ _) as [out|e] eqn:E;
      [|reflexivity].
    cbn [bind].
    destruct (get_labels_rows _ _ _ _ _ _ _ E) as (Hlen & Hlen' & Hrows).
    pose proof (for_each_length _ _ _ Hlabels) as Hfiles.
    assert (Hout : length out = length filenames) by congruence.
    rewrite Hout, Nat.eqb_refl. cbn [assert bind].
    destruct out as [|first out];
      [destruct filenames; [congruence|discriminate]|].
    destruct timestamps as [|first_timestamps timestamps]; [discriminate|].
    cbn [index nth_error bind].
    rewrite (Hrows 0 first first_timestamps eq_refl eq_refl), Nat.eqb_refl.
    reflexivity. }
  split; [exact Hrun|].
  intros e He. rewrite Hrun in He. clear Hrun.
  destruct (Nat.eq_dec (length labels) (length timestamps)) as [Hlen|Hlen].
  - rewrite (get_labels_body _ _ _ _ _ _ Hlen) in He. unfold labeling_mode in He.
    destruct (embedding_type metadata =? "continuous")%string;
      cbn [String.eqb Ascii.eqb Bool.eqb] in He;
      apply for_each_raise_inv in He as (clip & _ & Hclip).
    + apply continuous_clip_raise_kinds in Hclip. tauto.
    + apply default_clip_raise_kinds in Hclip. tauto.
  - rewrite get_labels_length_mismatch in He by assumption.
    injection He as <-. auto.
Qed.

End DriverAlignmentFacts.

(** ** The persister and the path scheme of pass 2 *)

Lemma replace_from_skip_all (old new s : string) (skip : nat) :
  String.length s <= skip -> replace_from old new skip s = EmptyString.
Proof.
  revert skip; induction s as [|c s IH]; intros skip H; [reflexivity|].
  simpl in H. destruct skip as [|k]; [lia|].
  simpl. apply IH. lia.
Qed.

Lemma prefix_refl (s : string) : String.prefix s s = true.
Proof.
  induction s as [|c s IH]; [reflexivity|].
  simpl. destruct (Ascii.ascii_dec c c) as [_|n]; [exact IH|].
  exfalso; apply n; reflexivity.
Qed.

Lemma string_length_app (a b : string) :
  String.length (a ++ b) = String.length a + String.length b.
Proof. induction a as [|c a IH]; simpl; [|rewrite IH]; reflexivity. Qed.

Lemma occurs_before_tail (old : string) (c : Ascii.ascii) (s : string)
    (n : nat) :
  ~ occurs_before old (String c s) (S n) -> ~ occurs_before old s n.
Proof.
  intros H [i [Hi Hp]]. apply H. exists (S i). split; [lia|exact Hp].
Qed.

(** When [old] occurs in [a ++ old] at its end only, replacing it swaps the
    end. *)
Lemma replace_at_end (old new a : string) :
  old <> EmptyString ->
  ~ occurs_before old (a ++ old) (String.length a) ->
  replace old new (a ++ old) = (a ++ new)%string.
Proof.
  intros Hold. unfold replace.
  induction a as [|c a IH]; intros Hocc.
  - destruct old as [|c o]; [congruence|].
    cbn [append replace_from].
    rewrite (prefix_refl (String c o)).
    rewrite replace_from_skip_all by (simpl; lia).
    apply string_app_nil_r.
  - cbn [append replace_from].
    destruct (String.prefix old (String c (a ++ old))) eqn:Ep.
    + exfalso. apply Hocc. exists 0. split; [simpl; lia|exact Ep].
    + f_equal. apply IH. apply (occurs_before_tail old c). exact Hocc.
Qed.

Lemma prefix_tail (c : Ascii.ascii) (old s : string) (i : nat) :
  String.prefix (String c old) (string_drop i s) = true ->
  String.prefix old (string_drop (S i) s) = true.
Proof.
  revert s; induction i as [|i IH]; intros s H.
  - destruct s as [|d s]; [simpl in H; discriminate|].
    simpl in H |- *. destruct (Ascii.ascii_dec c d); [exact H|discriminate].
  - destruct s as [|d s]; [simpl in H; discriminate|].
    simpl in H. apply IH in H. exact H.
Qed.

Section PathScheme.

Variable joinpath : string -> string.

(** The three paths pass 2 derives for a plain name are the ones the
    persister wrote to. *)
Lemma plain_name_paths (f : string) :
  plain_name joinpath f ->
  replace ".embedding.npy" "" (joinpath (f ++ ".embedding.npy")%string)
  = joinpath f
  /\ (forall new,
        replace "embedding.npy" new (joinpath (f ++ ".embedding.npy")%string)
        = (joinpath f ++ "." ++ new)%string).
Proof.
  intros [Hjoin Hocc]. rewrite Hjoin. split.
  - rewrite replace_at_end; [apply string_app_nil_r|discriminate|].
    intros [i [Hi Hp]]. apply Hocc. exists (S i). split; [lia|].
    apply prefix_tail in Hp. exact Hp.
  - intros new.
    change (joinpath f ++ ".embedding.npy")%string
      with (joinpath f ++ ("." ++ "embedding.npy"))%string.
    rewrite <- string_app_assoc.
    rewrite replace_at_end; [apply string_app_assoc|discriminate|].
    rewrite string_app_assoc, string_length_app.
    cbn [String.length append].
    replace (String.length (joinpath f) + 1) with (S (String.length (joinpath f)))
      by lia.
    exact Hocc.
Qed.

End PathScheme.

Lemma chars_app (a b : string) :
  list_ascii_of_string (a ++ b)
  = list_ascii_of_string a ++ list_ascii_of_string b.
Proof. induction a as [|c a IH]; simpl; [|rewrite IH]; reflexivity. Qed.

Lemma chars_inj (a b : string) :
  list_ascii_of_string a = list_ascii_of_string b -> a = b.
Proof.
  intros H. rewrite <- (string_of_list_ascii_of_string a).
  rewrite <- (string_of_list_ascii_of_string b). rewrite H. reflexivity.
Qed.

Lemma append_inv_tail (a b s : string) : (a ++ s = b ++ s)%string -> a = b.
Proof.
  intros H. apply chars_inj.
  apply (f_equal list_ascii_of_string) in H. rewrite !chars_app in H.
  apply app_inv_tail in H. exact H.
Qed.

Lemma append_ends (a b s s' : string) :
  (a ++ s = b ++ s')%string ->
  rev (list_ascii_of_string s) ++ rev (list_ascii_of_string a)
  = rev (list_ascii_of_string s') ++ rev (list_ascii_of_string b).
Proof.
  intros H. apply (f_equal list_ascii_of_string) in H.
  rewrite !chars_app in H. apply (f_equal (@rev _)) in H.
  rewrite !rev_app_distr in H. exact H.
Qed.

(** Two artifact paths are the same only for the same name and ending. *)
Lemma artifact_path_inj (a b s s' : string) :
  In s artifact_suffixes -> In s' artifact_suffixes ->
  (a ++ s = b ++ s')%string -> a = b /\ s = s'.
Proof.
  intros Hs Hs' H.
  assert (Hcase : s = s' \/
                  rev (list_ascii_of_string s) ++ rev (list_ascii_of_string a)
                  <> rev (list_ascii_of_string s') ++ rev (list_ascii_of_string b)).
  { simpl in Hs, Hs'.
    destruct Hs as [<-|[<-|[<-|[]]]]; destruct Hs' as [<-|[<-|[<-|[]]]];
      try (left; reflexivity); right; simpl; discriminate. }
  destruct Hcase as [->|Hne].
  - split; [|reflexivity]. apply append_inv_tail in H. exact H.
  - exfalso. apply Hne. apply append_ends. exact H.
Qed.

Lemma put_other (path p : string) (c : Disk.content) (disk : Disk.t) :
  p <> path -> Disk.put path c disk p = disk p.
Proof.
  intros H. unfold Disk.put. apply String.eqb_neq in H. rewrite H.
  reflexivity.
Qed.

Lemma put_same (path : string) (c : Disk.content) (disk : Disk.t) :
  Disk.put path c disk path = Some c.
Proof. unfold Disk.put. rewrite String.eqb_refl. reflexivity. Qed.

(** A path that opens holds the content afterwards. *)
Lemma write_ok (cannot_open : string -> option exn) (path : string)
    (c : Disk.content) (disk : Disk.t) :
  cannot_open path = None ->
  Disk.write cannot_open path c disk = (Disk.put path c disk, Ok tt).
Proof. intros H. unfold Disk.write. rewrite H. reflexivity. Qed.

(** A path that does not open stops the write and leaves the disk. *)
Lemma write_refused (cannot_open : string -> option exn) (path : string)
    (c : Disk.content) (disk : Disk.t) (e : exn) :
  cannot_open path = Some e ->
  Disk.write cannot_open path c disk = (disk, Raise e).
Proof. intros H. unfold Disk.write. rewrite H. reflexivity. Qed.

(** A write touches its path only. *)
Lemma write_frame (cannot_open : string -> option exn) (path : string)
    (c : Disk.content) (disk disk' : Disk.t) (r : result unit) (p : string) :
  Disk.write cannot_open path c disk = (disk', r) ->
  p <> path -> disk' p = disk p.
Proof.
  unfold Disk.write. destruct (cannot_open path); intros H Hp;
    injection H as <- _; [reflexivity|apply put_other; exact Hp].
Qed.

Lemma writable_tail (joinpath : string -> string)
    (cannot_open : string -> option exn) (file : string) (rest : list string) :
  writable joinpath cannot_open (file :: rest) ->
  writable joinpath cannot_open rest.
Proof. intros H f s Hf Hs. apply H; [right; exact Hf|exact Hs]. Qed.

Section PersisterFacts.

Variable joinpath : string -> string.
Variable cannot_open : string -> option exn.

Section TimestampFiles.

Variable embeddings : list ndarray.
Variable timestamps : list (list float).
Variable labels : list (list entry).

(** The persister touches the artifact paths of its file names only,
    whether it completes or not. *)
Lemma save_timestamp_from_frame (filename : list string) :
  forall i disk disk' r p,
    save_timestamp_from joinpath cannot_open embeddings timestamps labels i
      filename disk = (disk', r) ->
    (forall f s, In f filename -> In s artifact_suffixes ->
                 p <> (joinpath f ++ s)%string) ->
    disk' p = disk p.
Proof.
  induction filename as [|file rest IH]; intros i disk disk' r p H Hp.
  - simpl in H. injection H as <- _. reflexivity.
  - assert (He : p <> (joinpath file ++ ".embedding.npy")%string)
      by (apply Hp; simpl; auto).
    assert (Ht : p <> (joinpath file ++ ".timestamps.json")%string)
      by (apply Hp; simpl; auto).
    assert (Hl : p <> (joinpath file ++ ".target-labels.json")%string)
      by (apply Hp; simpl; auto).
    cbn [save_timestamp_from] in H.
    destruct (index embeddings i) as [emb|e]; [|injection H as <- _; reflexivity].
    destruct (Disk.write cannot_open _ (Disk.NpyFile emb) disk)
      as [d1 [u1|e1]] eqn:W1;
      [|injection H as <- _; exact (write_frame _ _ _ _ _ _ p W1 He)].
    destruct (index timestamps i) as [ts|e];
      [|injection H as <- _; exact (write_frame _ _ _ _ _ _ p W1 He)].
    destruct (Disk.write cannot_open _ (Disk.JsonFile (tolist ts)) d1)
      as [d2 [u2|e2]] eqn:W2;
      [|injection H as <- _; rewrite (write_frame _ _ _ _ _ _ p W2 Ht);
        exact (write_frame _ _ _ _ _ _ p W1 He)].
    destruct (index labels i) as [row|e];
      [|injection H as <- _; rewrite (write_frame _ _ _ _ _ _ p W2 Ht);
        exact (write_frame _ _ _ _ _ _ p W1 He)].
    destruct (Disk.write cannot_open _ (Disk.JsonFile (JList _)) d2)
      as [d3 [u3|e3]] eqn:W3;
      [|injection H as <- _; rewrite (write_frame _ _ _ _ _ _ p W3 Hl);
        rewrite (write_frame _ _ _ _ _ _ p W2 Ht);
        exact (write_frame _ _ _ _ _ _ p W1 He)].
    apply (IH _ _ _ _ p) in H; [|intros f s Hf Hs; apply Hp; simpl; auto].
    rewrite H, (write_frame _ _ _ _ _ _ p W3 Hl),
      (write_frame _ _ _ _ _ _ p W2 Ht).
    exact (write_frame _ _ _ _ _ _ p W1 He).
Qed.

(** One round of the loop on a name whose paths open. *)
Lemma save_timestamp_round (file : string) (rest : list string) (i : nat)
    (disk : Disk.t) (emb : ndarray) (ts : list float) (row : list entry) :
  writable joinpath cannot_open (file :: rest) ->
  nth_error embeddings i = Some emb ->
  nth_error timestamps i = Some ts ->
  nth_error labels i = Some row ->
  save_timestamp_from joinpath cannot_open embeddings timestamps labels i
    (file :: rest) disk
  = save_timestamp_from joinpath cannot_open embeddings timestamps labels
      (S i) rest
      (Disk.put (joinpath file ++ ".target-labels.json")
         (Disk.JsonFile (JList (map entry_json row)))
         (Disk.put (joinpath file ++ ".timestamps.json")
            (Disk.JsonFile (tolist ts))
            (Disk.put (joinpath file ++ ".embedding.npy")
               (Disk.NpyFile emb) disk))).
Proof.
  intros Hw He Ht Hl. cbn [save_timestamp_from]. unfold index.
  rewrite He. cbv beta iota.
  rewrite (write_ok cannot_open (joinpath file ++ ".embedding.npy"))
    by (apply Hw; simpl; auto).
  cbv beta iota. rewrite Ht. cbv beta iota.
  rewrite (write_ok cannot_open (joinpath file ++ ".timestamps.json"))
    by (apply Hw; simpl; auto).
  cbv beta iota. rewrite Hl. cbv beta iota.
  rewrite (write_ok cannot_open (joinpath file ++ ".target-labels.json"))
    by (apply Hw; simpl; auto).
  reflexivity.
Qed.

(** With an embedding, a row of timestamps and a row of labels for every
    file name, and paths that open, the persister completes. *)
Lemma save_timestamp_from_ok (filename : list string) :
  forall i disk,
    writable joinpath cannot_open filename ->
    i + length filename <= length embeddings ->
    i + length filename <= length timestamps ->
    i + length filename <= length labels ->
    exists disk',
      save_timestamp_from joinpath cannot_open embeddings timestamps labels i
        filename disk = (disk', Ok tt).
Proof.
  induction filename as [|file rest IH]; intros i disk Hw He Ht Hl.
  - exists disk. reflexivity.
  - simpl in He, Ht, Hl.
    destruct (nth_error embeddings i) as [emb|] eqn:Ee;
      [|apply nth_error_None in Ee; lia].
    destruct (nth_error timestamps i) as [ts|] eqn:Et;
      [|apply nth_error_None in Et; lia].
    destruct (nth_error labels i) as [row|] eqn:El;
      [|apply nth_error_None in El; lia].
    rewrite (save_timestamp_round file rest i disk emb ts row Hw Ee Et El).
    apply IH; [exact (writable_tail _ _ _ _ Hw)|lia ..].
Qed.

(** The three files of a name hold the name's position of the batch, when
    the batch has that position; the files written before an exception
    stay. *)
Lemma save_timestamp_from_lookup (filename : list string) :
  forall i disk disk' r k f emb ts row,
    writable joinpath cannot_open filename ->
    NoDup (map joinpath filename) ->
    save_timestamp_from joinpath cannot_open embeddings timestamps labels i
      filename disk = (disk', r) ->
    nth_error filename k = Some f ->
    nth_error embeddings (i + k) = Some emb ->
    nth_error timestamps (i + k) = Some ts ->
    nth_error labels (i + k) = Some row ->
    disk' (joinpath f ++ ".embedding.npy")%string = Some (Disk.NpyFile emb)
    /\ disk' (joinpath f ++ ".timestamps.json")%string
       = Some (Disk.JsonFile (tolist ts))
    /\ disk' (joinpath f ++ ".target-labels.json")%string
       = Some (Disk.JsonFile (JList (map entry_json row))).
Proof.
  induction filename as [|file rest IH];
    intros i disk disk' r k f emb ts row Hw Hnd H Hk He Ht Hl.
  - destruct k; discriminate.
  - simpl in Hnd. apply NoDup_cons_iff in Hnd. destruct Hnd as [Hnotin Hnd].
    destruct k as [|k].
    + simpl in Hk. injection Hk as <-.
      rewrite Nat.add_0_r in He, Ht, Hl.
      rewrite (save_timestamp_round file rest i disk emb ts row Hw He Ht Hl)
        in H.
      assert (Hframe : forall s, In s artifact_suffixes ->
                forall f' s', In f' rest -> In s' artifact_suffixes ->
                  (joinpath file ++ s)%string <> (joinpath f' ++ s')%string).
      { intros s Hs f' s' Hf' Hs' Heq.
        apply artifact_path_inj in Heq; [|assumption|assumption].
        destruct Heq as [Heq _]. apply Hnotin. rewrite Heq.
        apply in_map. exact Hf'. }
      repeat split.
      * rewrite (save_timestamp_from_frame _ _ _ _ _ _ H)
          by (apply Hframe; simpl; auto).
        rewrite put_other
          by (intros Heq; apply artifact_path_inj in Heq;
              [destruct Heq; discriminate|simpl; auto|simpl; auto]).
        rewrite put_other
          by (intros Heq; apply artifact_path_inj in Heq;
              [destruct Heq; discriminate|simpl; auto|simpl; auto]).
        apply put_same.
      * rewrite (save_timestamp_from_frame _ _ _ _ _ _ H)
          by (apply Hframe; simpl; auto).
        rewrite put_other
          by (intros Heq; apply artifact_path_inj in Heq;
              [destruct Heq; discriminate|simpl; auto|simpl; auto]).
        apply put_same.
      * rewrite (save_timestamp_from_frame _ _ _ _ _ _ H)
          by (apply Hframe; simpl; auto).
        apply put_same.
    + simpl in Hk. rewrite Nat.add_succ_r in He, Ht, Hl.
      destruct (nth_error embeddings i) as [emb0|] eqn:Ee;
        [|apply nth_error_None in Ee;
          assert (Hnone : nth_error embeddings (S (i + k)) = None)
            by (apply nth_error_None; lia);
          rewrite Hnone in He; discriminate He].
      destruct (nth_error timestamps i) as [ts0|] eqn:Et;
        [|apply nth_error_None in Et;
          assert (Hnone : nth_error timestamps (S (i + k)) = None)
            by (apply nth_error_None; lia);
          rewrite Hnone in Ht; discriminate Ht].
      destruct (nth_error labels i) as [row0|] eqn:El;
        [|apply nth_error_None in El;
          assert (Hnone : nth_error labels (S (i + k)) = None)
            by (apply nth_error_None; lia);
          rewrite Hnone in Hl; discriminate Hl].
      rewrite (save_timestamp_round file rest i disk emb0 ts0 row0 Hw Ee Et El)
        in H.
      apply (IH (S i) _ disk' r k f emb ts row (writable_tail _ _ _ _ Hw)
               Hnd H Hk); assumption.
Qed.


(** A path that does not open stops the batch: when the embedding file of
    the first name cannot be opened, nothing is written and the exception of
    the opening comes out. *)
Lemma unwritable_path_stops_the_batch (file : string) (rest : list string)
    (disk : Disk.t) (emb : ndarray) (e : exn) :
  nth_error embeddings 0 = Some emb ->
  cannot_open (joinpath file ++ ".embedding.npy")%string = Some e ->
  save_timestamp_embedding_and_labels joinpath cannot_open embeddings
    timestamps labels (file :: rest) disk
  = (disk, Raise e).
Proof.
  intros He Hopen. unfold save_timestamp_embedding_and_labels.
  cbn [save_timestamp_from]. unfold index. rewrite He. cbv beta iota.
  rewrite (write_refused _ _ _ _ e Hopen). reflexivity.
Qed.

End TimestampFiles.

End PersisterFacts.

Section SavedBatches.

Variable joinpath : string -> string.
Variable cannot_open : string -> option exn.

(** The record pass 2 builds for a plain name whose three paths hold what
    the persister wrote. *)
Lemma artifacts_of_saved (disk : Disk.t) (f : string) (emb : ndarray)
    (lbl : json) (stamps : option json) :
  plain_name joinpath f ->
  disk (joinpath f ++ ".embedding.npy")%string = Some (Disk.NpyFile emb) ->
  disk (joinpath f ++ ".target-labels.json")%string
  = Some (Disk.JsonFile lbl) ->
  Disk.json_at disk (joinpath f ++ ".timestamps.json")%string = stamps ->
  artifacts joinpath disk f = mkFile (joinpath f) (Some emb) (Some lbl) stamps.
Proof.
  intros Hplain He Hl Ht.
  destruct (plain_name_paths joinpath f Hplain) as [Hslug Hrep].
  unfold artifacts. rewrite Hslug, !Hrep.
  destruct Hplain as [Hjoin _]. rewrite Hjoin.
  unfold Disk.npy_at.
  change (joinpath f ++ "." ++ "target-labels.json")%string
    with (joinpath f ++ ".target-labels.json")%string.
  change (joinpath f ++ "." ++ "timestamps.json")%string
    with (joinpath f ++ ".timestamps.json")%string.
  rewrite He, Ht. unfold Disk.json_at. rewrite Hl. reflexivity.
Qed.


(** X18. The event and continuous branch of the driver hands pass 2 a
    consistent split: when the aligner returned the rows of a batch, every
    embedding has one row of [D] numbers per timestamp of its clip, and the
    file names are distinct and plain with artifact paths that open for
    writing, the persister completes and the records pass 2 builds from the
    disk agree file by file (as many labels and timestamps as embedding
    rows). *)
Theorem saved_batch_is_consistent (set_iter : list Interval -> list Interval)
    (metadata : Metadata) (D : nat) (labels : list (list Event))
    (timestamps : list (list float)) (mode : string) (to_onehot : bool)
    (default_label : pyval) (rows : list (list entry))
    (embeddings : list ndarray) (filename : list string) (disk : Disk.t) :
  is_event_or_continuous metadata = true ->
  get_labels_for_timestamps set_iter labels timestamps mode to_onehot
    default_label = Ok rows ->
  Forall2 (fun emb ts => exists dt, emb = mkArray dt [length ts; D])
          embeddings timestamps ->
  length filename = length timestamps ->
  writable joinpath cannot_open filename ->
  NoDup (map joinpath filename) ->
  Forall (plain_name joinpath) filename ->
  exists disk',
    save_timestamp_embedding_and_labels joinpath cannot_open embeddings
      timestamps rows filename disk = (disk', Ok tt)
    /\ consistent_split metadata D (map (artifacts joinpath disk') filename).
Proof.
  intros Hkind Hrows Hshape Hlen Hw Hnd Hplain.
  destruct (get_labels_rows set_iter _ _ _ _ _ _ Hrows)
    as (_ & Hlrows & Hrow).
  pose proof (Forall2_length Hshape) as Hlemb.
  destruct (save_timestamp_from_ok joinpath cannot_open embeddings timestamps
              rows filename 0 disk) as [disk' Hsave];
    [exact Hw|simpl; lia ..|].
  exists disk'. split; [exact Hsave|].
  right. split; [exact Hkind|].
  apply Forall_forall. intros file Hin.
  apply in_map_iff in Hin. destruct Hin as (f & <- & Hin).
  destruct (In_nth_error _ _ Hin) as [i Hf].
  assert (Hi : i < length filename) by (apply nth_error_Some; congruence).
  destruct (nth_error embeddings i) as [emb|] eqn:Eemb;
    [|apply nth_error_None in Eemb; lia].
  destruct (nth_error timestamps i) as [ts|] eqn:Ets;
    [|apply nth_error_None in Ets; lia].
  destruct (nth_error rows i) as [row|] eqn:Erow;
    [|apply nth_error_None in Erow; lia].
  destruct (save_timestamp_from_lookup joinpath cannot_open embeddings
              timestamps rows filename 0 disk disk' (Ok tt) i f emb ts row
              Hw Hnd Hsave Hf Eemb Ets Erow) as (De & Dt & Dl).
  rewrite (artifacts_of_saved disk' f emb (JList (map entry_json row))
             (Some (tolist ts))).
  - assert (Hdt : exists dt, emb = mkArray dt [length ts; D]).
    { clear - Hshape Eemb Ets. revert i Eemb Ets.
      induction Hshape as [|e t es tss Het _ IH]; intros i Eemb Ets.
      - destruct i; discriminate.
      - destruct i as [|i]; simpl in Eemb, Ets.
        + injection Eemb as <-. injection Ets as <-. exact Het.
        + apply (IH i); assumption. }
    destruct Hdt as [dt ->].
    exists dt, (length ts), (map entry_json row), (map JFloat ts).
    simpl. rewrite !length_map.
    repeat split. apply (Hrow i); assumption.
  - rewrite Forall_forall in Hplain. apply Hplain. exact Hin.
  - exact De.
  - exact Dl.
  - unfold Disk.json_at. rewrite Dt. reflexivity.
Qed.


End SavedBatches.

Section SceneFiles.

Variable joinpath : string -> string.
Variable cannot_open : string -> option exn.
Variable embeddings : list ndarray.
Variable labels : list json.






End SceneFiles.

(** The hypothesis on the names is needed: the labels saved for a clip named
    [embedding.npy.wav] are looked for under another path. *)
Lemma inner_occurrence_loses_labels :
  let joinpath := fun name => ("embeddings/" ++ name)%string in
  let f := "embedding.npy.wav"%string in
  let emb := f32 [2; 3] in
  let disk' :=
    fst (save_timestamp_embedding_and_labels joinpath (fun _ => None) [emb]
           [[0; 1]]%float [[Labels []; Labels []]] [f] Disk.empty) in
  disk' (joinpath f ++ ".target-labels.json")%string <> None
  /\ target_labels_json (artifacts joinpath disk' f) = None.
Proof. split; [discriminate|reflexivity]. Qed.

(** A name with a directory of its own, in a split directory that has no
    subdirectory: the first write cannot open its path, and the batch stops
    with a [FileNotFoundError] and nothing written. *)
Example missing_directory_stops_the_batch :
  save_timestamp_embedding_and_labels under_train train_directory_only
    [f32 [2; 4]] [[0; 250]%float] [[Labels []; Labels []]] ["sub/b.wav"]
    Disk.empty
  = (Disk.empty, Raise FileNotFoundError).
Proof. reflexivity. Qed.

(** ** The runner and the DCASE script *)

Section RunnerFacts.

Variable cpu_count : Z.
Variable speech_commands_main : list (string * json) -> result json.
Variable nsynth_pitch_main : list (string * json) -> result json.
Variable dcase_pipeline : Dcase.Config -> list (string * json) -> result json.
Variable pipeline_run : list json -> Z -> result unit.

(** The keywords [run] passes are not the parameters of the DCASE [main]. *)
Lemma dcase_main_rejects_runner_keywords (pipeline :
    Dcase.Config -> list (string * json) -> result json)
    (sample_rates tmp_dir tasks_dir small : json) (c : Dcase.Config) :
  Dcase.main pipeline
    [("sample_rates", sample_rates); ("tmp_dir", tmp_dir);
     ("tasks_dir", tasks_dir); ("small", small)]%string c
  = (c, Raise TypeError).
Proof. reflexivity. Qed.

(** X21. The runner cannot build the DCASE task: [run] calls the script's
    [main] with the keyword [tmp_dir], which [main] does not have, and
    without [num_workers] and [luigi_dir], which it requires.  Whatever the
    options, [run] on "dcase2016_task2" raises a [TypeError], and on "all"
    it raises as well; the module's [config] is not touched and
    [pipeline.run] is not reached. *)
Theorem runner_cannot_start_dcase (num_workers sample_rate : option Z)
    (tmp_dir tasks_dir : option string) (small : bool) (c : Dcase.Config) :
  Runner.run cpu_count speech_commands_main nsynth_pitch_main dcase_pipeline
    pipeline_run "dcase2016_task2" num_workers sample_rate tmp_dir tasks_dir
    small c = (c, Raise TypeError)
  /\ exists e,
       Runner.run cpu_count speech_commands_main nsynth_pitch_main
         dcase_pipeline pipeline_run "all" num_workers sample_rate tmp_dir
         tasks_dir small c = (c, Raise e)
       /\ ((forall kwargs, exists a, speech_commands_main kwargs = Ok a) ->
           (forall kwargs, exists b, nsynth_pitch_main kwargs = Ok b) ->
           e = TypeError).
Proof.
  split.
  - unfold Runner.run.
    replace (Runner.tasks_getitem "dcase2016_task2" Runner.tasks)
      with (Ok [Runner.dcase2016_task2]) by reflexivity.
    cbn [Runner.tasks_to_run Runner.call_main].
    rewrite dcase_main_rejects_runner_keywords. reflexivity.
  - unfold Runner.run.
    replace (Runner.tasks_getitem "all" Runner.tasks)
      with (Ok [Runner.speech_commands; Runner.nsynth_pitch;
                Runner.dcase2016_task2]) by reflexivity.
    cbn [Runner.tasks_to_run Runner.call_main].
    rewrite dcase_main_rejects_runner_keywords.
    match goal with
    | |- context [speech_commands_main ?kw] =>
        destruct (speech_commands_main kw) as [a|e1] eqn:E1;
        [destruct (nsynth_pitch_main kw) as [b|e2] eqn:E2|]
    end.
    + exists TypeError. split; reflexivity.
    + exists e2. split; [reflexivity|].
      intros _ Hret.
      match type of E2 with
      | nsynth_pitch_main ?kw = _ =>
          destruct (Hret kw) as [b' Hb]; congruence
      end.
    + exists e1. split; [reflexivity|].
      intros Hret _.
      match type of E1 with
      | speech_commands_main ?kw = _ =>
          destruct (Hret kw) as [a' Ha]; congruence
      end.
Qed.

End RunnerFacts.

Section ConfigUpdates.

Variable pipeline : Dcase.Config -> list (string * json) -> result json.

(** The configuration one call of [main] leaves. *)
Lemma dcase_main_config (kwargs : list (string * json)) (c : Dcase.Config) :
  forget_luigi_dir (fst (Dcase.main pipeline kwargs c))
  = forget_luigi_dir (if asks_small kwargs then Dcase.update_small c else c).
Proof.
  unfold Dcase.main, asks_small.
  destruct (Call.bind_arguments Dcase.main_signature kwargs) as [args|e];
    [|reflexivity].
  destruct (Call.truthy (Call.value "small" args)); reflexivity.
Qed.

Lemma update_small_forget (c c' : Dcase.Config) :
  forget_luigi_dir c = forget_luigi_dir c' ->
  forget_luigi_dir (Dcase.update_small c)
  = forget_luigi_dir (Dcase.update_small c').
Proof.
  destruct c, c'. unfold forget_luigi_dir, Dcase.update_small. simpl.
  intros H. injection H as -> -> -> -> -> -> -> -> ->. reflexivity.
Qed.

(** X23. The small overrides stick to the module's [config]: after any
    sequence of calls of [main], the keys other than "luigi_dir" are those
    of the initial configuration when no call that bound its arguments
    asked for the small run, and otherwise those of the initial
    configuration updated with its "small" entry, also when later calls
    pass [small=False]. *)
Theorem small_overrides_stick (calls : list (list (string * json)))
    (c : Dcase.Config) :
  forget_luigi_dir (after_calls pipeline calls c)
  = forget_luigi_dir
      (if existsb asks_small calls then Dcase.update_small c else c).
Proof.
  revert c. induction calls as [|kwargs rest IH]; intros c; [reflexivity|].
  cbn [after_calls fold_left existsb].
  change (fold_left (fun c0 kw => fst (Dcase.main pipeline kw c0)) rest
            (fst (Dcase.main pipeline kwargs c)))
    with (after_calls pipeline rest (fst (Dcase.main pipeline kwargs c))).
  rewrite IH.
  pose proof (dcase_main_config kwargs c) as Hstep.
  destruct (asks_small kwargs); cbn [orb].
  - destruct (existsb asks_small rest).
    + rewrite (update_small_forget _ _ Hstep).
      destruct c; reflexivity.
    + exact Hstep.
  - destruct (existsb asks_small rest).
    + apply update_small_forget. exact Hstep.
    + exact Hstep.
Qed.

End ConfigUpdates.

(** ** The recording of an annotation file *)

Lemma string_drop_app (a b : string) :
  string_drop (String.length a) (a ++ b) = b.
Proof. induction a as [|c a IH]; [destruct b|]; simpl; auto. Qed.

Lemma string_drop_add (n m : nat) (s : string) :
  string_drop (n + m) s = string_drop m (string_drop n s).
Proof.
  revert s; induction n as [|n IH]; intros s; [reflexivity|].
  destruct s as [|c s]; simpl.
  - destruct m; reflexivity.
  - apply IH.
Qed.

Lemma prefix_app (old b : string) : String.prefix old (old ++ b) = true.
Proof.
  induction old as [|c old IH]; simpl; [destruct b; reflexivity|].
  destruct (Ascii.ascii_dec c c) as [_|n]; [exact IH|].
  exfalso; apply n; reflexivity.
Qed.

Lemma replace_from_skip (old new o b : string) :
  replace_from old new (String.length o) (o ++ b) = replace_from old new 0 b.
Proof. induction o as [|c o IH]; simpl; [reflexivity|exact IH]. Qed.

(** Without an occurrence of [old] nothing is replaced. *)
Lemma replace_absent (old new s : string) :
  (forall i, ~ occurs_at old s i) -> replace old new s = s.
Proof.
  unfold replace. induction s as [|c s IH]; intros H; [reflexivity|].
  cbn [replace_from].
  destruct (String.prefix old (String c s)) eqn:Ep.
  - exfalso. apply (H 0). exact Ep.
  - f_equal. apply IH. intros i Hi. apply (H (S i)). exact Hi.
Qed.

(** A single occurrence of [old] is replaced where it stands. *)
Lemma replace_unique (old new a b : string) :
  old <> EmptyString ->
  (forall i, occurs_at old (a ++ old ++ b) i -> i = String.length a) ->
  replace old new (a ++ old ++ b) = (a ++ new ++ b)%string.
Proof.
  intros Hold. induction a as [|c a IH]; intros H.
  - destruct old as [|c o]; [congruence|].
    unfold replace. cbn [append replace_from].
    change (String c (o ++ b)) with (String c o ++ b)%string.
    rewrite prefix_app. cbn [String.length]. rewrite Nat.sub_succ, Nat.sub_0_r.
    change (String c o ++ b)%string with (String c (o ++ b)).
    rewrite replace_from_skip. f_equal.
    apply replace_absent. intros j Hj.
    specialize (H (String.length (String c o) + j)).
    cbn [append String.length] in H.
    assert (S (String.length o) + j = 0); [|lia].
    apply H. unfold occurs_at in *.
    change (String c (o ++ b)) with (String c o ++ b)%string.
    change (S (String.length o)) with (String.length (String c o)).
    rewrite string_drop_add, string_drop_app. exact Hj.
  - unfold replace in *. cbn [append replace_from].
    destruct (String.prefix old (String c (a ++ old ++ b))) eqn:Ep.
    + specialize (H 0 Ep). simpl in H. discriminate.
    + f_equal. apply IH. intros i Hi.
      specialize (H (S i) Hi). simpl in H. lia.
Qed.

(** X22. The recording [get_split_metadata] assigns to an annotation file
    [split_path/annotation/name.txt] is [split_path/sound/name.wav], when
    "annotation" occurs in the path as that directory only and ".txt"
    occurs, after the directory was renamed, as the extension only. *)
Theorem sound_file_of_annotation (split_path name : string) :
  (forall i,
     occurs_at "annotation"
       (split_path ++ "/annotation/" ++ name ++ ".txt") i ->
     i = String.length split_path + 1) ->
  (forall i,
     occurs_at ".txt" (split_path ++ "/sound/" ++ name ++ ".txt") i ->
     i = String.length split_path + 7 + String.length name) ->
  Dcase.sound_file (split_path ++ "/annotation/" ++ name ++ ".txt")
  = (split_path ++ "/sound/" ++ name ++ ".wav")%string.
Proof.
  intros Hdir Hext. unfold Dcase.sound_file.
  assert (Hfirst :
            replace "annotation" "sound"
              (split_path ++ "/annotation/" ++ name ++ ".txt")
            = (split_path ++ "/sound/" ++ name ++ ".txt")%string).
  { change (split_path ++ "/annotation/" ++ name ++ ".txt")%string
      with (split_path ++ "/" ++ "annotation" ++ ("/" ++ name ++ ".txt"))%string.
    rewrite <- (string_app_assoc split_path "/").
    rewrite replace_unique.
    - rewrite string_app_assoc. reflexivity.
    - discriminate.
    - intros i Hi. rewrite string_length_app. cbn [String.length].
      apply Hdir. rewrite string_app_assoc in Hi. exact Hi. }
  rewrite Hfirst.
  replace (split_path ++ "/sound/" ++ name ++ ".txt")%string
    with ((split_path ++ "/sound/" ++ name) ++ ".txt" ++ "")%string
    by (rewrite !string_app_assoc; reflexivity).
  rewrite replace_unique.
  - rewrite !string_app_assoc. reflexivity.
  - discriminate.
  - intros i Hi. rewrite !string_length_app. cbn [String.length].
    rewrite (Hext i); [lia|].
    rewrite !string_app_assoc in Hi. exact Hi.
Qed.

(** The hypothesis on the directory is needed: a working directory whose
    name holds "annotation" is renamed as well. *)
Lemma sound_file_renames_every_annotation :
  Dcase.sound_file "my_annotation_runs/train/annotation/a.txt"
  = "my_sound_runs/train/sound/a.wav"%string.
Proof. reflexivity. Qed.

(** ** Instances of the further properties *)

Lemma aligner_output_shape_witness :
  exists out,
    get_labels_for_timestamps identity_order [[ev_interval 0 500 "dog"]]
      [[0; 250; 500; 750]%float] "default" false PyNone = Ok out
    /\ length out = length [[0; 250; 500; 750]%float]
    /\ forall i row ts,
         nth_error out i = Some row ->
         nth_error [[0; 250; 500; 750]%float] i = Some ts ->
         length row = length ts.
Proof.
  eexists. split; [vm_compute; reflexivity|].
  apply (aligner_output_shape identity_order [[ev_interval 0 500 "dog"]]
           [[0; 250; 500; 750]%float] "default" false PyNone).
  vm_compute. reflexivity.
Defined.

Lemma default_policy_failures_witness :
  (KeyError = KeyError
   /\ Exists (Exists lacks_interval_key)
        [[mkEvent (Some 0%float) None (Some "dog") None]])
  \/ (KeyError = ValueError
      /\ Exists (Exists null_event)
           [[mkEvent (Some 0%float) None (Some "dog") None]]).
Proof.
  apply (default_policy_failures identity_order
           [[mkEvent (Some 0%float) None (Some "dog") None]] [[0%float]] false PyNone
           KeyError eq_refl).
  reflexivity.
Defined.

Lemma onehot_labels_are_causal_witness :
  exists c,
    Labels [PyStr "dog"] = Labels [c]
    /\ (c = PyStr "silence"
        \/ exists j' t',
             j' <= 1
             /\ nth_error [0; 250; 500; 750]%float j' = Some t'
             /\ among_matches [ev_interval 0 500 "dog"] t' c).
Proof.
  eapply (onehot_labels_are_causal identity_order identity_order_perm
            [[ev_interval 0 500 "dog"]] [[0; 250; 500; 750]%float]
            (PyStr "silence") _ 0 _ _ _ 1 _).
  - vm_compute. reflexivity.
  - reflexivity.
  - reflexivity.
  - reflexivity.
  - reflexivity.
Defined.

Lemma onehot_is_identity_on_single_matches_witness :
  get_labels_for_timestamps identity_order [[ev_interval 0 500 "dog"]]
    [[0; 250]%float] "default" true (PyStr "silence")
  = get_labels_for_timestamps identity_order [[ev_interval 0 500 "dog"]]
      [[0; 250]%float] "default" false PyNone.
Proof.
  apply (onehot_is_identity_on_single_matches identity_order
           identity_order_perm [[ev_interval 0 500 "dog"]] [[0; 250]%float]
           (PyStr "silence") PyNone).
  - constructor; [|constructor]. constructor; [|constructor].
    intros b H. injection H as <-. reflexivity.
  - intros evs ts t [Hclip|[]] Ht.
    injection Hclip as <- <-.
    exists (ev_interval 0 500 "dog"). split; [left; reflexivity|]. split.
    + destruct Ht as [<-|[<-|[]]]; split; reflexivity.
    + intros ev' [<-|[]] _. repeat split; reflexivity.
Defined.

Lemma smoothed_policy_never_aligns_witness :
  get_labels_for_timestamps identity_order [[ev_interval 0 500 "dog"]]
    [[0%float]] "smoothed" false PyNone
  = if forallb has_smoothed_keys [ev_interval 0 500 "dog"]
    then Raise UnboundLocalError else Raise KeyError.
Proof.
  apply (smoothed_policy_never_aligns identity_order
           [ev_interval 0 500 "dog"] [] [0%float] [] false PyNone eq_refl).
Defined.

Lemma continuous_policy_ignores_event_order_witness :
  get_labels_for_timestamps identity_order
    [[ev_onset 0 [0; 0]%float; ev_onset 1000 [1; 1]%float]] [[500%float]]
    "continuous" false PyNone
  = get_labels_for_timestamps identity_order
      [[ev_onset 1000 [1; 1]%float; ev_onset 0 [0; 0]%float]] [[500%float]]
      "continuous" false PyNone.
Proof.
  apply (continuous_policy_ignores_event_order identity_order
           [[ev_onset 0 [0; 0]%float; ev_onset 1000 [1; 1]%float]]
           [[ev_onset 1000 [1; 1]%float; ev_onset 0 [0; 0]%float]] [[500%float]]
           false PyNone).
  - constructor; [apply perm_swap|constructor].
  - intros evs [<-|[]]. simpl.
    constructor.
    + intros Hin. inversion Hin as [? ? Heq|? ? Hin']; subst.
      * destruct Heq as [Heq _]. vm_compute in Heq. discriminate Heq.
      * inversion Hin'.
    + constructor; [intros Hin; inversion Hin|constructor].
Defined.

Lemma consolidated_lists_align_witness :
  exists out,
    memmap_embeddings identity_order (mkMetadata "event" "multilabel")
      [event_file "a" 10 128; event_file "b" 10 128] = Ok out
    /\ target_labels out
       = flat_map (file_labels (mkMetadata "event" "multilabel"))
           (identity_order [event_file "a" 10 128; event_file "b" 10 128])
    /\ (is_event_or_continuous (mkMetadata "event" "multilabel") = false ->
        filename_timestamps out = None)
    /\ (is_event_or_continuous (mkMetadata "event" "multilabel") = true ->
        filename_timestamps out
        = Some (flat_map file_stamps
                  (identity_order
                     [event_file "a" 10 128; event_file "b" 10 128]))
        /\ Forall (fun f =>
                     length (file_labels (mkMetadata "event" "multilabel") f)
                     = row_count (mkMetadata "event" "multilabel") f
                     /\ length (file_stamps f)
                        = row_count (mkMetadata "event" "multilabel") f)
                  (identity_order
                     [event_file "a" 10 128; event_file "b" 10 128])).
Proof.
  eexists. split; [vm_compute; reflexivity|].
  apply (consolidated_lists_align identity_order
           (mkMetadata "event" "multilabel")
           [event_file "a" 10 128; event_file "b" 10 128]).
  vm_compute. reflexivity.
Defined.

Lemma consolidation_validates_files_witness :
  exists out,
    memmap_embeddings identity_order (mkMetadata "event" "multilabel")
      [event_file "a" 10 128; event_file "b" 10 128] = Ok out
    /\ Forall (validated_file (mkMetadata "event" "multilabel")
                 (snd (embedding_dimensions out)))
              [event_file "a" 10 128; event_file "b" 10 128].
Proof.
  eexists. split; [vm_compute; reflexivity|].
  apply (consolidation_validates_files identity_order identity_order_perm
           (mkMetadata "event" "multilabel")
           [event_file "a" 10 128; event_file "b" 10 128]).
  vm_compute. reflexivity.
Defined.

Lemma unknown_embedding_type_stops_witness :
  memmap_embeddings identity_order (mkMetadata "frame" "multilabel")
    [event_file "a" 10 128]
  = match identity_order [event_file "a" 10 128] with
    | [] => Raise UnboundLocalError
    | f :: _ =>
        match embedding_npy f with
        | Some _ => Raise ValueError
        | None => Raise AssertionError
        end
    end.
Proof.
  apply (unknown_embedding_type_stops identity_order
           (mkMetadata "frame" "multilabel") [event_file "a" 10 128]);
    discriminate.
Defined.

Lemma single_column_files_pass_witness :
  exists out,
    memmap_embeddings identity_order (mkMetadata "event" "multilabel")
      [event_file "a" 10 1; event_file "b" 10 128] = Ok out
    /\ embedding_dimensions out
       = (total_rows (mkMetadata "event" "multilabel")
            [event_file "a" 10 1; event_file "b" 10 128], 128).
Proof.
  apply (single_column_files_pass identity_order identity_order_perm
           (mkMetadata "event" "multilabel") 128
           [event_file "a" 10 1; event_file "b" 10 128]).
  - reflexivity.
  - discriminate.
  - constructor; [|constructor; [|constructor]].
    + right. exists Float32, 10, (repeat JNull 10), (repeat JNull 10).
      repeat split; reflexivity.
    + left. exists Float32, 10, (repeat JNull 10), (repeat JNull 10).
      repeat split; reflexivity.
  - reflexivity.
  - vm_compute. lia.
Defined.

Lemma label_vocabulary_round_trip_witness :
  exists label_vocab,
    read_vocabulary_file int_of_digits
      (csv_text (String CR (String LF "")) "idx,label"
         [("0", "dog"); ("1", "cat")]) = Ok label_vocab
    /\ map snd label_vocab = map snd [("0", "dog"); ("1", "cat")]
    /\ Forall2 (fun entry row => int_of_digits (fst row) = Ok (fst entry))
               label_vocab [("0", "dog"); ("1", "cat")]
    /\ ([("0", "dog"); ("1", "cat")] <> [] ->
        default_label_of int_of_digits
          (universal_newlines
             (csv_text (String CR (String LF "")) "idx,label"
                [("0", "dog"); ("1", "cat")]))
        = Ok (PyStr (snd (last [("0", "dog"); ("1", "cat")] ("", ""))))).
Proof.
  apply (label_vocabulary_round_trip int_of_digits
           (String CR (String LF "")) "idx,label"
           [("0", "dog"); ("1", "cat")]).
  - right. left. reflexivity.
  - discriminate.
  - reflexivity.
  - reflexivity.
  - repeat constructor; eexists; reflexivity.
Defined.

Lemma driver_alignment_is_the_aligner_call_witness :
  align_batch identity_order int_of_digits (mkMetadata "event" "multilabel")
    (Some (csv_text (String LF "") "idx,label"
                  [("0", "dog"); ("1", "cat")]))
    [("a.wav", [ev_interval 0 500 "dog"])] ["a.wav"] [[0; 250]%float]
  = get_labels_for_timestamps identity_order [[ev_interval 0 500 "dog"]]
      [[0; 250]%float]
      (if (embedding_type (mkMetadata "event" "multilabel")
           =? "continuous")%string
       then "continuous" else "default")
      (prediction_type (mkMetadata "event" "multilabel")
       =? "multiclass")%string
      (PyStr "cat")
  /\ forall e,
       align_batch identity_order int_of_digits
         (mkMetadata "event" "multilabel")
         (Some (csv_text (String LF "") "idx,label"
                  [("0", "dog"); ("1", "cat")]))
         [("a.wav", [ev_interval 0 500 "dog"])] ["a.wav"] [[0; 250]%float]
       = Raise e ->
       e = AssertionError \/ e = KeyError \/ e = ValueError \/ e = IndexError.
Proof.
  apply (driver_alignment_is_the_aligner_call identity_order int_of_digits
           (mkMetadata "event" "multilabel")
           (csv_text (String LF "") "idx,label" [("0", "dog"); ("1", "cat")])
           [("a.wav", [ev_interval 0 500 "dog"])] ["a.wav"] [[0; 250]%float]
           [[ev_interval 0 500 "dog"]] (PyStr "cat")).
  - discriminate.
  - reflexivity.
  - reflexivity.
Defined.

(** The clip names of the instances are plain. *)
Lemma clip_names_plain :
  Forall (plain_name under_train) ["a.wav"; "b.wav"].
Proof.
  constructor; [|constructor; [|constructor]];
    (split; [reflexivity|]; intros [i [Hi Hp]];
     do 40 (destruct i as [|i];
            [first [discriminate Hp|vm_compute in Hi; lia]|]);
     vm_compute in Hi; lia).
Defined.

Lemma clip_paths_distinct : NoDup (map under_train ["a.wav"; "b.wav"]).
Proof.
  constructor; [|constructor; [|constructor]].
  - intros [H|[]]. discriminate H.
  - intros [].
Defined.

Lemma clip_paths_open :
  writable under_train train_directory_only ["a.wav"; "b.wav"].
Proof.
  intros f s Hf Hs. simpl in Hf, Hs.
  destruct Hf as [<-|[<-|[]]]; destruct Hs as [<-|[<-|[<-|[]]]];
    reflexivity.
Defined.


Lemma saved_batch_is_consistent_witness :
  exists rows,
    get_labels_for_timestamps identity_order
      [[ev_interval 0 500 "dog"]; []] [[0; 250]%float; [0%float]] "default" false
      PyNone = Ok rows
    /\ exists disk',
         save_timestamp_embedding_and_labels under_train train_directory_only
           [f32 [2; 4]; f32 [1; 4]] [[0; 250]%float; [0%float]] rows
           ["a.wav"; "b.wav"] Disk.empty = (disk', Ok tt)
         /\ consistent_split (mkMetadata "event" "multilabel") 4
              (map (artifacts under_train disk') ["a.wav"; "b.wav"]).
Proof.
  eexists. split; [vm_compute; reflexivity|].
  apply (saved_batch_is_consistent under_train train_directory_only
           identity_order
           (mkMetadata "event" "multilabel") 4
           [[ev_interval 0 500 "dog"]; []] [[0; 250]%float; [0%float]] "default"
           false PyNone _ [f32 [2; 4]; f32 [1; 4]] ["a.wav"; "b.wav"]
           Disk.empty).
  - reflexivity.
  - vm_compute. reflexivity.
  - constructor; [exists Float32; reflexivity|].
    constructor; [exists Float32; reflexivity|constructor].
  - reflexivity.
  - exact clip_paths_open.
  - exact clip_paths_distinct.
  - exact clip_names_plain.
Defined.



Lemma sound_file_of_annotation_witness :
  Dcase.sound_file ("work/train" ++ "/annotation/" ++ "a" ++ ".txt")%string
  = ("work/train" ++ "/sound/" ++ "a" ++ ".wav")%string.
Proof.
  apply (sound_file_of_annotation "work/train" "a").
  - intros i Hi. unfold occurs_at in Hi.
    do 30 (destruct i as [|i]; [first [reflexivity|discriminate Hi]|]).
    discriminate Hi.
  - intros i Hi. unfold occurs_at in Hi.
    do 30 (destruct i as [|i]; [first [reflexivity|discriminate Hi]|]).
    discriminate Hi.
Defined.
